(** * RB3Enhanced music video player: event decoding and synchronisation

    A shallow embedding of the two front ends of the player,
    [rb3_player_nogui.py] (module [NoGui]) and [rb3_gui_player.py]
    (module [Gui]), and of the Python built-ins they rely on
    ([bytes.rstrip], [bytes.decode], [str.isdigit], [int], [re.sub],
    [re.split], [str.strip], [set.pop]).

    Python [bytes] are lists of [byte]; Python [str] are lists of Unicode
    code points ([Z]); [dict] and [set] are stdpp's [gmap] and [gset].
    Functions that print, call the GUI log callback, talk to VLC or to the
    YouTube collaborators return the list of effects they perform, in
    order, next to the new state. *)

From Stdlib Require Import ZArith List Bool Lia String Ascii.
From Stdlib Require Import Init.Byte.
From stdpp Require Import base decidable option list countable strings gmap.

Import ListNotations.
Local Open Scope Z_scope.

(** ** Bytes *)

Definition bytes := list byte.

(** The value [0..255] of a byte, as [struct.unpack('B', ...)] reads it. *)
Definition u8 (b : byte) : Z := Z.of_N (Byte.to_N b).

(** [struct.unpack('>I', data[:4])[0]]: four bytes, most significant first. *)
Definition unpack_be32 (b0 b1 b2 b3 : byte) : Z :=
  Z.lor (Z.shiftl (u8 b0) 24)
    (Z.lor (Z.shiftl (u8 b1) 16) (Z.lor (Z.shiftl (u8 b2) 8) (u8 b3))).

(** [data[lo:hi]] for non-negative bounds: Python clamps the slice to the
    bytes that are present. *)
Definition slice {A} (lo hi : nat) (data : list A) : list A :=
  take (hi - lo)%nat (drop lo data).

Definition is_nul (b : byte) : bool := (u8 b =? 0).

(** [data.rstrip(b'\x00')]: the trailing run of NUL bytes is removed. *)
Definition rstrip_nul (data : bytes) : bytes :=
  fold_right (fun b acc => if is_nul b && bool_decide (acc = []) then [] else b :: acc) [] data.

(** ** Text *)

(** A Python [str] is a sequence of Unicode code points. *)
Definition char := Z.
Definition str := list char.

(** A literal of the source, written as a Coq string of ASCII characters. *)
Definition lit (s : string) : str :=
  List.map (fun a => Z.of_N (N_of_ascii a)) (list_ascii_of_string s).

(** *** UTF-8 decoding

    [bytes.decode('utf-8', errors=...)] as CPython implements it: the
    decoder reads one scalar value at a time; at an ill-formed sequence it
    reports the range of bytes in error (one byte for an invalid start
    byte, the bytes read so far for an invalid continuation byte, the rest
    of the input for a sequence cut short by the end of the data), and the
    error handler decides what is written for that range. *)

Inductive errors :=
  | Ignore    (* errors='ignore': the bytes in error are dropped *)
  | Replace.  (* errors='replace': U+FFFD is written for them *)

Definition on_error (e : errors) : str :=
  match e with
  | Ignore => []
  | Replace => [0xFFFD]
  end.

(** [(b & 0xC0) == 0x80] *)
Definition is_continuation (b : byte) : bool := (0x80 <=? u8 b) && (u8 b <? 0xC0).

(** Second bytes that are continuation bytes but still ill-formed after
    the lead byte [ch]: overlong forms and surrogates (three bytes),
    overlong forms and values above U+10FFFF (four bytes). *)
Definition bad_second3 (ch ch2 : Z) : bool :=
  if ch2 <? 0xA0 then ch =? 0xE0 else ch =? 0xED.

Definition bad_second4 (ch ch2 : Z) : bool :=
  if ch2 <? 0x90 then ch =? 0xF0 else ch =? 0xF4.

Fixpoint utf8_decode (e : errors) (s : bytes) : str :=
  match s with
  | [] => []
  | c :: s1 =>
    let ch := u8 c in
    if ch <? 0x80 then ch :: utf8_decode e s1
    else if ch <? 0xC2 then on_error e ++ utf8_decode e s1
    else if ch <? 0xE0 then
      match s1 with
      | [] => on_error e
      | c2 :: s2 =>
        if is_continuation c2
        then (Z.shiftl ch 6 + u8 c2 - (Z.shiftl 0xC0 6 + 0x80)) :: utf8_decode e s2
        else on_error e ++ utf8_decode e s1
      end
    else if ch <? 0xF0 then
      match s1 with
      | [] => on_error e
      | c2 :: s2 =>
        if negb (is_continuation c2) || bad_second3 ch (u8 c2)
        then on_error e ++ utf8_decode e s1
        else
          match s2 with
          | [] => on_error e
          | c3 :: s3 =>
            if is_continuation c3
            then (Z.shiftl ch 12 + Z.shiftl (u8 c2) 6 + u8 c3
                  - (Z.shiftl 0xE0 12 + Z.shiftl 0x80 6 + 0x80)) :: utf8_decode e s3
            else on_error e ++ utf8_decode e s2
          end
      end
    else if ch <? 0xF5 then
      match s1 with
      | [] => on_error e
      | c2 :: s2 =>
        if negb (is_continuation c2) || bad_second4 ch (u8 c2)
        then on_error e ++ utf8_decode e s1
        else
          match s2 with
          | [] => on_error e
          | c3 :: s3 =>
            if negb (is_continuation c3)
            then on_error e ++ utf8_decode e s2
            else
              match s3 with
              | [] => on_error e
              | c4 :: s4 =>
                if is_continuation c4
                then (Z.shiftl ch 18 + Z.shiftl (u8 c2) 12 + Z.shiftl (u8 c3) 6 + u8 c4
                      - (Z.shiftl 0xF0 18 + Z.shiftl 0x80 12 + Z.shiftl 0x80 6 + 0x80))
                     :: utf8_decode e s4
                else on_error e ++ utf8_decode e s3
              end
          end
      end
    else on_error e ++ utf8_decode e s1
  end.

(** *** Character classes of the Unicode database

    The tables are those of the Unicode Character Database, version 14.0,
    which CPython 3.11 ships. *)

Definition in_range (lo hi c : Z) : bool := (lo <=? c) && (c <=? hi).

(** [str.isspace] on one character; the class [\s] of [re] on [str]
    patterns is the same set. *)
Definition isspace (c : char) : bool :=
  in_range 0x09 0x0D c || in_range 0x1C 0x20 c || (c =? 0x85) || (c =? 0xA0)
  || (c =? 0x1680) || in_range 0x2000 0x200A c || in_range 0x2028 0x2029 c
  || (c =? 0x202F) || (c =? 0x205F) || (c =? 0x3000).

(** Code points of the digit zero of every decimal number system
    (general category Nd); the nine code points after each are its digits
    one to nine. *)
Definition decimal_zeros : list Z :=
  [ 0x30; 0x660; 0x6F0; 0x7C0; 0x966; 0x9E6; 0xA66; 0xAE6; 0xB66; 0xBE6; 0xC66;
    0xCE6; 0xD66; 0xDE6; 0xE50; 0xED0; 0xF20; 0x1040; 0x1090; 0x17E0; 0x1810;
    0x1946; 0x19D0; 0x1A80; 0x1A90; 0x1B50; 0x1BB0; 0x1C40; 0x1C50; 0xA620;
    0xA8D0; 0xA900; 0xA9D0; 0xA9F0; 0xAA50; 0xABF0; 0xFF10; 0x104A0; 0x10D30;
    0x11066; 0x110F0; 0x11136; 0x111D0; 0x112F0; 0x11450; 0x114D0; 0x11650;
    0x116C0; 0x11730; 0x118E0; 0x11950; 0x11C50; 0x11D50; 0x11DA0; 0x16A60;
    0x16AC0; 0x16B50; 0x1D7CE; 0x1D7D8; 0x1D7E2; 0x1D7EC; 0x1D7F6; 0x1E140;
    0x1E2F0; 0x1E950; 0x1FBF0 ].

(** Characters with a digit value that are not decimal digits
    (superscripts, subscripts, circled and parenthesised digits, ...):
    runs [(first code point, length, value of the first)]. *)
Definition other_digits : list (Z * Z * Z) :=
  [ (0xB2, 2, 2); (0xB9, 1, 1); (0x1369, 9, 1); (0x19DA, 1, 1); (0x2070, 1, 0);
    (0x2074, 6, 4); (0x2080, 10, 0); (0x2460, 9, 1); (0x2474, 9, 1);
    (0x2488, 9, 1); (0x24EA, 1, 0); (0x24F5, 9, 1); (0x24FF, 1, 0);
    (0x2776, 9, 1); (0x2780, 9, 1); (0x278A, 9, 1); (0x10A40, 4, 1);
    (0x10E60, 9, 1); (0x11052, 9, 1); (0x1F100, 1, 0); (0x1F101, 10, 0) ].

(** The decimal value of a character, if it is a decimal digit. *)
Definition unicode_decimal (c : char) : option Z :=
  match List.find (fun z => (z <=? c) && (c <? z + 10)) decimal_zeros with
  | Some z => Some (c - z)
  | None => None
  end.

(** The digit value of a character, if it has one. *)
Definition unicode_digit (c : char) : option Z :=
  match unicode_decimal c with
  | Some d => Some d
  | None =>
    match List.find (fun r => (r.1.1 <=? c) && (c <? r.1.1 + r.1.2)) other_digits with
    | Some r => Some (r.2 + (c - r.1.1))
    | None => None
    end
  end.

(** [s.isdigit()]: at least one character, and every character has a
    digit value. *)
Definition isdigit (s : str) : bool :=
  match s with
  | [] => false
  | _ => forallb (fun c => bool_decide (is_Some (unicode_digit c))) s
  end.

(** [int(s)] on the strings the source passes to it: those for which
    [isdigit] holds (no sign, blank or underscore), of at most 255 bytes.
    Every character must be a decimal digit; otherwise [int] raises
    [ValueError], which is [None] here. *)
Definition int (s : str) : option Z :=
  match s with
  | [] => None
  | _ =>
    fold_left (fun acc c =>
                 match acc, unicode_decimal c with
                 | Some a, Some d => Some (10 * a + d)
                 | _, _ => None
                 end) s (Some 0)
  end.

(** *** Small pieces of [str] and [re] *)

(** Length of the longest prefix whose characters all satisfy [p]: what a
    greedy [x*] takes. *)
Fixpoint span_len (p : char -> bool) (s : str) : nat :=
  match s with
  | c :: s' => if p c then S (span_len p s') else O
  | [] => O
  end.

(** [s.strip()] *)
Definition lstrip (s : str) : str := drop (span_len isspace s) s.
Definition rstrip (s : str) : str := reverse (lstrip (reverse s)).
Definition strip (s : str) : str := rstrip (lstrip s).

(** [p in s] on strings *)
Fixpoint prefixb (p s : str) : bool :=
  match p, s with
  | [], _ => true
  | a :: p', b :: s' => (a =? b) && prefixb p' s'
  | _ :: _, [] => false
  end.

Fixpoint contains (s p : str) : bool :=
  prefixb p s || match s with
                 | [] => false
                 | _ :: s' => contains s' p
                 end.

(** One pattern character against one text character under
    [re.IGNORECASE]; [p] is a lower-case ASCII letter or a character
    without case.  The text character is lowered and compared; [i], [s]
    and [k] also match the dotted and dotless i, the long s and the
    Kelvin sign. *)
Definition ascii_lower_char (c : char) : char :=
  if in_range 65 90 c then c + 32 else c.

Definition ci_eq (p c : char) : bool :=
  (ascii_lower_char c =? p)
  || ((p =? 105) && ((c =? 0x130) || (c =? 0x131)))
  || ((p =? 115) && (c =? 0x17F))
  || ((p =? 107) && (c =? 0x212A)).

Fixpoint ci_prefix (w s : str) : bool :=
  match w, s with
  | [], _ => true
  | p :: w', c :: s' => ci_eq p c && ci_prefix w' s'
  | _ :: _, [] => false
  end.

(** [re.sub(pattern, '', s)] for a pattern without empty matches.
    [m s] is the length of the match of the pattern at the start of [s],
    if there is one.  The scan goes left to right; the characters of a
    match are dropped ([skip] counts those still to drop) and the search
    resumes after it. *)
Fixpoint sub_aux (m : str -> option nat) (skip : nat) (s : str) : str :=
  match s with
  | [] => []
  | c :: s' =>
    match skip with
    | S k => sub_aux m k s'
    | O =>
      match m s with
      | Some (S k) => sub_aux m k s'
      | _ => c :: sub_aux m O s'
      end
    end
  end.

Definition re_sub_delete (m : str -> option nat) (s : str) : str := sub_aux m O s.

(** The match of [\s*\([^)]*\)\s*] at the start of [s].  Each greedy
    star is followed by a character outside its class, so the longest run
    is the only one that can lead to a match. *)
Definition match_parens (s : str) : option nat :=
  let n1 := span_len isspace s in
  match drop n1 s with
  | c :: r =>
    if c =? 40 (* ( *) then
      let n2 := span_len (fun c => negb (c =? 41 (* ) *))) r in
      match drop n2 r with
      | _ :: r' => Some (n1 + 1 + n2 + 1 + span_len isspace r')%nat
      | [] => None
      end
    else None
  | [] => None
  end.

Definition modifiers : list str := [lit "live"; lit "acoustic"; lit "demo"; lit "remix"].

(** The match of [\s*-\s*(Live|Acoustic|Demo|Remix).*] with
    [re.IGNORECASE] at the start of [s]; [.] stops at a line feed. *)
Definition match_modifier (s : str) : option nat :=
  let n1 := span_len isspace s in
  match drop n1 s with
  | c :: r =>
    if c =? 45 (* - *) then
      let n2 := span_len isspace r in
      let r2 := drop n2 r in
      match List.find (fun w => ci_prefix w r2) modifiers with
      | Some w =>
        let n3 := span_len (fun c => negb (c =? 10 (* \n *))) (drop (length w) r2) in
        Some (n1 + 1 + n2 + length w + n3)%nat
      | None => None
      end
    else None
  | [] => None
  end.

Definition featuring_separators : list str := [lit "feat."; lit "ft."; lit "featuring"].

(** Does [\s+(?:feat\.|ft\.|featuring)\s+] with [re.IGNORECASE] match at
    the start of [s]? *)
Definition match_featuring (s : str) : bool :=
  let n1 := span_len isspace s in
  match n1 with
  | O => false
  | S _ =>
    let r := drop n1 s in
    existsb (fun w => ci_prefix w r
                      && match drop (length w) r with
                         | c :: _ => isspace c
                         | [] => false
                         end) featuring_separators
  end.

(** [re.split(pattern, s)[0]]: the text before the leftmost match, the
    whole of [s] if there is none. *)
Fixpoint re_split_first (m : str -> bool) (s : str) : str :=
  match s with
  | [] => []
  | c :: s' => if m s then [] else c :: re_split_first m s'
  end.

(** ** Search terms ([YouTubeSearcher.clean_search_terms], the same in
    both files) *)

Definition clean_search_terms (artist song : str) : str * str :=
  let clean_song := re_sub_delete match_parens song in
  let clean_song := re_sub_delete match_modifier clean_song in
  let clean_song := strip clean_song in
  let clean_artist := re_split_first match_featuring artist in
  let clean_artist := strip clean_artist in
  (clean_artist, clean_song).

(** ** State value of a State event

    [int(packet_data) if packet_data.isdigit() else ord(packet_data[0])
    if packet_data else 0], the first statement of
    [handle_state_change] in both files.  [None] stands for the
    [ValueError] that [int] raises. *)
Definition decode_state (packet_data : str) : option Z :=
  if isdigit packet_data then int packet_data
  else match packet_data with
       | c :: _ => Some c
       | [] => Some 0
       end.

(** ** Packets

    The header checks and the payload extraction with which
    [process_packet] starts in both files (the decoder of the protocol). *)

Definition RB3E_EVENTS_MAGIC : Z := 0x52423345.
Definition RB3E_EVENTS_PROTOCOL : Z := 0.
Definition RB3E_EVENT_ALIVE : Z := 0.
Definition RB3E_EVENT_STATE : Z := 1.
Definition RB3E_EVENT_SONG_NAME : Z := 2.
Definition RB3E_EVENT_SONG_ARTIST : Z := 3.

(** Why a datagram is dropped. *)
Inductive MalformedPacket :=
  | TooShort (len : nat)
  | WrongMagic (magic : Z)
  | WrongVersion (version : Z).

Record Packet := {
  packet_type : Z;
  packet_size : Z;
  platform : Z;
  packet_data : str
}.

Definition decode_packet (data : bytes) : MalformedPacket + Packet :=
  match data with
  | b0 :: b1 :: b2 :: b3 :: b4 :: b5 :: b6 :: b7 :: _ =>
    let magic := unpack_be32 b0 b1 b2 b3 in
    let version := u8 b4 in
    let packet_type := u8 b5 in
    let packet_size := u8 b6 in
    let platform := u8 b7 in
    if negb (magic =? RB3E_EVENTS_MAGIC) then inl (WrongMagic magic)
    else if negb (version =? RB3E_EVENTS_PROTOCOL) then inl (WrongVersion version)
    else
      let packet_data :=
        if 0 <? packet_size
        then utf8_decode Ignore (rstrip_nul (slice 8 (8 + Z.to_nat packet_size) data))
        else [] in
      inr {| packet_type := packet_type; packet_size := packet_size;
             platform := platform; packet_data := packet_data |}
  | _ => inl (TooShort (length data))
  end.

(** The kinds of event the dispatch of [process_packet] tells apart. *)
Inductive Event :=
  | Alive (build : str)
  | State (payload : str)
  | SongName (name : str)
  | SongArtist (artist : str)
  | Unknown (type : Z) (payload : str).

Definition event_of (p : Packet) : Event :=
  if packet_type p =? RB3E_EVENT_ALIVE then Alive (packet_data p)
  else if packet_type p =? RB3E_EVENT_STATE then State (packet_data p)
  else if packet_type p =? RB3E_EVENT_SONG_NAME then SongName (packet_data p)
  else if packet_type p =? RB3E_EVENT_SONG_ARTIST then SongArtist (packet_data p)
  else Unknown (packet_type p) (packet_data p).

(** ** Effects and the world outside *)

(** One search result: [item['id']['videoId']],
    [item['snippet']['title']], [item['snippet']['channelTitle']]. *)
Record Item := {
  videoId : str;
  title : str;
  channelTitle : str
}.

(** A pending video: [(stream_url, video_id, artist, song)]. *)
Definition Pending : Type := str * str * str * str.

(** Lines printed (console) or handed to the log callback (GUI). *)
Inductive Msg :=
  | MUsingCached (key : str)
  | MSearching (query : str)
  | MFound (title channel : str)
  | MUsingFirst (title : str)
  | MNoVideosFound (artist song : str)
  | MApiError
  | MSearchError
  | MVlcClosed
  | MVlcKilled
  | MVlcStopped
  | MVlcNotAvailable
  | MAlreadyPlayed (artist song : str)
  | MPlayingWithVlc (artist song : str)
  | MVlcExited
  | MTryingSimplified
  | MVlcStarted
  | MPlaying (artist song : str)
  | MErrorPlayingVideo
  | MConnected (build : str)
  | MSong (song : str)
  | MArtist (artist : str)
  | MPreparing (artist song : str)
  | MPlayingImmediately (artist song : str)
  | MErrorProcessingPacket
  | MSongStarting
  | MReturnedToMenus
  | MAutoClosing
  | MGettingStream
  | MVideoReady
  | MSongAlreadyPlaying
  | MNoStream (artist song : str)
  | MNoVideo (artist song : str)
  | MErrorPreparing
  | MWaiting (delay : Z)
  | MStartingEarly (delay : Z)
  | MStartingSynced (artist song : str)
  | MErrorPlayingSong.

(** Lines printed only under [DEBUG_MODE]. *)
Inductive DebugMsg :=
  | DTooShort | DPacketInfo | DWrongMagic | DWrongVersion | DValidPacket
  | DPacketData | DUnknownEvent | DGameState | DStateError | DVlcCommand.

(** A VLC process, identified by its command line. *)
Definition Proc : Type := list str.

Inductive Effect :=
  | Print (m : Msg)
  | DebugPrint (m : DebugMsg)
  | ApiSearch (query : str)        (* youtube.search().list(q=query, ...).execute() *)
  | GetStreamUrl (video_id : str)  (* stream_extractor.get_stream_url(video_id) *)
  | Popen (cmd : Proc)             (* subprocess.Popen(cmd, ...) *)
  | Terminate (p : Proc)           (* terminate() and wait(timeout=3) *)
  | Kill (p : Proc)
  | Sleep (ms : Z).                (* time.sleep, in milliseconds *)

Inductive ApiError := HttpError | OtherError.

Inductive TerminateResult :=
  | Exited      (* wait() returned *)
  | TimedOut    (* wait() raised TimeoutExpired *)
  | Failed.     (* anything else was raised *)

(** What the code asks of the Python runtime, of the YouTube client, of
    yt-dlp and of the operating system.  An answer depends on the
    question only, not on when it is asked.  Delays are in milliseconds. *)
Record World := {
  lower : str -> str;                               (* str.lower *)
  youtube_search : str -> ApiError + list Item;     (* the items of the response, or the exception raised *)
  get_stream_url : str -> option str;               (* StreamExtractor.get_stream_url, which catches every exception *)
  popen_fails : Proc -> bool;                       (* Popen raises *)
  exits_at_once : Proc -> bool;                     (* poll() is not None after the two seconds *)
  still_running : Proc -> bool;                     (* poll() is None in stop_current_video *)
  terminate_result : Proc -> TerminateResult;
  set_pop : gset str -> str                         (* the element set.pop() picks *)
}.

(** Truth value of an [Optional[str]]: [None] and [''] are false. *)
Definition truthy (o : option str) : bool :=
  match o with
  | Some (_ :: _) => true
  | _ => false
  end.

(** [s.pop()] on a set: some element of [s] is removed; which one is up
    to the runtime.  (On the empty set [pop] raises [KeyError]; the
    source pops only sets of more than ten elements.) *)
Definition pop (w : World) (s : gset str) : gset str :=
  if decide (set_pop w s ∈ s) then s ∖ {[ set_pop w s ]}
  else match elements s with
       | x :: _ => s ∖ {[ x ]}
       | [] => s
       end.

(** The tail of [play_video] in both files:
    [played_videos.add(video_id)], then one [pop()] if more than ten. *)
Definition remember (w : World) (played : gset str) (video_id : str) : gset str :=
  let played := played ∪ {[ video_id ]} in
  if (10 <? Z.of_nat (size played)) then pop w played else played.

(** *** The search of [YouTubeSearcher.search_video] *)

Record YouTubeSearcher := {
  youtube : bool;                (* the API client was built *)
  search_cache : gmap str str
}.

Definition set_search_cache (ys : YouTubeSearcher) (c : gmap str str) : YouTubeSearcher :=
  {| youtube := youtube ys; search_cache := c |}.

Definition search_key (w : World) (clean_artist clean_song : str) : str :=
  lower w clean_artist ++ lit " - " ++ lower w clean_song.

Definition search_queries (clean_artist clean_song : str) : list str :=
  [ clean_artist ++ lit " " ++ clean_song ++ lit " official music video";
    clean_artist ++ lit " " ++ clean_song ++ lit " music video";
    clean_artist ++ lit " " ++ clean_song ++ lit " official";
    clean_artist ++ lit " " ++ clean_song ].

(** The test of the inner loop: [(has_song_in_title and
    has_artist_in_title) or is_official]. *)
Definition is_official (w : World) (clean_artist : str) (item : Item) : bool :=
  let video_channel := lower w (channelTitle item) in
  existsb (fun term => contains video_channel term)
          [lit "official"; lit "records"; lit "music"; lower w clean_artist].

Definition good_match (w : World) (clean_artist clean_song : str) (item : Item) : bool :=
  let video_title := lower w (title item) in
  (contains video_title (lower w clean_song) && contains video_title (lower w clean_artist))
  || is_official w clean_artist item.

(** What one response contributes: the first item passing the test, else
    the first item, else nothing. *)
Definition pick (w : World) (clean_artist clean_song : str) (items : list Item)
  : option (Item * bool) :=
  match List.find (good_match w clean_artist clean_song) items with
  | Some item => Some (item, true)
  | None =>
    match items with
    | item :: _ => Some (item, false)
    | [] => None
    end
  end.

(** The [for query in search_queries] loop.  The result is the exception
    of the API call, or the item found (if any, with whether it passed the
    test); the effects are the calls made and, through [say], the lines
    the console version prints. *)
Fixpoint search_loop (w : World) (say : Msg -> list Effect)
    (clean_artist clean_song : str) (queries : list str)
  : (ApiError + option (Item * bool)) * list Effect :=
  match queries with
  | [] => (inr None, [])
  | query :: rest =>
    match youtube_search w query with
    | inl err => (inl err, say (MSearching query) ++ [ApiSearch query])
    | inr items =>
      match pick w clean_artist clean_song items with
      | Some found =>
        (inr (Some found),
         say (MSearching query) ++ [ApiSearch query]
         ++ say (if found.2 then MFound (title found.1) (channelTitle found.1)
                 else MUsingFirst (title found.1)))
      | None =>
        let '(r, e) := search_loop w say clean_artist clean_song rest in
        (r, say (MSearching query) ++ [ApiSearch query] ++ e)
      end
    end
  end.

(** ** The console player, [rb3_player_nogui.py] *)

Module NoGui.

(** The configuration constants at the top of the file. *)
Record Config := {
  DEBUG_MODE : bool;
  SYNC_VIDEO_TO_SONG : bool;
  VIDEO_START_DELAY : Z;
  PRELOAD_VIDEOS : bool;
  PREFERRED_QUALITY : str;
  AUTO_QUIT_ON_MENU : bool
}.

(** Their values in the source. *)
Definition source_config : Config :=
  {| DEBUG_MODE := false;
     SYNC_VIDEO_TO_SONG := true;
     VIDEO_START_DELAY := -5000;
     PRELOAD_VIDEOS := true;
     PREFERRED_QUALITY := lit "1080p";
     AUTO_QUIT_ON_MENU := true |}.

Definition debug (cfg : Config) (m : list DebugMsg) : list Effect :=
  if DEBUG_MODE cfg then List.map DebugPrint m else [].

Definition say (m : Msg) : list Effect := [Print m].

(** *** [YouTubeSearcher.search_video]

    Every exception of the search is caught inside and turned into
    [None]. *)
Definition search_video (w : World) (ys : YouTubeSearcher) (artist song : str)
  : option str * YouTubeSearcher * list Effect :=
  if negb (youtube ys) then (None, ys, [])
  else
    let '(clean_artist, clean_song) := clean_search_terms artist song in
    let key := search_key w clean_artist clean_song in
    match search_cache ys !! key with
    | Some video_id => (Some video_id, ys, [Print (MUsingCached key)])
    | None =>
      let '(r, e) := search_loop w say clean_artist clean_song
                       (search_queries clean_artist clean_song) in
      match r with
      | inr (Some found) =>
        (Some (videoId found.1),
         set_search_cache ys (<[ key := videoId found.1 ]> (search_cache ys)), e)
      | inr None => (None, ys, e ++ [Print (MNoVideosFound artist song)])
      | inl HttpError => (None, ys, e ++ [Print MApiError])
      | inl OtherError => (None, ys, e ++ [Print MSearchError])
      end
    end.

(** *** [VLCPlayer] *)

Record VLCPlayer := {
  vlc_path : option str;
  current_process : option Proc;
  played_videos : gset str
}.

Definition set_current_process (p : VLCPlayer) (c : option Proc) : VLCPlayer :=
  {| vlc_path := vlc_path p; current_process := c; played_videos := played_videos p |}.

Definition set_played_videos (p : VLCPlayer) (s : gset str) : VLCPlayer :=
  {| vlc_path := vlc_path p; current_process := current_process p; played_videos := s |}.

Definition stop_current_video (w : World) (p : VLCPlayer) : VLCPlayer * list Effect :=
  match current_process p with
  | Some proc =>
    if still_running w proc then
      match terminate_result w proc with
      | Exited => (set_current_process p None, [Terminate proc; Print MVlcClosed])
      | TimedOut => (set_current_process p None, [Terminate proc; Kill proc; Print MVlcKilled])
      | Failed => (set_current_process p None, [Terminate proc])
      end
    else (p, [])
  | None => (p, [])
  end.

Definition vlc_cmd (cfg : Config) (path video_url artist song : str) : Proc :=
  [ path; video_url; lit "--intf"; lit "dummy"; lit "--no-video-title-show";
    lit "--volume=0"; lit "--fullscreen"; lit "--video-on-top";
    lit "--meta-title=" ++ artist ++ lit " - " ++ song ]
  ++ (if bool_decide (PREFERRED_QUALITY cfg ∈ [lit "4K"; lit "1440p"; lit "1080p"])
      then [lit "--avcodec-hw=any"; lit "--network-caching=2000"] else []).

(** [play_video]: the played set is written at the end of a start that
    did not raise, and is never read. *)
Definition play_video (w : World) (cfg : Config) (p : VLCPlayer)
    (video_url video_id artist song : str) : VLCPlayer * list Effect :=
  if negb (truthy (vlc_path p)) then (p, [Print MVlcNotAvailable])
  else
    let path := default [] (vlc_path p) in
    let '(p, e_stop) := stop_current_video w p in
    let cmd := vlc_cmd cfg path video_url artist song in
    let e := e_stop ++ [Print (MPlayingWithVlc artist song)] ++ debug cfg [DVlcCommand; DVlcCommand] in
    if popen_fails w cmd then (p, e ++ [Popen cmd; Print MErrorPlayingVideo])
    else
      let p := set_current_process p (Some cmd) in
      let e := e ++ [Popen cmd; Sleep 2000] in
      if exits_at_once w cmd then
        let simple_cmd := [path; video_url] in
        let e := e ++ [Print MVlcExited; Print MTryingSimplified] in
        if popen_fails w simple_cmd then (p, e ++ [Popen simple_cmd; Print MErrorPlayingVideo])
        else
          let p := set_current_process p (Some simple_cmd) in
          (set_played_videos p (remember w (played_videos p) video_id), e ++ [Popen simple_cmd])
      else
        (set_played_videos p (remember w (played_videos p) video_id), e ++ [Print MVlcStarted]).

(** *** [RB3EventListener] *)

Record RB3EventListener := {
  youtube_searcher : YouTubeSearcher;
  vlc_player : VLCPlayer;
  current_song : str;
  current_artist : str;
  game_state : Z;                    (* 0 = menus, 1 = in game *)
  pending_video : option Pending
}.

Definition set_youtube_searcher (l : RB3EventListener) (ys : YouTubeSearcher) :=
  {| youtube_searcher := ys; vlc_player := vlc_player l; current_song := current_song l;
     current_artist := current_artist l; game_state := game_state l;
     pending_video := pending_video l |}.

Definition set_vlc_player (l : RB3EventListener) (p : VLCPlayer) :=
  {| youtube_searcher := youtube_searcher l; vlc_player := p; current_song := current_song l;
     current_artist := current_artist l; game_state := game_state l;
     pending_video := pending_video l |}.

Definition set_current_song (l : RB3EventListener) (s : str) :=
  {| youtube_searcher := youtube_searcher l; vlc_player := vlc_player l; current_song := s;
     current_artist := current_artist l; game_state := game_state l;
     pending_video := pending_video l |}.

Definition set_current_artist (l : RB3EventListener) (s : str) :=
  {| youtube_searcher := youtube_searcher l; vlc_player := vlc_player l;
     current_song := current_song l; current_artist := s; game_state := game_state l;
     pending_video := pending_video l |}.

Definition set_game_state (l : RB3EventListener) (g : Z) :=
  {| youtube_searcher := youtube_searcher l; vlc_player := vlc_player l;
     current_song := current_song l; current_artist := current_artist l; game_state := g;
     pending_video := pending_video l |}.

Definition set_pending_video (l : RB3EventListener) (v : option Pending) :=
  {| youtube_searcher := youtube_searcher l; vlc_player := vlc_player l;
     current_song := current_song l; current_artist := current_artist l;
     game_state := game_state l; pending_video := v |}.

(** The listener of [__init__]. *)
Definition new_listener (ys : YouTubeSearcher) (p : VLCPlayer) : RB3EventListener :=
  {| youtube_searcher := ys; vlc_player := p; current_song := []; current_artist := [];
     game_state := 0; pending_video := None |}.

Definition start_pending_video (w : World) (cfg : Config) (l : RB3EventListener)
  : RB3EventListener * list Effect :=
  match pending_video l with
  | None => (l, [])
  | Some (stream_url, video_id, artist, song) =>
    let e_delay :=
      if negb (VIDEO_START_DELAY cfg =? 0) then
        if 0 <? VIDEO_START_DELAY cfg
        then [Print (MWaiting (VIDEO_START_DELAY cfg)); Sleep (VIDEO_START_DELAY cfg)]
        else [Print (MStartingEarly (Z.abs (VIDEO_START_DELAY cfg)))]
      else [] in
    let '(p, e_play) := play_video w cfg (vlc_player l) stream_url video_id artist song in
    (set_pending_video (set_vlc_player l p) None,
     e_delay ++ [Print (MStartingSynced artist song)] ++ e_play)
  end.

Definition handle_state_change (w : World) (cfg : Config) (l : RB3EventListener)
    (packet_data : str) : RB3EventListener * list Effect :=
  match decode_state packet_data with
  | None => (l, debug cfg [DStateError])
  | Some new_state =>
    let '(l, e) :=
      if (game_state l =? 0) && (new_state =? 1) then
        if bool_decide (is_Some (pending_video l)) && SYNC_VIDEO_TO_SONG cfg then
          let '(l, e) := start_pending_video w cfg l in
          (l, [Print MSongStarting] ++ e)
        else (l, [Print MSongStarting])
      else if (game_state l =? 1) && (new_state =? 0) then
        let '(p, e) :=
          if AUTO_QUIT_ON_MENU cfg then
            let '(p, e) := stop_current_video w (vlc_player l) in
            (p, [Print MAutoClosing] ++ e)
          else (vlc_player l, []) in
        (set_pending_video (set_vlc_player l p) None, [Print MReturnedToMenus] ++ e)
      else (l, []) in
    (set_game_state l new_state, debug cfg [DGameState] ++ e)
  end.

Definition clear_slots (l : RB3EventListener) : RB3EventListener :=
  set_current_artist (set_current_song l []) [].

(** [prepare_video].  Nothing called in its [try] block raises
    ([search_video] and [get_stream_url] catch everything), so the two
    slots are always reset at the end. *)
Definition prepare_video (w : World) (cfg : Config) (l : RB3EventListener)
  : RB3EventListener * list Effect :=
  let '(video_id, ys, e_search) :=
    search_video w (youtube_searcher l) (current_artist l) (current_song l) in
  let l := set_youtube_searcher l ys in
  let '(l, e) :=
    if truthy video_id then
      let video_id := default [] video_id in
      let stream_url := get_stream_url w video_id in
      if truthy stream_url then
        let l := set_pending_video l
                   (Some (default [] stream_url, video_id, current_artist l, current_song l)) in
        if game_state l =? 1 then
          let '(l, e) := start_pending_video w cfg l in
          (l, [Print MGettingStream; GetStreamUrl video_id; Print MVideoReady;
               Print MSongAlreadyPlaying] ++ e)
        else (l, [Print MGettingStream; GetStreamUrl video_id; Print MVideoReady])
      else (l, [Print MGettingStream; GetStreamUrl video_id;
                Print (MNoStream (current_artist l) (current_song l))])
    else (l, [Print (MNoVideo (current_artist l) (current_song l))]) in
  (clear_slots l, e_search ++ e).

Definition play_current_song (w : World) (cfg : Config) (l : RB3EventListener)
  : RB3EventListener * list Effect :=
  let '(video_id, ys, e_search) :=
    search_video w (youtube_searcher l) (current_artist l) (current_song l) in
  let l := set_youtube_searcher l ys in
  let '(l, e) :=
    if truthy video_id then
      let video_id := default [] video_id in
      let stream_url := get_stream_url w video_id in
      if truthy stream_url then
        let '(p, e) := play_video w cfg (vlc_player l) (default [] stream_url) video_id
                         (current_artist l) (current_song l) in
        (set_vlc_player l p, [Print MGettingStream; GetStreamUrl video_id] ++ e)
      else (l, [Print MGettingStream; GetStreamUrl video_id;
                Print (MNoStream (current_artist l) (current_song l))])
    else (l, [Print (MNoVideo (current_artist l) (current_song l))]) in
  (clear_slots l, e_search ++ e).

(** The [if self.current_song and self.current_artist] at the end of
    [process_packet]. *)
Definition both_known (l : RB3EventListener) : bool :=
  negb (bool_decide (current_song l = [])) && negb (bool_decide (current_artist l = [])).

Definition trigger (w : World) (cfg : Config) (l : RB3EventListener)
  : RB3EventListener * list Effect :=
  if both_known l then
    if SYNC_VIDEO_TO_SONG cfg && PRELOAD_VIDEOS cfg then
      let '(l', e) := prepare_video w cfg l in
      (l', [Print (MPreparing (current_artist l) (current_song l))] ++ e)
    else
      let '(l', e) := play_current_song w cfg l in
      (l', [Print (MPlayingImmediately (current_artist l) (current_song l))] ++ e)
  else (l, []).

(** The dispatch on the packet type. *)
Definition handle_event (w : World) (cfg : Config) (l : RB3EventListener) (ev : Event)
  : RB3EventListener * list Effect :=
  match ev with
  | Alive build => (l, [Print (MConnected build)])
  | State payload => handle_state_change w cfg l payload
  | SongName name => (set_current_song l name, [Print (MSong name)])
  | SongArtist artist => (set_current_artist l artist, [Print (MArtist artist)])
  | Unknown type _ =>
    (l, if bool_decide (type ∈ [1; 5; 6]) then [] else debug cfg [DUnknownEvent])
  end.

Definition process_packet (w : World) (cfg : Config) (l : RB3EventListener) (data : bytes)
  : RB3EventListener * list Effect :=
  match decode_packet data with
  | inl (TooShort _) => (l, debug cfg [DTooShort])
  | inl (WrongMagic _) => (l, debug cfg [DPacketInfo; DWrongMagic])
  | inl (WrongVersion _) => (l, debug cfg [DPacketInfo; DWrongVersion])
  | inr p =>
    let e_dbg := debug cfg ([DPacketInfo; DValidPacket]
                            ++ if 0 <? packet_size p then [DPacketData] else []) in
    let '(l, e_ev) := handle_event w cfg l (event_of p) in
    let '(l, e_tr) := trigger w cfg l in
    (l, e_dbg ++ e_ev ++ e_tr)
  end.

(** The receive loop of [start_listening], one datagram after another. *)
Fixpoint run (w : World) (cfg : Config) (l : RB3EventListener) (datagrams : list bytes)
  : RB3EventListener * list Effect :=
  match datagrams with
  | [] => (l, [])
  | data :: rest =>
    let '(l, e) := process_packet w cfg l data in
    let '(l, e') := run w cfg l rest in
    (l, e ++ e')
  end.

End NoGui.

(** ** The GUI player, [rb3_gui_player.py] *)

Module Gui.

(** The settings [dict] the GUI hands to the listener.  Under the keys
    read here the GUI stores booleans and a number (the delay, here in
    milliseconds). *)
Inductive Value :=
  | VBool (b : bool)
  | VNum (n : Z).

(** Truth value of a setting, and its value as a number ([True] is [1],
    one second). *)
Definition truth (v : Value) : bool :=
  match v with
  | VBool b => b
  | VNum n => negb (n =? 0)
  end.

Definition number (v : Value) : Z :=
  match v with
  | VBool b => if b then 1000 else 0
  | VNum n => n
  end.

(** [settings.get(key, default)] *)
Definition get (settings : gmap string Value) (key : string) (dflt : Value) : Value :=
  default dflt (settings !! key).

(** [if self.gui_callback: self.gui_callback(m)] *)
Definition say (gui_callback : bool) (m : Msg) : list Effect :=
  if gui_callback then [Print m] else [].

(** *** [YouTubeSearcher.search_video]

    Any exception of the search is raised again ([inl]). *)
Definition search_video (w : World) (ys : YouTubeSearcher) (artist song : str)
  : (ApiError + option str) * YouTubeSearcher * list Effect :=
  if negb (youtube ys) then (inr None, ys, [])
  else
    let '(clean_artist, clean_song) := clean_search_terms artist song in
    let key := search_key w clean_artist clean_song in
    match search_cache ys !! key with
    | Some video_id => (inr (Some video_id), ys, [])
    | None =>
      let '(r, e) := search_loop w (fun _ => []) clean_artist clean_song
                       (search_queries clean_artist clean_song) in
      match r with
      | inr (Some found) =>
        (inr (Some (videoId found.1)),
         set_search_cache ys (<[ key := videoId found.1 ]> (search_cache ys)), e)
      | inr None => (inr None, ys, e)
      | inl err => (inl err, ys, e)
      end
    end.

(** *** [VLCPlayer] *)

Record VLCPlayer := {
  vlc_path : option str;
  current_process : option Proc;
  played_videos : gset str;
  player_callback : bool           (* [gui_callback] is not [None] *)
}.

Definition set_current_process (p : VLCPlayer) (c : option Proc) : VLCPlayer :=
  {| vlc_path := vlc_path p; current_process := c; played_videos := played_videos p;
     player_callback := player_callback p |}.

Definition set_played_videos (p : VLCPlayer) (s : gset str) : VLCPlayer :=
  {| vlc_path := vlc_path p; current_process := current_process p; played_videos := s;
     player_callback := player_callback p |}.

Definition stop_current_video (w : World) (p : VLCPlayer) : VLCPlayer * list Effect :=
  match current_process p with
  | Some proc =>
    if still_running w proc then
      match terminate_result w proc with
      | Exited => (set_current_process p None,
                   [Terminate proc] ++ say (player_callback p) MVlcStopped)
      | TimedOut => (set_current_process p None, [Terminate proc; Kill proc])
      | Failed => (set_current_process p None, [Terminate proc])
      end
    else (p, [])
  | None => (p, [])
  end.

Definition vlc_cmd (settings : gmap string Value) (path video_url artist song : str) : Proc :=
  [ path; video_url; lit "--intf"; lit "dummy"; lit "--no-video-title-show";
    lit "--meta-title=" ++ artist ++ lit " - " ++ song ]
  ++ (if truth (get settings "fullscreen" (VBool true)) then [lit "--fullscreen"] else [])
  ++ (if truth (get settings "muted" (VBool true)) then [lit "--volume=0"] else [])
  ++ (if truth (get settings "force_best_quality" (VBool true))
      then [lit "--avcodec-hw=any"; lit "--network-caching=3000"] else []).

(** [play_video]: a video whose id is in the played set is skipped. *)
Definition play_video (w : World) (p : VLCPlayer)
    (video_url video_id artist song : str) (settings : gmap string Value)
  : VLCPlayer * list Effect :=
  if negb (truthy (vlc_path p)) then (p, say (player_callback p) MVlcNotAvailable)
  else if bool_decide (video_id ∈ played_videos p)
  then (p, say (player_callback p) (MAlreadyPlayed artist song))
  else
    let path := default [] (vlc_path p) in
    let '(p, e) := stop_current_video w p in
    let cmd := vlc_cmd settings path video_url artist song in
    if popen_fails w cmd
    then (p, e ++ [Popen cmd] ++ say (player_callback p) MErrorPlayingVideo)
    else
      let p := set_current_process p (Some cmd) in
      let e := e ++ [Popen cmd; Sleep 2000] in
      if exits_at_once w cmd then
        let simple_cmd := [path; video_url] in
        if popen_fails w simple_cmd
        then (p, e ++ [Popen simple_cmd] ++ say (player_callback p) MErrorPlayingVideo)
        else
          let p := set_current_process p (Some simple_cmd) in
          (set_played_videos p (remember w (played_videos p) video_id),
           e ++ [Popen simple_cmd] ++ say (player_callback p) (MPlaying artist song))
      else
        (set_played_videos p (remember w (played_videos p) video_id),
         e ++ say (player_callback p) (MPlaying artist song)).

(** *** [RB3EventListener] *)

Record RB3EventListener := {
  youtube_searcher : YouTubeSearcher;
  vlc_player : VLCPlayer;
  gui_callback : bool;               (* [gui_callback] is not [None] *)
  current_song : str;
  current_artist : str;
  game_state : Z;
  pending_video : option Pending;
  settings : gmap string Value
}.

Definition set_youtube_searcher (l : RB3EventListener) (ys : YouTubeSearcher) :=
  {| youtube_searcher := ys; vlc_player := vlc_player l; gui_callback := gui_callback l;
     current_song := current_song l; current_artist := current_artist l;
     game_state := game_state l; pending_video := pending_video l; settings := settings l |}.

Definition set_vlc_player (l : RB3EventListener) (p : VLCPlayer) :=
  {| youtube_searcher := youtube_searcher l; vlc_player := p; gui_callback := gui_callback l;
     current_song := current_song l; current_artist := current_artist l;
     game_state := game_state l; pending_video := pending_video l; settings := settings l |}.

Definition set_current_song (l : RB3EventListener) (s : str) :=
  {| youtube_searcher := youtube_searcher l; vlc_player := vlc_player l;
     gui_callback := gui_callback l; current_song := s; current_artist := current_artist l;
     game_state := game_state l; pending_video := pending_video l; settings := settings l |}.

Definition set_current_artist (l : RB3EventListener) (s : str) :=
  {| youtube_searcher := youtube_searcher l; vlc_player := vlc_player l;
     gui_callback := gui_callback l; current_song := current_song l; current_artist := s;
     game_state := game_state l; pending_video := pending_video l; settings := settings l |}.

Definition set_game_state (l : RB3EventListener) (g : Z) :=
  {| youtube_searcher := youtube_searcher l; vlc_player := vlc_player l;
     gui_callback := gui_callback l; current_song := current_song l;
     current_artist := current_artist l; game_state := g;
     pending_video := pending_video l; settings := settings l |}.

Definition set_pending_video (l : RB3EventListener) (v : option Pending) :=
  {| youtube_searcher := youtube_searcher l; vlc_player := vlc_player l;
     gui_callback := gui_callback l; current_song := current_song l;
     current_artist := current_artist l; game_state := game_state l;
     pending_video := v; settings := settings l |}.

(** [update_settings] *)
Definition update_settings (l : RB3EventListener) (s : gmap string Value) :=
  {| youtube_searcher := youtube_searcher l; vlc_player := vlc_player l;
     gui_callback := gui_callback l; current_song := current_song l;
     current_artist := current_artist l; game_state := game_state l;
     pending_video := pending_video l; settings := s |}.

(** The listener of [__init__]. *)
Definition new_listener (ys : YouTubeSearcher) (p : VLCPlayer) (gui_callback : bool)
  : RB3EventListener :=
  {| youtube_searcher := ys; vlc_player := p; gui_callback := gui_callback;
     current_song := []; current_artist := []; game_state := 0; pending_video := None;
     settings := ∅ |}.

Definition start_pending_video (w : World) (l : RB3EventListener)
  : RB3EventListener * list Effect :=
  match pending_video l with
  | None => (l, [])
  | Some (stream_url, video_id, artist, song) =>
    let delay := number (get (settings l) "video_start_delay" (VNum 0)) in
    let e_delay :=
      if negb (delay =? 0) && (0 <? delay)
      then say (gui_callback l) (MWaiting delay) ++ [Sleep delay]
      else [] in
    let '(p, e_play) := play_video w (vlc_player l) stream_url video_id artist song (settings l) in
    (set_pending_video (set_vlc_player l p) None, e_delay ++ e_play)
  end.

Definition sync_video_to_song (l : RB3EventListener) : bool :=
  truth (get (settings l) "sync_video_to_song" (VBool true)).

Definition auto_quit_on_menu (l : RB3EventListener) : bool :=
  truth (get (settings l) "auto_quit_on_menu" (VBool true)).

Definition handle_state_change (w : World) (l : RB3EventListener) (packet_data : str)
  : RB3EventListener * list Effect :=
  match decode_state packet_data with
  | None => (l, [])
  | Some new_state =>
    let '(l, e) :=
      if (game_state l =? 0) && (new_state =? 1) then
        if bool_decide (is_Some (pending_video l)) && sync_video_to_song l then
          let '(l', e) := start_pending_video w l in
          (l', say (gui_callback l) MSongStarting ++ e)
        else (l, say (gui_callback l) MSongStarting)
      else if (game_state l =? 1) && (new_state =? 0) then
        let '(p, e) :=
          if auto_quit_on_menu l then stop_current_video w (vlc_player l)
          else (vlc_player l, []) in
        (set_pending_video (set_vlc_player l p) None, say (gui_callback l) MReturnedToMenus ++ e)
      else (l, []) in
    (set_game_state l new_state, e)
  end.

Definition clear_slots (l : RB3EventListener) : RB3EventListener :=
  set_current_artist (set_current_song l []) [].

(** [prepare_video].  When [search_video] raises, the [except] clause
    logs the error and the statements that reset the two slots are not
    reached. *)
Definition prepare_video (w : World) (l : RB3EventListener)
  : RB3EventListener * list Effect :=
  let '(r, ys, e_search) :=
    search_video w (youtube_searcher l) (current_artist l) (current_song l) in
  match r with
  | inl _ => (set_youtube_searcher l ys, e_search ++ say (gui_callback l) MErrorPreparing)
  | inr video_id =>
    let l := set_youtube_searcher l ys in
    let '(l, e) :=
      if truthy video_id then
        let video_id := default [] video_id in
        let stream_url := get_stream_url w video_id in
        if truthy stream_url then
          let l := set_pending_video l
                     (Some (default [] stream_url, video_id, current_artist l, current_song l)) in
          if game_state l =? 1 then
            let '(l', e) := start_pending_video w l in
            (l', say (gui_callback l) MGettingStream ++ [GetStreamUrl video_id]
                 ++ say (gui_callback l) MVideoReady ++ e)
          else (l, say (gui_callback l) MGettingStream ++ [GetStreamUrl video_id]
                   ++ say (gui_callback l) MVideoReady)
        else (l, say (gui_callback l) MGettingStream ++ [GetStreamUrl video_id]
                 ++ say (gui_callback l) (MNoStream (current_artist l) (current_song l)))
      else (l, say (gui_callback l) (MNoVideo (current_artist l) (current_song l))) in
    (clear_slots l, e_search ++ e)
  end.

Definition play_current_song (w : World) (l : RB3EventListener)
  : RB3EventListener * list Effect :=
  let '(r, ys, e_search) :=
    search_video w (youtube_searcher l) (current_artist l) (current_song l) in
  match r with
  | inl _ => (set_youtube_searcher l ys, e_search ++ say (gui_callback l) MErrorPlayingSong)
  | inr video_id =>
    let l := set_youtube_searcher l ys in
    let '(l, e) :=
      if truthy video_id then
        let video_id := default [] video_id in
        let stream_url := get_stream_url w video_id in
        if truthy stream_url then
          let '(p, e) := play_video w (vlc_player l) (default [] stream_url) video_id
                           (current_artist l) (current_song l) (settings l) in
          (set_vlc_player l p, [GetStreamUrl video_id] ++ e)
        else (l, [GetStreamUrl video_id])
      else (l, []) in
    (clear_slots l, e_search ++ e)
  end.

Definition both_known (l : RB3EventListener) : bool :=
  negb (bool_decide (current_song l = [])) && negb (bool_decide (current_artist l = [])).

Definition trigger (w : World) (l : RB3EventListener) : RB3EventListener * list Effect :=
  if both_known l then
    if sync_video_to_song l then prepare_video w l else play_current_song w l
  else (l, []).

Definition handle_event (w : World) (l : RB3EventListener) (ev : Event)
  : RB3EventListener * list Effect :=
  match ev with
  | Alive build => (l, say (gui_callback l) (MConnected build))
  | State payload => handle_state_change w l payload
  | SongName name => (set_current_song l name, say (gui_callback l) (MSong name))
  | SongArtist artist => (set_current_artist l artist, say (gui_callback l) (MArtist artist))
  | Unknown _ _ => (l, [])
  end.

Definition process_packet (w : World) (l : RB3EventListener) (data : bytes)
  : RB3EventListener * list Effect :=
  match decode_packet data with
  | inl _ => (l, [])
  | inr p =>
    let '(l, e_ev) := handle_event w l (event_of p) in
    let '(l, e_tr) := trigger w l in
    (l, e_ev ++ e_tr)
  end.

Fixpoint run (w : World) (l : RB3EventListener) (datagrams : list bytes)
  : RB3EventListener * list Effect :=
  match datagrams with
  | [] => (l, [])
  | data :: rest =>
    let '(l, e) := process_packet w l data in
    let '(l, e') := run w l rest in
    (l, e ++ e')
  end.

End Gui.

(** ** The stream extractor, [StreamExtractor] in both files *)

(** What [extract_info] of yt-dlp returns, as far as the source reads
    it: under ['url'] a string when the key is present, under ['formats']
    a list of formats when it is; a format is read with [fmt.get], which
    gives [None] for a missing key. *)
Record Format := {
  fmt_url : option str;
  fmt_vcodec : option str
}.

Record Info := {
  info_url : option str;              (* [None]: no key ['url'] *)
  info_formats : option (list Format) (* [None]: no key ['formats'] *)
}.

(** [fmt.get('url') and fmt.get('vcodec') != 'none'] *)
Definition usable (fmt : Format) : bool :=
  truthy (fmt_url fmt) && negb (bool_decide (fmt_vcodec fmt = Some (lit "none"))).

(** The choice at the end of [get_stream_url], the same in both files:
    [info['url']] when there is one, else the URL of the first usable
    format of [reversed(info['formats'])]. *)
Definition select_url (info : Info) : option str :=
  match info_url info with
  | Some url => Some url
  | None =>
    match info_formats info with
    | Some ((_ :: _) as formats) =>
      match List.find usable (rev formats) with
      | Some fmt => fmt_url fmt
      | None => None
      end
    | _ => None
    end
  end.

(** [f"https://www.youtube.com/watch?v={video_id}"] *)
Definition youtube_url (video_id : str) : str :=
  lit "https://www.youtube.com/watch?v=" ++ video_id.

Inductive ExtractMsg :=
  | XAvailableFormats       (* debug: the header of the list of formats *)
  | XFormatLine             (* debug: one line per listed format *)
  | XSelectedQuality
  | XUsingFormat            (* debug *)
  | XErrorExtracting
  | XVideoQuality.          (* debug, in [__init__] *)

Inductive ExtractEffect :=
  | ExtractInfo (format url : str)   (* YoutubeDL({'format': format, ...}).extract_info(url, download=False) *)
  | ExtractPrint (m : ExtractMsg).

(** ["/".join(formats)] *)
Fixpoint join (sep : str) (l : list str) : str :=
  match l with
  | [] => []
  | [x] => x
  | x :: rest => x ++ sep ++ join sep rest
  end.

Module NoGuiExtractor.

Definition quality_heights : gmap str str :=
  list_to_map [ (lit "4K", lit "2160"); (lit "1440p", lit "1440"); (lit "1080p", lit "1080");
                (lit "720p", lit "720"); (lit "480p", lit "480"); (lit "360p", lit "360") ].

(** [_build_format_string], with the two constants it reads,
    [PREFERRED_QUALITY] and [FORCE_BEST_QUALITY], as arguments. *)
Definition _build_format_string (preferred_quality : str) (force_best_quality : bool) : str :=
  let target_height := default (lit "1080") (quality_heights !! preferred_quality) in
  if force_best_quality then
    join (lit "/")
      [ lit "bestvideo[height<=" ++ target_height ++ lit "]+bestaudio/best[height<="
          ++ target_height ++ lit "]";
        lit "best[height<=" ++ target_height ++ lit "]";
        lit "bestvideo+bestaudio/best";
        lit "best" ]
  else lit "best[height<=" ++ target_height ++ lit "]/best".

Record StreamExtractor := {
  format_string : str
}.

(** [__init__] *)
Definition new_extractor (cfg : NoGui.Config) (force_best_quality : bool)
  : StreamExtractor * list ExtractEffect :=
  ({| format_string := _build_format_string (NoGui.PREFERRED_QUALITY cfg) force_best_quality |},
   if NoGui.DEBUG_MODE cfg then [ExtractPrint XVideoQuality] else []).

(** [get_stream_url].  [extract] stands for yt-dlp: [None] when it
    raises.  Nothing else in the [try] block raises. *)
Definition get_stream_url (extract : str -> str -> option Info) (cfg : NoGui.Config)
    (x : StreamExtractor) (video_id : str) : option str * list ExtractEffect :=
  let call := ExtractInfo (format_string x) (youtube_url video_id) in
  match extract (format_string x) (youtube_url video_id) with
  | None => (None, [call; ExtractPrint XErrorExtracting])
  | Some info =>
    let e_formats :=
      match info_formats info with
      | Some formats =>
        if NoGui.DEBUG_MODE cfg
        then ExtractPrint XAvailableFormats
             :: List.map (fun _ => ExtractPrint XFormatLine)
                  (drop (length formats - 5) formats)
        else []
      | None => []
      end in
    let e_using :=
      match info_url info, select_url info with
      | None, Some _ => if NoGui.DEBUG_MODE cfg then [ExtractPrint XUsingFormat] else []
      | _, _ => []
      end in
    (select_url info, [call] ++ e_formats ++ [ExtractPrint XSelectedQuality] ++ e_using)
  end.

End NoGuiExtractor.

Module GuiExtractor.

Record StreamExtractor := {
  gui_callback : bool
}.

Definition format_string : str := lit "bestvideo+bestaudio/best".

Definition get_stream_url (extract : str -> str -> option Info) (x : StreamExtractor)
    (video_id : str) : option str * list ExtractEffect :=
  let call := ExtractInfo format_string (youtube_url video_id) in
  match extract format_string (youtube_url video_id) with
  | None => (None, call :: if gui_callback x then [ExtractPrint XErrorExtracting] else [])
  | Some info => (select_url info, [call])
  end.

End GuiExtractor.

(** ** The receive loop, [start_listening] in both files *)

(** What one [recvfrom] of the loop ends in, while [running] is set. *)
Inductive Received :=
  | Datagram (data : bytes)
  | Timeout                  (* [socket.timeout], after five seconds *)
  | SocketError.             (* any other [socket.error] *)

Inductive ListenMsg :=
  | LListening
  | LDebugMode
  | LSyncEnabled
  | LStartPlaying
  | LReceived (n : nat)             (* debug: [len(data)] *)
  | LRawData (first : bytes)        (* debug: [data[:20]] *)
  | LStillListening (seconds : Z)   (* [no_data_count * 5] *)
  | LEnableEventsHint
  | LSocketError
  | LFailedToStart
  | LAdminHint.

Inductive ListenEffect :=
  | Inner (e : Effect)              (* an effect of [process_packet] *)
  | Line (m : ListenMsg).

Module NoGuiLoop.

(** The [while self.running] loop, from the value of [no_data_count]. *)
Fixpoint listen (w : World) (cfg : NoGui.Config) (l : NoGui.RB3EventListener)
    (no_data_count : Z) (received : list Received)
  : NoGui.RB3EventListener * list ListenEffect :=
  match received with
  | [] => (l, [])
  | Datagram data :: rest =>
    let e_dbg := if NoGui.DEBUG_MODE cfg
                 then [Line (LReceived (length data)); Line (LRawData (slice 0 20 data))]
                 else [] in
    let '(l, e) := NoGui.process_packet w cfg l data in
    let '(l, e') := listen w cfg l 0 rest in
    (l, e_dbg ++ List.map Inner e ++ e')
  | Timeout :: rest =>
    let no_data_count := no_data_count + 1 in
    let e := if no_data_count mod 6 =? 0
             then [Line (LStillListening (no_data_count * 5)); Line LEnableEventsHint]
             else [] in
    let '(l, e') := listen w cfg l no_data_count rest in
    (l, e ++ e')
  | SocketError :: rest =>
    let '(l, e') := listen w cfg l no_data_count rest in
    (l, Line LSocketError :: e')
  end.

(** [start_listening]; [socket_ok] is false when creating or binding
    the socket raises. *)
Definition start_listening (w : World) (cfg : NoGui.Config) (l : NoGui.RB3EventListener)
    (socket_ok : bool) (received : list Received)
  : NoGui.RB3EventListener * list ListenEffect :=
  if socket_ok then
    let '(l, e) := listen w cfg l 0 received in
    (l, [Line LListening]
        ++ (if NoGui.DEBUG_MODE cfg then [Line LDebugMode] else [])
        ++ (if NoGui.SYNC_VIDEO_TO_SONG cfg then [Line LSyncEnabled] else [])
        ++ [Line LStartPlaying] ++ e)
  else (l, [Line LFailedToStart; Line LAdminHint]).

End NoGuiLoop.

Module GuiLoop.

Definition say (gui_callback : bool) (m : ListenMsg) : list ListenEffect :=
  if gui_callback then [Line m] else [].

Fixpoint listen (w : World) (l : Gui.RB3EventListener)
    (no_data_count : Z) (received : list Received)
  : Gui.RB3EventListener * list ListenEffect :=
  match received with
  | [] => (l, [])
  | Datagram data :: rest =>
    let '(l, e) := Gui.process_packet w l data in
    let '(l, e') := listen w l 0 rest in
    (l, List.map Inner e ++ e')
  | Timeout :: rest =>
    let no_data_count := no_data_count + 1 in
    let e := if no_data_count mod 12 =? 0
             then say (Gui.gui_callback l) (LStillListening (no_data_count * 5))
             else [] in
    let '(l, e') := listen w l no_data_count rest in
    (l, e ++ e')
  | SocketError :: rest =>
    let e := say (Gui.gui_callback l) LSocketError in
    let '(l, e') := listen w l no_data_count rest in
    (l, e ++ e')
  end.

Definition start_listening (w : World) (l : Gui.RB3EventListener)
    (socket_ok : bool) (received : list Received)
  : Gui.RB3EventListener * list ListenEffect :=
  if socket_ok then
    let '(l', e) := listen w l 0 received in
    (l', say (Gui.gui_callback l) LListening ++ e)
  else (l, say (Gui.gui_callback l) LFailedToStart).

End GuiLoop.

(** ** Finding VLC, [VLCPlayer.find_vlc] and [VLCPlayer.__init__] in both files *)

(** The three installation paths that are tried; [expanduser] is
    [os.path.expanduser]. *)
Definition possible_paths (expanduser : str -> str) : list str :=
  [ lit "C:\Program Files\VideoLAN\VLC\vlc.exe";
    lit "C:\Program Files (x86)\VideoLAN\VLC\vlc.exe";
    expanduser (lit "~\AppData\Local\Programs\VLC\vlc.exe") ].

(** [find_vlc].  [vlc_runs] tells whether
    [subprocess.run(["vlc", "--version"], ...)] returned (it raises when
    there is no such program, or after three seconds); [isfile] is
    [os.path.isfile]. *)
Definition find_vlc (vlc_runs : bool) (expanduser : str -> str) (isfile : str -> bool)
  : option str :=
  if vlc_runs then Some (lit "vlc")
  else List.find isfile (possible_paths expanduser).

Inductive InitMsg :=
  | IFoundVlc (path : str)
  | IVlcNotFound.

(** [VLCPlayer.__init__] of the console version, which prints what it
    found, and of the GUI version. *)
Definition nogui_new_player (found : option str) : NoGui.VLCPlayer * list InitMsg :=
  ({| NoGui.vlc_path := found; NoGui.current_process := None; NoGui.played_videos := ∅ |},
   if truthy found then [IFoundVlc (default [] found)] else [IVlcNotFound]).

Definition gui_new_player (found : option str) (gui_callback : bool) : Gui.VLCPlayer :=
  {| Gui.vlc_path := found; Gui.current_process := None; Gui.played_videos := ∅;
     Gui.player_callback := gui_callback |}.

(** * Vocabulary of the properties *)

(** ** Datagrams *)

(** The unsigned integer a byte string stands for, most significant byte
    first. *)
Definition be_uint (bs : bytes) : Z :=
  fold_left (fun acc b => acc * 256 + u8 b) bs 0.

(** The three reasons for which a datagram is dropped, read off the
    datagram itself. *)
Definition malformed (data : bytes) : Prop :=
  (length data < 8)%nat
  \/ be_uint (take 4 data) <> 0x52423345
  \/ u8 <$> data !! 4%nat <> Some 0.

(** The payload of a well-formed datagram, in one expression for both
    branches of the test on the declared length. *)
Definition payload_of (data : bytes) (n : Z) : str :=
  utf8_decode Ignore (rstrip_nul (slice 8 (8 + Z.to_nat n) data)).

(** The payload text as the specification words it: invalid sequences
    replaced (by U+FFFD) rather than dropped. *)
Definition payload_replacing (data : bytes) (n : Z) : str :=
  utf8_decode Replace (rstrip_nul (slice 8 (8 + Z.to_nat n) data)).

(** [data] is a well-formed State datagram whose payload decodes to the
    state value [v]. *)
Definition state_datagram (data : bytes) (v : Z) : Prop :=
  exists p payload,
    decode_packet data = inr p /\ event_of p = State payload
    /\ decode_state payload = Some v.

(** ** State values *)

Definition is_ascii_digit (c : char) : bool := in_range 48 57 c.

(** The number a string of ASCII digits writes, most significant digit
    first. *)
Definition decimal_value (s : str) : Z :=
  fold_left (fun acc c => 10 * acc + (c - 48)) s 0.

(** ** Effects *)

(** The two lines that announce a transition. *)
Definition is_transition (e : Effect) : bool :=
  match e with
  | Print MSongStarting | Print MReturnedToMenus => true
  | _ => false
  end.

Definition transitions (es : list Effect) : list Effect := List.filter is_transition es.

(** No transition is announced. *)
Definition quiet (es : list Effect) : Prop := transitions es = [].

(** Starting VLC. *)
Definition is_popen (e : Effect) : bool :=
  match e with
  | Popen _ => true
  | _ => false
  end.

(** The queries sent to the search API, in order. *)
Definition searched (es : list Effect) : list str :=
  flat_map (fun e => match e with
                     | ApiSearch q => [q]
                     | _ => []
                     end) es.

(** Any sequence of requests [(url, id, artist, song)] to a player. *)
Definition nogui_plays (w : World) (cfg : NoGui.Config) (p : NoGui.VLCPlayer)
    (requests : list Pending) : NoGui.VLCPlayer :=
  fold_left (fun p '(url, id, a, s) => (NoGui.play_video w cfg p url id a s).1) requests p.

Definition gui_plays (w : World) (st : gmap string Gui.Value) (p : Gui.VLCPlayer)
    (requests : list Pending) : Gui.VLCPlayer :=
  fold_left (fun p '(url, id, a, s) => (Gui.play_video w p url id a s st).1) requests p.

(** ** Search terms and candidates *)

(** The last character of [t], if any, is not white space. *)
Definition no_space_at_end (t : str) : Prop :=
  forall c, last t = Some c -> isspace c = false.

(** The first character of [t], if any, is not white space. *)
Definition no_space_at_start (t : str) : Prop :=
  forall c, head t = Some c -> isspace c = false.

(** [m] starts, whatever the case of its letters, with one of the four
    modifier words. *)
Definition starts_with_modifier (m : str) : Prop :=
  exists w, In w modifiers /\ ci_prefix w m = true.

(** [sep] is one of the three separators, whatever the case of its
    letters. *)
Definition featuring_separator (sep : str) : Prop :=
  exists w, In w featuring_separators /\ ci_prefix w sep = true /\ length sep = length w.

(** [s] starts with a featuring separator as the pattern wants it: white
    space, one of the three words in any case, white space. *)
Definition featuring_match (s : str) : Prop :=
  exists sp sep x rest,
    s = sp ++ sep ++ x :: rest
    /\ sp <> [] /\ Forall (fun c => isspace c = true) sp
    /\ featuring_separator sep /\ isspace x = true.

(** In [a] no white space is directly followed by an [f] or [F]: no
    featuring separator can start inside [a]. *)
Definition no_space_then_f (a : str) : Prop :=
  forall pre x y post, a = pre ++ x :: y :: post -> isspace x = true -> ci_eq 102 y = false.

(** [p] occurs in [s]. *)
Definition occurs_in (p s : str) : Prop := exists pre post, s = pre ++ p ++ post.

(** The artist as the specification words it: cut at the first
    occurrence of "feat.", "ft." or "featuring", in any letter case,
    wherever it stands, and stripped. *)
Definition separator_here (s : str) : bool :=
  existsb (fun w => ci_prefix w s) featuring_separators.

Definition artist_as_stated (artist : str) : str :=
  strip (re_split_first separator_here artist).

(** The test on a candidate as the specification words it, on the texts
    as they are: the title contains the normalized song and the
    normalized artist, or the channel contains "official", "records",
    "music" or the normalized artist. *)
Definition good_match_as_stated (ca cs : str) (item : Item) : bool :=
  (contains (title item) cs && contains (title item) ca)
  || existsb (fun term => contains (channelTitle item) term)
       [lit "official"; lit "records"; lit "music"; ca].

Definition pick_as_stated (ca cs : str) (items : list Item) : option Item :=
  match List.find (good_match_as_stated ca cs) items with
  | Some item => Some item
  | None => head items
  end.

(** ** Sample inputs *)

(** Lower-casing of the ASCII letters; [str.lower] on ASCII text. *)
Definition ascii_lower (s : str) : str := List.map ascii_lower_char s.

Definition sample_items : list Item :=
  [ {| videoId := lit "vid1"; title := lit "Unrelated clip"; channelTitle := lit "someone" |};
    {| videoId := lit "vid2"; title := lit "FOO - SONG (live)"; channelTitle := lit "fan" |} ].

(** A world in which the search answers every query with the same two
    videos, every stream resolves, and VLC starts and stops as asked. *)
Definition sample_world : World :=
  {| lower := ascii_lower;
     youtube_search := fun _ => inr sample_items;
     get_stream_url := fun video_id => Some (lit "https://stream/" ++ video_id);
     popen_fails := fun _ => false;
     exits_at_once := fun _ => false;
     still_running := fun _ => true;
     terminate_result := fun _ => Exited;
     set_pop := fun s => default [] (head (elements s)) |}.

(** The same world, except that the YouTube API answers every query with
    an HTTP error (quota exceeded, say). *)
Definition failing_search_world : World :=
  {| lower := ascii_lower;
     youtube_search := fun _ => inl HttpError;
     get_stream_url := get_stream_url sample_world;
     popen_fails := popen_fails sample_world;
     exits_at_once := exits_at_once sample_world;
     still_running := still_running sample_world;
     terminate_result := terminate_result sample_world;
     set_pop := set_pop sample_world |}.

(** A datagram with a good header. *)
Definition datagram (type size : byte) (payload : bytes) : bytes :=
  [x52; x42; x33; x45; x00; type; size; x00] ++ payload.

(** Song name, declared length 5, [b"Hello\0\0\0"]. *)
Definition hello_datagram : bytes :=
  datagram x02 x05 [x48; x65; x6c; x6c; x6f; x00; x00; x00].

(** A State datagram whose payload is the two bytes of SUPERSCRIPT TWO
    (U+00B2) in UTF-8. *)
Definition superscript_two_datagram : bytes := datagram x01 x02 [xc2; xb2].

(** State datagrams with the payloads "1" and "0". *)
Definition state_1_datagram : bytes := datagram x01 x01 [x31].

Definition state_0_datagram : bytes := datagram x01 x01 [x30].

(** SongName("Song") and an Alive packet without build text. *)
Definition song_datagram : bytes := datagram x02 x04 [x53; x6f; x6e; x67].

Definition alive_datagram : bytes := datagram x00 x00 [].

Definition sample_searcher : YouTubeSearcher := {| youtube := true; search_cache := ∅ |}.

Definition sample_player : NoGui.VLCPlayer :=
  {| NoGui.vlc_path := Some (lit "vlc"); NoGui.current_process := None;
     NoGui.played_videos := ∅ |}.

Definition gui_player : Gui.VLCPlayer :=
  {| Gui.vlc_path := Some (lit "vlc"); Gui.current_process := None;
     Gui.played_videos := ∅; Gui.player_callback := true |}.

(** The GUI listener after SongArtist("Queen"). *)
Definition gui_listener_queen : Gui.RB3EventListener :=
  Gui.set_current_artist (Gui.new_listener sample_searcher gui_player true) (lit "Queen").

(** ** More vocabulary: the search cache *)

(** The cache key of a pair: [search_key] of its normalized terms. *)
Definition key_of (w : World) (artist song : str) : str :=
  search_key w (clean_search_terms artist song).1 (clean_search_terms artist song).2.

(** ** More vocabulary: calls to the outside *)

(** The video ids handed to the stream extractor, and the commands
    handed to [subprocess.Popen], in order. *)
Definition resolved (es : list Effect) : list str :=
  flat_map (fun e => match e with
                     | GetStreamUrl id => [id]
                     | _ => []
                     end) es.

Definition started (es : list Effect) : list Proc :=
  flat_map (fun e => match e with
                     | Popen cmd => [cmd]
                     | _ => []
                     end) es.

(** At most [a] searches, [b] stream resolutions and [c] process
    starts. *)
Definition within (a b c : nat) (es : list Effect) : Prop :=
  (length (searched es) <= a)%nat
  /\ (length (resolved es) <= b)%nat
  /\ (length (started es) <= c)%nat.

(** What the console's [search_video] returns for a result of the
    GUI's: an error it would have caught becomes [None]. *)
Definition caught (r : ApiError + option str) : option str :=
  match r with
  | inl _ => None
  | inr r => r
  end.

(** ** More vocabulary: text and state values *)

(** A Unicode scalar value: a code point that is not a surrogate. *)
Definition is_scalar (c : char) : bool :=
  ((0 <=? c) && (c <? 0xD800)) || ((0xDFFF <? c) && (c <=? 0x10FFFF)).

(** The state value of a State packet whose payload is the one byte
    [b]: the digit it writes, else its code as an ASCII character; a
    byte that is no text on its own (0x80 and above) leaves none. *)
Definition state_of_byte (b : byte) : Z :=
  if is_ascii_digit (u8 b) then u8 b - 48
  else if u8 b <? 0x80 then u8 b
  else 0.

(** ** More vocabulary: the extractor and the receive loop *)

(** [r] is the choice among the entries of [info] that the source
    makes: the value under ['url'] if there is one; else the URL of the
    last usable format of the list; else nothing. *)
Definition chosen (info : Info) (r : option str) : Prop :=
  match info_url info with
  | Some url => r = Some url
  | None =>
    (exists pre fmt post,
        info_formats info = Some (pre ++ fmt :: post)
        /\ usable fmt = true /\ Forall (fun f => usable f = false) post
        /\ r = fmt_url fmt /\ truthy r = true)
    \/ (r = None
        /\ forall formats, info_formats info = Some formats ->
             Forall (fun f => usable f = false) formats)
  end.

(** The calls to yt-dlp among the effects. *)
Definition extractions (es : list ExtractEffect) : list (str * str) :=
  flat_map (fun e => match e with
                     | ExtractInfo format url => [(format, url)]
                     | _ => []
                     end) es.

(** The datagrams among the outcomes of [recvfrom]. *)
Definition datagrams (received : list Received) : list bytes :=
  flat_map (fun r => match r with
                     | Datagram data => [data]
                     | _ => []
                     end) received.

(** The effects of [process_packet] among those of the loop. *)
Definition inner (es : list ListenEffect) : list Effect :=
  flat_map (fun e => match e with
                     | Inner e => [e]
                     | _ => []
                     end) es.

(** The seconds shown by the "still listening" lines. *)
Definition still_listening (es : list ListenEffect) : list Z :=
  flat_map (fun e => match e with
                     | Line (LStillListening seconds) => [seconds]
                     | _ => []
                     end) es.

(** [period], [2 period], ..., [n period]. *)
Definition multiples (period : Z) (n : nat) : list Z :=
  List.map (fun i => period * Z.of_nat i) (seq 1 n).

(** ** More vocabulary: the settings of the GUI *)

(** What the listener and the player read of a settings [dict]: the six
    [settings.get(key, default)] of the source, as truth values and a
    number. *)
Definition reads (s : gmap string Gui.Value) : bool * bool * Z * bool * bool * bool :=
  (Gui.truth (Gui.get s "sync_video_to_song" (Gui.VBool true)),
   Gui.truth (Gui.get s "auto_quit_on_menu" (Gui.VBool true)),
   Gui.number (Gui.get s "video_start_delay" (Gui.VNum 0)),
   Gui.truth (Gui.get s "fullscreen" (Gui.VBool true)),
   Gui.truth (Gui.get s "muted" (Gui.VBool true)),
   Gui.truth (Gui.get s "force_best_quality" (Gui.VBool true))).

(** The entries with a truth value or a number of the [dict] that
    [load_settings] returns when there is no settings file. *)
Definition default_settings : gmap string Gui.Value :=
  list_to_map [ ("fullscreen", Gui.VBool true); ("muted", Gui.VBool true);
                ("force_best_quality", Gui.VBool true);
                ("sync_video_to_song", Gui.VBool true);
                ("auto_quit_on_menu", Gui.VBool true);
                ("video_start_delay", Gui.VNum 0) ].

(** ** More vocabulary: the played set of a listener *)

Definition nogui_played (l : NoGui.RB3EventListener) : gset str :=
  NoGui.played_videos (NoGui.vlc_player l).

Definition gui_played (l : Gui.RB3EventListener) : gset str :=
  Gui.played_videos (Gui.vlc_player l).

(** A file system in which VLC is installed under "Program Files
    (x86)" only. *)
Definition sample_isfile (p : str) : bool :=
  bool_decide (p = lit "C:\Program Files (x86)\VideoLAN\VLC\vlc.exe").

(** ** More vocabulary: the state machine *)

(** The processes asked to stop ([terminate()]), in order. *)
Definition terminated (es : list Effect) : list Proc :=
  flat_map (fun e => match e with
                     | Terminate proc => [proc]
                     | _ => []
                     end) es.

(** The [--meta-title] option VLC is given for a video. *)
Definition meta_title (artist song : str) : str :=
  lit "--meta-title=" ++ artist ++ lit " - " ++ song.

(** The console listener in the menus with a video pending, and the GUI
    listener likewise. *)
Definition pending_vid1 : Pending :=
  (lit "https://stream/vid1", lit "vid1", lit "Foo", lit "Song").

Definition nogui_listener_pending : NoGui.RB3EventListener :=
  NoGui.set_pending_video (NoGui.new_listener sample_searcher sample_player)
    (Some pending_vid1).

Definition gui_listener_pending : Gui.RB3EventListener :=
  Gui.set_pending_video (Gui.new_listener sample_searcher gui_player true)
    (Some pending_vid1).

(** The console listener in a song, with a video pending and VLC
    running. *)
Definition nogui_listener_in_song : NoGui.RB3EventListener :=
  NoGui.set_game_state
    (NoGui.set_vlc_player nogui_listener_pending
       (NoGui.set_current_process sample_player (Some [lit "vlc"; lit "https://stream/vid0"])))
    1.

(** ** More vocabulary: what the title patterns match *)

(** [s] starts with a parenthesised group as the first pattern wants
    it: white space, "(", a text without ")", ")". *)
Definition parens_match (s : str) : Prop :=
  exists sp inner rest,
    s = sp ++ 40 :: inner ++ 41 :: rest
    /\ Forall (fun c => isspace c = true) sp
    /\ Forall (fun c => c <> 41) inner.

(** [s] starts with a modifier as the second pattern wants it: white
    space, "-", white space, one of the four words in any case. *)
Definition modifier_match (s : str) : Prop :=
  exists sp sp' m,
    s = sp ++ 45 :: sp' ++ m
    /\ Forall (fun c => isspace c = true) sp
    /\ Forall (fun c => isspace c = true) sp'
    /\ starts_with_modifier m.

(** The texts that start at each position of [s], the empty one
    included. *)
Fixpoint tails (s : str) : list str :=
  s :: match s with
       | [] => []
       | _ :: s' => tails s'
       end.

(** * Properties *)

(** ** Models of the built-ins on examples *)

Example clean_search_terms_ex1 :
  clean_search_terms (lit "Foo feat. Bar") (lit "Song (Remastered)") = (lit "Foo", lit "Song").
Proof. vm_compute. reflexivity. Qed.

Example utf8_ex1 :
  utf8_decode Ignore [x41; xc3; xa9; xff; xe2; x82; xac; xf0; x9f; x8e; xb8; xc3]
  = [0x41; 0xE9; 0x20AC; 0x1F3B8].
Proof. vm_compute. reflexivity. Qed.

(** ** Bytes and the header *)

Lemma u8_range (b : byte) : 0 <= u8 b < 256.
Proof.
  unfold u8. pose proof (Byte.to_N_bounded b). lia.
Qed.

(** A field put above [k] free low bits with [lor] is a sum. *)
Lemma lor_shiftl_low (hi lo k : Z) :
  0 <= k -> 0 <= lo < 2 ^ k -> Z.lor (Z.shiftl hi k) lo = hi * 2 ^ k + lo.
Proof.
  intros Hk Hlo.
  assert (Hland : Z.land (Z.shiftl hi k) lo = 0).
  { apply Z.bits_inj'. intros n Hn. rewrite Z.land_spec, Z.bits_0.
    destruct (Z_lt_le_dec n k) as [Hlt | Hge].
    - rewrite Z.shiftl_spec_low by lia. reflexivity.
    - destruct (Z.eq_dec lo 0) as [-> | Hne].
      + rewrite Z.bits_0. apply andb_false_r.
      + assert (Z.log2 lo < k) by (apply Z.log2_lt_pow2; lia).
        rewrite (Z.bits_above_log2 lo n) by lia. apply andb_false_r. }
  rewrite <- Z.lxor_lor by exact Hland.
  rewrite <- Z.add_nocarry_lxor by exact Hland.
  rewrite Z.shiftl_mul_pow2 by lia. reflexivity.
Qed.

Lemma unpack_be32_be_uint (b0 b1 b2 b3 : byte) :
  unpack_be32 b0 b1 b2 b3 = be_uint [b0; b1; b2; b3].
Proof.
  unfold unpack_be32, be_uint. simpl.
  pose proof (u8_range b0). pose proof (u8_range b1).
  pose proof (u8_range b2). pose proof (u8_range b3).
  rewrite (lor_shiftl_low (u8 b2) (u8 b3) 8) by lia.
  rewrite (lor_shiftl_low (u8 b1) _ 16) by lia.
  rewrite (lor_shiftl_low (u8 b0) _ 24) by lia.
  lia.
Qed.

Lemma short_or_header (data : bytes) :
  (length data < 8)%nat
  \/ exists b0 b1 b2 b3 b4 b5 b6 b7 rest,
       data = b0 :: b1 :: b2 :: b3 :: b4 :: b5 :: b6 :: b7 :: rest.
Proof.
  do 8 (destruct data as [| ? data]; [left; simpl; lia |]).
  right. repeat eexists.
Qed.

Lemma decode_packet_short (data : bytes) :
  (length data < 8)%nat -> decode_packet data = inl (TooShort (length data)).
Proof.
  intros Hlen.
  do 8 (destruct data as [| ? data]; [reflexivity |]).
  simpl in Hlen. lia.
Qed.

Lemma decode_packet_header (b0 b1 b2 b3 b4 b5 b6 b7 : byte) (rest : bytes) :
  let data := b0 :: b1 :: b2 :: b3 :: b4 :: b5 :: b6 :: b7 :: rest in
  decode_packet data =
    if negb (be_uint [b0; b1; b2; b3] =? 0x52423345)
    then inl (WrongMagic (be_uint [b0; b1; b2; b3]))
    else if negb (u8 b4 =? 0) then inl (WrongVersion (u8 b4))
    else inr {| packet_type := u8 b5; packet_size := u8 b6; platform := u8 b7;
                packet_data := payload_of data (u8 b6) |}.
Proof.
  intros data. unfold data, decode_packet.
  rewrite unpack_be32_be_uint. unfold RB3E_EVENTS_MAGIC, RB3E_EVENTS_PROTOCOL.
  destruct (negb (be_uint [b0; b1; b2; b3] =? 0x52423345)); [reflexivity |].
  destruct (negb (u8 b4 =? 0)); [reflexivity |].
  f_equal. f_equal. unfold payload_of.
  destruct (0 <? u8 b6) eqn:Hn; [reflexivity |].
  pose proof (u8_range b6). apply Z.ltb_ge in Hn.
  replace (u8 b6) with 0 by lia. reflexivity.
Qed.

Lemma decode_packet_malformed (data : bytes) :
  malformed data <-> exists why, decode_packet data = inl why.
Proof.
  destruct (short_or_header data) as [Hshort | (b0 & b1 & b2 & b3 & b4 & b5 & b6 & b7 & rest & ->)].
  - split; [| intros _; left; exact Hshort].
    intros _. eexists. apply decode_packet_short, Hshort.
  - rewrite decode_packet_header. unfold malformed. simpl length. simpl take. simpl lookup.
    destruct (be_uint [b0; b1; b2; b3] =? 0x52423345) eqn:Hm; simpl negb; cbv iota.
    + apply Z.eqb_eq in Hm.
      destruct (u8 b4 =? 0) eqn:Hv; simpl negb; cbv iota.
      * apply Z.eqb_eq in Hv. split.
        -- intros [H | [H | H]]; [lia | contradiction |].
           exfalso. apply H. simpl. congruence.
        -- intros [why Hwhy]. discriminate.
      * apply Z.eqb_neq in Hv. split; [intros _; eexists; reflexivity |].
        intros _. right. right. simpl. congruence.
    + apply Z.eqb_neq in Hm. split; [intros _; eexists; reflexivity |].
      intros _. right. left. exact Hm.
Qed.

(** A dropped datagram changes nothing: the listener is returned as it
    was, and nothing is printed except, in the console version, lines
    under [DEBUG_MODE]. *)
Lemma process_packet_dropped (data : bytes) (why : MalformedPacket) :
  decode_packet data = inl why ->
  (forall w cfg l, exists dbg,
      NoGui.process_packet w cfg l data = (l, List.map DebugPrint dbg)
      /\ (NoGui.DEBUG_MODE cfg = false -> dbg = []))
  /\ (forall w l, Gui.process_packet w l data = (l, [])).
Proof.
  intros Hd. split.
  - intros w cfg l. unfold NoGui.process_packet, NoGui.debug. rewrite Hd.
    destruct (NoGui.DEBUG_MODE cfg).
    + destruct why; eexists; (split; [reflexivity | discriminate]).
    + exists []. destruct why; split; reflexivity.
  - intros w l. unfold Gui.process_packet. rewrite Hd. reflexivity.
Qed.

(** *** [rstrip] of NUL bytes *)

Lemma rstrip_nul_app_nuls (data : bytes) :
  exists k, data = rstrip_nul data ++ replicate k x00.
Proof.
  induction data as [| b data [k IH]]; [exists O; reflexivity |].
  unfold rstrip_nul in *. simpl fold_right.
  set (r := fold_right _ [] data) in *.
  destruct (is_nul b && bool_decide (r = [])) eqn:Hb.
  - apply andb_true_iff in Hb as [Hnul Hr]. apply bool_decide_eq_true in Hr.
    exists (S k). rewrite IH, Hr. simpl. f_equal.
    unfold is_nul, u8 in Hnul. apply Z.eqb_eq in Hnul.
    assert (Byte.to_N b = 0%N) as Hb0 by lia.
    pose proof (Byte.of_to_N b) as Hof. rewrite Hb0 in Hof. simpl in Hof. congruence.
  - exists k. simpl. f_equal. exact IH.
Qed.

Lemma rstrip_nul_last (data : bytes) : last (rstrip_nul data) <> Some x00.
Proof.
  induction data as [| b data IH]; [discriminate |].
  unfold rstrip_nul in *. simpl fold_right.
  set (r := fold_right _ [] data) in *.
  destruct (is_nul b && bool_decide (r = [])) eqn:Hb; [discriminate |].
  destruct r as [| c r'] eqn:Hr.
  - rewrite bool_decide_eq_true_2 in Hb by reflexivity. rewrite andb_true_r in Hb.
    simpl. intros [= ->]. discriminate.
  - rewrite last_cons. destruct (last (c :: r')) eqn:Hl; [exact IH |].
    rewrite last_cons in Hl. destruct (last r'); discriminate.
Qed.

(** *** UTF-8 on ASCII *)

Lemma utf8_decode_ascii (e : errors) (s : bytes) :
  Forall (fun b => u8 b < 0x80) s -> utf8_decode e s = List.map u8 s.
Proof.
  induction 1 as [| b s Hb _ IH]; [reflexivity |].
  simpl. destruct (u8 b <? 128) eqn:Hlt; [| apply Z.ltb_ge in Hlt; lia].
  f_equal. exact IH.
Qed.

(** ** The decoder *)

(** C4. A datagram is dropped as malformed exactly when it is shorter
    than 8 bytes, or its first four bytes, read big-endian, are not
    0x52423345, or its version byte is not 0.  Dropping it yields no
    event and leaves the listener as it was, with nothing printed (the
    console version prints lines under DEBUG_MODE only) and nothing
    raised; every datagram shorter than 8 bytes is dropped. *)
Theorem malformed_packet_dropped (data : bytes) :
  (malformed data <-> exists why, decode_packet data = inl why)
  /\ (malformed data ->
      (forall w cfg l, exists dbg,
          NoGui.process_packet w cfg l data = (l, List.map DebugPrint dbg)
          /\ (NoGui.DEBUG_MODE cfg = false -> dbg = []))
      /\ (forall w l, Gui.process_packet w l data = (l, [])))
  /\ ((length data < 8)%nat -> decode_packet data = inl (TooShort (length data))).
Proof.
  split; [apply decode_packet_malformed |].
  split; [| apply decode_packet_short].
  intros [why Hwhy]%decode_packet_malformed.
  exact (process_packet_dropped data why Hwhy).
Qed.

(** C5, as stated, fails: for a song-name packet whose one payload byte
    is 0xFF the decoded text is empty, where replacing the invalid byte
    gives the one character U+FFFD. *)
Lemma payload_not_replaced :
  decode_packet (datagram x02 x01 [xff])
  = inr {| packet_type := 2; packet_size := 1; platform := 0; packet_data := [] |}
  /\ payload_replacing (datagram x02 x01 [xff]) 1 = [0xFFFD].
Proof. split; vm_compute; reflexivity. Qed.

(** C5, amended. For every well-formed packet with declared payload
    length n, the decoded payload text is bytes [8, 8+n) of the datagram
    with the trailing NUL bytes removed, decoded as UTF-8 with invalid
    sequences dropped (errors='ignore'); text of ASCII bytes decodes to
    those characters. The packet with magic 0x52423345, version 0, type 2,
    length 5 and payload "Hello" followed by NUL padding decodes to
    SongName("Hello"). *)
Theorem payload_text (data : bytes) (p : Packet) :
  decode_packet data = inr p ->
  (u8 <$> data !! 6%nat = Some (packet_size p)
   /\ exists raw k,
       slice 8 (8 + Z.to_nat (packet_size p)) data = raw ++ replicate k x00
       /\ last raw <> Some x00
       /\ packet_data p = utf8_decode Ignore raw
       /\ (Forall (fun b => u8 b < 0x80) raw -> packet_data p = List.map u8 raw))
  /\ exists hello,
       decode_packet hello_datagram = inr hello
       /\ event_of hello = SongName (lit "Hello").
Proof.
  intros Hd. split; [| eexists; split; vm_compute; reflexivity].
  destruct (short_or_header data)
    as [Hshort | (b0 & b1 & b2 & b3 & b4 & b5 & b6 & b7 & rest & ->)].
  { rewrite decode_packet_short in Hd by exact Hshort. discriminate. }
  rewrite decode_packet_header in Hd.
  destruct (negb (be_uint [b0; b1; b2; b3] =? 0x52423345)); [discriminate |].
  destruct (negb (u8 b4 =? 0)); [discriminate |].
  injection Hd as <-. cbn [packet_size packet_data].
  split; [reflexivity |].
  set (data := b0 :: b1 :: b2 :: b3 :: b4 :: b5 :: b6 :: b7 :: rest).
  destruct (rstrip_nul_app_nuls (slice 8 (8 + Z.to_nat (u8 b6)) data)) as [k Hk].
  exists (rstrip_nul (slice 8 (8 + Z.to_nat (u8 b6)) data)), k.
  split; [exact Hk |]. split; [apply rstrip_nul_last |].
  split; [reflexivity |].
  intros Hascii. unfold payload_of. apply utf8_decode_ascii, Hascii.
Qed.

Lemma payload_text_witness :
  exists raw k,
    slice 8 13 hello_datagram = raw ++ replicate k x00
    /\ last raw <> Some x00
    /\ lit "Hello" = utf8_decode Ignore raw.
Proof.
  destruct (payload_text hello_datagram
              {| packet_type := 2; packet_size := 5; platform := 0;
                 packet_data := lit "Hello" |} eq_refl)
    as [(_ & raw & k & Hslice & Hlast & Hdata & _) _].
  exists raw, k. split; [exact Hslice |]. split; [exact Hlast | exact Hdata].
Defined.

(** C9. Decoding succeeds for every datagram of at least 8 bytes with
    the right magic and version, whatever the declared length n: the
    payload is read from the bytes [8, 8+n) that are present, so it is
    cut at the end of the datagram when 8+n goes past it, and it is empty
    when n is 0.  [process_packet] then handles the event without
    raising. *)
Theorem decode_total (data : bytes) :
  (8 <= length data)%nat ->
  be_uint (take 4 data) = 0x52423345 ->
  u8 <$> data !! 4%nat = Some 0 ->
  exists p,
    decode_packet data = inr p
    /\ u8 <$> data !! 6%nat = Some (packet_size p)
    /\ 0 <= packet_size p <= 255
    /\ packet_data p
       = utf8_decode Ignore (rstrip_nul (take (Z.to_nat (packet_size p)) (drop 8 data)))
    /\ ((length data <= 8 + Z.to_nat (packet_size p))%nat ->
        packet_data p = utf8_decode Ignore (rstrip_nul (drop 8 data)))
    /\ (packet_size p = 0 -> packet_data p = [])
    /\ (forall w cfg l,
           NoGui.process_packet w cfg l data
           = let '(l1, e_ev) := NoGui.handle_event w cfg l (event_of p) in
             let '(l2, e_tr) := NoGui.trigger w cfg l1 in
             (l2, NoGui.debug cfg ([DPacketInfo; DValidPacket]
                                   ++ if 0 <? packet_size p then [DPacketData] else [])
                  ++ e_ev ++ e_tr))
    /\ (forall w l,
           Gui.process_packet w l data
           = let '(l1, e_ev) := Gui.handle_event w l (event_of p) in
             let '(l2, e_tr) := Gui.trigger w l1 in (l2, e_ev ++ e_tr)).
Proof.
  intros Hlen Hmagic Hver.
  destruct (short_or_header data)
    as [Hshort | (b0 & b1 & b2 & b3 & b4 & b5 & b6 & b7 & rest & ->)]; [lia |].
  simpl in Hmagic, Hver. injection Hver as Hver.
  eexists. split.
  { rewrite decode_packet_header.
    rewrite (proj2 (Z.eqb_eq _ _) Hmagic), (proj2 (Z.eqb_eq _ _) Hver). reflexivity. }
  cbn [packet_size packet_data packet_type platform].
  pose proof (u8_range b6) as Hb6.
  split; [reflexivity |]. split; [lia |].
  assert (Hslice : forall n, slice 8 (8 + n)
                     (b0 :: b1 :: b2 :: b3 :: b4 :: b5 :: b6 :: b7 :: rest) = take n rest).
  { intros n. unfold slice. replace (8 + n - 8)%nat with n by lia. reflexivity. }
  split; [unfold payload_of; rewrite Hslice; reflexivity |].
  split.
  { intros Hover. unfold payload_of. rewrite Hslice. simpl drop.
    rewrite take_ge; [reflexivity |]. simpl in Hover. lia. }
  split.
  { intros H0. unfold payload_of. rewrite Hslice, H0. reflexivity. }
  split.
  - intros w cfg l. unfold NoGui.process_packet.
    rewrite decode_packet_header.
    rewrite (proj2 (Z.eqb_eq _ _) Hmagic), (proj2 (Z.eqb_eq _ _) Hver). reflexivity.
  - intros w l. unfold Gui.process_packet.
    rewrite decode_packet_header.
    rewrite (proj2 (Z.eqb_eq _ _) Hmagic), (proj2 (Z.eqb_eq _ _) Hver). reflexivity.
Qed.

(** A datagram that declares 200 payload bytes and carries two. *)
Lemma decode_total_witness :
  exists p,
    decode_packet (datagram x03 xc8 [x41; x42]) = inr p /\ packet_data p = lit "AB".
Proof.
  destruct (decode_total (datagram x03 xc8 [x41; x42])) as (p & Hd & _ & _ & _ & Hcut & _).
  - simpl. lia.
  - vm_compute. reflexivity.
  - reflexivity.
  - exists p. split; [exact Hd |]. rewrite Hcut; [vm_compute; reflexivity |].
    vm_compute in Hd. injection Hd as <-.
    change (10 <= 8 + Z.to_nat 200)%nat. lia.
Defined.

(** ** The state value *)

Lemma unicode_decimal_ascii (c : char) :
  is_ascii_digit c = true -> unicode_decimal c = Some (c - 48).
Proof.
  unfold is_ascii_digit, in_range. intros [H1 H2]%andb_true_iff.
  apply Z.leb_le in H1, H2. unfold unicode_decimal, decimal_zeros.
  cbn [List.find].
  replace ((48 <=? c) && (c <? 48 + 10)) with true; [reflexivity |].
  symmetry. apply andb_true_iff. split; [apply Z.leb_le | apply Z.ltb_lt]; lia.
Qed.

Lemma unicode_digit_ascii (c : char) :
  is_ascii_digit c = true -> unicode_digit c = Some (c - 48).
Proof.
  intros H. unfold unicode_digit. rewrite unicode_decimal_ascii by exact H. reflexivity.
Qed.

Lemma isdigit_ascii (s : str) :
  s <> [] -> forallb is_ascii_digit s = true -> isdigit s = true.
Proof.
  intros Hne Hall. destruct s as [| c s]; [contradiction |].
  unfold isdigit. apply forallb_forall. intros x Hx.
  apply bool_decide_eq_true. rewrite unicode_digit_ascii; [eexists; reflexivity |].
  rewrite forallb_forall in Hall. apply Hall, Hx.
Qed.

Lemma int_fold_ascii (s : str) (a : Z) :
  forallb is_ascii_digit s = true ->
  fold_left (fun acc c =>
               match acc, unicode_decimal c with
               | Some a, Some d => Some (10 * a + d)
               | _, _ => None
               end) s (Some a)
  = Some (fold_left (fun acc c => 10 * acc + (c - 48)) s a).
Proof.
  revert a. induction s as [| c s IH]; intros a Hall; [reflexivity |].
  simpl in Hall. apply andb_true_iff in Hall as [Hc Hs].
  simpl. rewrite unicode_decimal_ascii by exact Hc. apply IH, Hs.
Qed.

Lemma decode_state_ascii_digits (s : str) :
  s <> [] -> forallb is_ascii_digit s = true -> decode_state s = Some (decimal_value s).
Proof.
  intros Hne Hall. unfold decode_state. rewrite isdigit_ascii by assumption.
  unfold int. destruct s as [| c s]; [contradiction |].
  apply (int_fold_ascii (c :: s) 0 Hall).
Qed.

Lemma decode_state_first_char (c : char) (s : str) :
  unicode_digit c = None -> decode_state (c :: s) = Some c.
Proof.
  intros Hc. unfold decode_state, isdigit. cbn [forallb]. rewrite Hc.
  rewrite bool_decide_eq_false_2; [reflexivity |]. intros [x Hx]. discriminate.
Qed.

Example decode_state_1 : decode_state (lit "1") = Some 1.
Proof. reflexivity. Qed.

Example decode_state_A : decode_state (lit "A") = Some 65.
Proof. reflexivity. Qed.

Example decode_state_empty : decode_state (lit "") = Some 0.
Proof. reflexivity. Qed.

(** The byte 0x01 that the game sends for "in game". *)
Example decode_state_raw_1 : decode_state [1] = Some 1.
Proof. reflexivity. Qed.

(** C6, at the payload "²" (U+00B2, a digit for [isdigit] that [int]
    rejects): the payload is non-empty and not made of decimal digits, so
    the state value should be the code 178 of its first character; the
    code takes the [int] branch, which raises, and both versions keep the
    stored state and drop the event. *)
Theorem state_value_superscript_two :
  (exists p, decode_packet superscript_two_datagram = inr p
             /\ event_of p = State [0xB2])
  /\ isdigit [0xB2] = true
  /\ unicode_decimal 0xB2 = None
  /\ decode_state [0xB2] = None
  /\ (forall w cfg l,
        NoGui.handle_state_change w cfg l [0xB2] = (l, NoGui.debug cfg [DStateError]))
  /\ (forall w l, Gui.handle_state_change w l [0xB2] = (l, [])).
Proof.
  split; [eexists; split; vm_compute; reflexivity |].
  split; [vm_compute; reflexivity |].
  split; [vm_compute; reflexivity |].
  split; [vm_compute; reflexivity |].
  split; intros; reflexivity.
Qed.

(** ** The state machine *)

Lemma transitions_app (a b : list Effect) :
  transitions (a ++ b) = transitions a ++ transitions b.
Proof. apply List.filter_app. Qed.

Lemma transitions_map_debug (d : list DebugMsg) : transitions (List.map DebugPrint d) = [].
Proof. induction d; [reflexivity | exact IHd]. Qed.

(** *** Effects that announce no transition *)

Lemma quiet_nil : quiet [].
Proof. reflexivity. Qed.

Lemma quiet_app (a b : list Effect) : quiet a -> quiet b -> quiet (a ++ b).
Proof. unfold quiet. intros Ha Hb. rewrite transitions_app, Ha, Hb. reflexivity. Qed.

Lemma quiet_cons (e : Effect) (es : list Effect) :
  is_transition e = false -> quiet es -> quiet (e :: es).
Proof. unfold quiet, transitions. intros He Hes. simpl. rewrite He. exact Hes. Qed.

Lemma quiet_debug (cfg : NoGui.Config) (d : list DebugMsg) : quiet (NoGui.debug cfg d).
Proof.
  unfold NoGui.debug. destruct (NoGui.DEBUG_MODE cfg); [apply transitions_map_debug | reflexivity].
Qed.

Lemma quiet_gui_say (cb : bool) (m : Msg) :
  is_transition (Print m) = false -> quiet (Gui.say cb m).
Proof. intros Hm. destruct cb; [apply quiet_cons; [exact Hm | apply quiet_nil] | apply quiet_nil]. Qed.

Create HintDb quiet.
#[local] Hint Resolve quiet_nil quiet_app quiet_cons quiet_debug quiet_gui_say : quiet.
#[local] Hint Extern 1 (is_transition _ = false) => reflexivity : quiet.

Ltac quiet := auto 12 with quiet.

Lemma search_loop_quiet_nogui (w : World) (a s : str) (qs : list str) :
  quiet (search_loop w NoGui.say a s qs).2.
Proof.
  induction qs as [| q qs IH]; [apply quiet_nil |].
  simpl. destruct (youtube_search w q) as [err | items]; [unfold NoGui.say; simpl; quiet |].
  destruct (pick w a s items) as [[item passed] |].
  - unfold NoGui.say. simpl. destruct passed; quiet.
  - destruct (search_loop w NoGui.say a s qs) as [r e]. unfold NoGui.say. simpl in *. quiet.
Qed.

Lemma search_loop_quiet_gui (w : World) (a s : str) (qs : list str) :
  quiet (search_loop w (fun _ => []) a s qs).2.
Proof.
  induction qs as [| q qs IH]; [apply quiet_nil |].
  simpl. destruct (youtube_search w q) as [err | items]; [simpl; quiet |].
  destruct (pick w a s items) as [[item passed] |]; [simpl; quiet |].
  destruct (search_loop w _ a s qs) as [r e]. simpl in *. quiet.
Qed.

Module NoGuiFacts.
Import NoGui.

Lemma nogui_search_video_quiet (w : World) (ys : YouTubeSearcher) (a s : str) :
  quiet (search_video w ys a s).2.
Proof.
  unfold search_video. destruct (negb (youtube ys)); [apply quiet_nil |].
  destruct (clean_search_terms a s) as [ca cs].
  destruct (search_cache ys !! search_key w ca cs); [simpl; quiet |].
  pose proof (search_loop_quiet_nogui w ca cs (search_queries ca cs)) as Hq.
  destruct (search_loop w say ca cs (search_queries ca cs)) as [r e]. simpl in Hq.
  destruct r as [[] | [found |]]; simpl; quiet.
Qed.

Lemma nogui_stop_current_video_quiet (w : World) (p : VLCPlayer) :
  quiet (stop_current_video w p).2.
Proof.
  unfold stop_current_video. destruct (current_process p) as [proc |]; [| apply quiet_nil].
  destruct (still_running w proc); [| apply quiet_nil].
  destruct (terminate_result w proc); simpl; quiet.
Qed.

Lemma nogui_play_video_quiet (w : World) (cfg : Config) (p : VLCPlayer) (url id a s : str) :
  quiet (play_video w cfg p url id a s).2.
Proof.
  unfold play_video. destruct (negb (truthy (vlc_path p))); [simpl; quiet |].
  pose proof (nogui_stop_current_video_quiet w p) as Hs.
  destruct (stop_current_video w p) as [p1 e1]. simpl in Hs.
  repeat match goal with
         | |- context [if ?b then _ else _] => destruct b
         end; simpl; quiet.
Qed.

Lemma nogui_start_pending_video_spec (w : World) (cfg : Config) (l : RB3EventListener) :
  let r := start_pending_video w cfg l in
  quiet r.2
  /\ game_state r.1 = game_state l
  /\ current_song r.1 = current_song l
  /\ current_artist r.1 = current_artist l
  /\ youtube_searcher r.1 = youtube_searcher l.
Proof.
  unfold start_pending_video.
  destruct (pending_video l) as [[[[url id] a] s] |]; [| simpl; auto using quiet_nil].
  pose proof (nogui_play_video_quiet w cfg (vlc_player l) url id a s) as Hp.
  destruct (play_video w cfg (vlc_player l) url id a s) as [p e]. simpl in Hp. simpl.
  split; [| auto].
  repeat match goal with
         | |- context [if ?b then _ else _] => destruct b
         end; quiet.
Qed.

(** The pipeline of the console version: whatever the search and the
    resolution answer, both slots are empty afterwards; the game state is
    kept and no transition is announced. *)
Lemma nogui_prepare_video_spec (w : World) (cfg : Config) (l : RB3EventListener) :
  let r := prepare_video w cfg l in
  quiet r.2 /\ game_state r.1 = game_state l
  /\ current_song r.1 = [] /\ current_artist r.1 = [].
Proof.
  unfold prepare_video.
  pose proof (nogui_search_video_quiet w (youtube_searcher l) (current_artist l) (current_song l)) as Hs.
  destruct (search_video w (youtube_searcher l) (current_artist l) (current_song l))
    as [[video_id ys] e_search]. simpl in Hs.
  destruct (truthy video_id); [| simpl; split; [quiet | auto]].
  destruct (truthy (get_stream_url w (default [] video_id))); [| simpl; split; [quiet | auto]].
  cbn [game_state set_pending_video set_youtube_searcher].
  destruct (game_state l =? 1); [| simpl; split; [quiet | auto]].
  match goal with
  | |- context [start_pending_video w cfg ?l0] =>
    pose proof (nogui_start_pending_video_spec w cfg l0) as (Hq & Hg & _);
    destruct (start_pending_video w cfg l0) as [l1 e1]
  end.
  simpl in *. split; [quiet | auto].
Qed.

Lemma nogui_play_current_song_spec (w : World) (cfg : Config) (l : RB3EventListener) :
  let r := play_current_song w cfg l in
  quiet r.2 /\ game_state r.1 = game_state l
  /\ current_song r.1 = [] /\ current_artist r.1 = [].
Proof.
  unfold play_current_song.
  pose proof (nogui_search_video_quiet w (youtube_searcher l) (current_artist l) (current_song l)) as Hs.
  destruct (search_video w (youtube_searcher l) (current_artist l) (current_song l))
    as [[video_id ys] e_search]. simpl in Hs.
  destruct (truthy video_id); [| simpl; split; [quiet | auto]].
  destruct (truthy (get_stream_url w (default [] video_id))); [| simpl; split; [quiet | auto]].
  match goal with
  | |- context [play_video w cfg ?p ?u ?i ?a ?s] =>
    pose proof (nogui_play_video_quiet w cfg p u i a s) as Hq;
    destruct (play_video w cfg p u i a s) as [p1 e1]
  end.
  simpl in *. split; [quiet | auto].
Qed.

Lemma nogui_trigger_spec (w : World) (cfg : Config) (l : RB3EventListener) :
  let r := trigger w cfg l in
  quiet r.2 /\ game_state r.1 = game_state l /\ both_known r.1 = false.
Proof.
  unfold trigger. destruct (both_known l) eqn:Hb; [| simpl; auto using quiet_nil].
  destruct (SYNC_VIDEO_TO_SONG cfg && PRELOAD_VIDEOS cfg).
  - pose proof (nogui_prepare_video_spec w cfg l) as (Hq & Hg & Hs & Ha).
    destruct (prepare_video w cfg l) as [l1 e1]. simpl in *.
    split; [quiet |]. split; [exact Hg |]. unfold both_known. rewrite Hs. reflexivity.
  - pose proof (nogui_play_current_song_spec w cfg l) as (Hq & Hg & Hs & Ha).
    destruct (play_current_song w cfg l) as [l1 e1]. simpl in *.
    split; [quiet |]. split; [exact Hg |]. unfold both_known. rewrite Hs. reflexivity.
Qed.

(** What [handle_state_change] announces and stores. *)
Lemma nogui_handle_state_change_spec (w : World) (cfg : Config) (l : RB3EventListener)
    (packet_data : str) (v : Z) :
  decode_state packet_data = Some v ->
  let r := handle_state_change w cfg l packet_data in
  game_state r.1 = v
  /\ transitions r.2 =
       if (game_state l =? 0) && (v =? 1) then [Print MSongStarting]
       else if (game_state l =? 1) && (v =? 0) then [Print MReturnedToMenus]
       else [].
Proof.
  intros Hd. unfold handle_state_change. rewrite Hd.
  destruct ((game_state l =? 0) && (v =? 1)).
  - destruct (bool_decide (is_Some (pending_video l)) && SYNC_VIDEO_TO_SONG cfg).
    + pose proof (nogui_start_pending_video_spec w cfg l) as (Hq & _).
      destruct (start_pending_video w cfg l) as [l1 e1]. simpl in *.
      split; [reflexivity |].
      rewrite transitions_app, (quiet_debug cfg [DGameState]). simpl.
      f_equal. exact Hq.
    + simpl. split; [reflexivity |].
      rewrite transitions_app, (quiet_debug cfg [DGameState]). reflexivity.
  - destruct ((game_state l =? 1) && (v =? 0)).
    + assert (Hq : quiet (if AUTO_QUIT_ON_MENU cfg
                          then let '(p, e) := stop_current_video w (vlc_player l) in
                               (p, [Print MAutoClosing] ++ e)
                          else (vlc_player l, [])).2).
      { destruct (AUTO_QUIT_ON_MENU cfg); [| apply quiet_nil].
        pose proof (nogui_stop_current_video_quiet w (vlc_player l)) as Hs.
        destruct (stop_current_video w (vlc_player l)) as [p e]. simpl in *. quiet. }
      destruct (if AUTO_QUIT_ON_MENU cfg then _ else _) as [p e]. simpl in *.
      split; [reflexivity |].
      rewrite transitions_app, (quiet_debug cfg [DGameState]). simpl.
      f_equal. exact Hq.
    + simpl. split; [reflexivity |].
      rewrite transitions_app, (quiet_debug cfg [DGameState]). reflexivity.
Qed.

(** One State datagram through [process_packet]. *)
Lemma nogui_process_state_packet (w : World) (cfg : Config) (l : RB3EventListener)
    (data : bytes) (p : Packet) (payload : str) (v : Z) :
  decode_packet data = inr p -> event_of p = State payload ->
  decode_state payload = Some v ->
  let r := process_packet w cfg l data in
  game_state r.1 = v
  /\ transitions r.2 =
       if (game_state l =? 0) && (v =? 1) then [Print MSongStarting]
       else if (game_state l =? 1) && (v =? 0) then [Print MReturnedToMenus]
       else [].
Proof.
  intros Hp Hev Hv. unfold process_packet. rewrite Hp, Hev. cbn [handle_event].
  pose proof (nogui_handle_state_change_spec w cfg l payload v Hv) as (Hg & Ht).
  destruct (handle_state_change w cfg l payload) as [l1 e1].
  pose proof (nogui_trigger_spec w cfg l1) as (Hq & Hg' & _).
  destruct (trigger w cfg l1) as [l2 e2]. simpl in *.
  split; [congruence |].
  rewrite !transitions_app, quiet_debug, Ht, Hq. simpl. apply app_nil_r.
Qed.

End NoGuiFacts.

Module GuiFacts.
Import Gui.

Lemma gui_search_video_quiet (w : World) (ys : YouTubeSearcher) (a s : str) :
  quiet (search_video w ys a s).2.
Proof.
  unfold search_video. destruct (negb (youtube ys)); [apply quiet_nil |].
  destruct (clean_search_terms a s) as [ca cs].
  destruct (search_cache ys !! search_key w ca cs); [apply quiet_nil |].
  pose proof (search_loop_quiet_gui w ca cs (search_queries ca cs)) as Hq.
  destruct (search_loop w _ ca cs (search_queries ca cs)) as [r e]. simpl in Hq.
  destruct r as [err | [found |]]; simpl; quiet.
Qed.

Lemma gui_stop_current_video_quiet (w : World) (p : VLCPlayer) :
  quiet (stop_current_video w p).2.
Proof.
  unfold stop_current_video. destruct (current_process p) as [proc |]; [| apply quiet_nil].
  destruct (still_running w proc); [| apply quiet_nil].
  destruct (terminate_result w proc); simpl; quiet.
Qed.

Lemma gui_play_video_quiet (w : World) (p : VLCPlayer) (url id a s : str)
    (st : gmap string Value) :
  quiet (play_video w p url id a s st).2.
Proof.
  unfold play_video. destruct (negb (truthy (vlc_path p))); [simpl; quiet |].
  destruct (bool_decide (id ∈ played_videos p)); [simpl; quiet |].
  pose proof (gui_stop_current_video_quiet w p) as Hs.
  destruct (stop_current_video w p) as [p1 e1]. simpl in Hs.
  repeat match goal with
         | |- context [if ?b then _ else _] => destruct b
         end; simpl; quiet.
Qed.

Lemma gui_start_pending_video_spec (w : World) (l : RB3EventListener) :
  let r := start_pending_video w l in
  quiet r.2
  /\ game_state r.1 = game_state l
  /\ gui_callback r.1 = gui_callback l
  /\ current_song r.1 = current_song l
  /\ current_artist r.1 = current_artist l.
Proof.
  unfold start_pending_video.
  destruct (pending_video l) as [[[[url id] a] s] |]; [| simpl; auto 6 using quiet_nil].
  pose proof (gui_play_video_quiet w (vlc_player l) url id a s (settings l)) as Hp.
  destruct (play_video w (vlc_player l) url id a s (settings l)) as [p e]. simpl in Hp. simpl.
  split; [| auto].
  repeat match goal with
         | |- context [if ?b then _ else _] => destruct b
         end; quiet.
Qed.

Lemma gui_prepare_video_spec (w : World) (l : RB3EventListener) :
  let r := prepare_video w l in
  quiet r.2 /\ game_state r.1 = game_state l /\ gui_callback r.1 = gui_callback l.
Proof.
  unfold prepare_video.
  pose proof (gui_search_video_quiet w (youtube_searcher l) (current_artist l) (current_song l)) as Hs.
  destruct (search_video w (youtube_searcher l) (current_artist l) (current_song l))
    as [[r ys] e_search]. simpl in Hs.
  destruct r as [err | video_id]; [simpl; split; [quiet | auto] |].
  destruct (truthy video_id); [| simpl; split; [quiet | auto]].
  destruct (truthy (get_stream_url w (default [] video_id))); [| simpl; split; [quiet | auto]].
  cbn [game_state set_pending_video set_youtube_searcher].
  destruct (game_state l =? 1); [| simpl; split; [quiet | auto]].
  match goal with
  | |- context [start_pending_video w ?l0] =>
    pose proof (gui_start_pending_video_spec w l0) as (Hq & Hg & Hc & _);
    destruct (start_pending_video w l0) as [l1 e1]
  end.
  simpl in *. split; [quiet | auto].
Qed.

Lemma gui_play_current_song_spec (w : World) (l : RB3EventListener) :
  let r := play_current_song w l in
  quiet r.2 /\ game_state r.1 = game_state l /\ gui_callback r.1 = gui_callback l.
Proof.
  unfold play_current_song.
  pose proof (gui_search_video_quiet w (youtube_searcher l) (current_artist l) (current_song l)) as Hs.
  destruct (search_video w (youtube_searcher l) (current_artist l) (current_song l))
    as [[r ys] e_search]. simpl in Hs.
  destruct r as [err | video_id]; [simpl; split; [quiet | auto] |].
  destruct (truthy video_id); [| simpl; split; [quiet | auto]].
  destruct (truthy (get_stream_url w (default [] video_id))); [| simpl; split; [quiet | auto]].
  match goal with
  | |- context [play_video w ?p ?u ?i ?a ?s ?st] =>
    pose proof (gui_play_video_quiet w p u i a s st) as Hq;
    destruct (play_video w p u i a s st) as [p1 e1]
  end.
  simpl in *. split; [quiet | auto].
Qed.

Lemma gui_trigger_spec (w : World) (l : RB3EventListener) :
  let r := trigger w l in
  quiet r.2 /\ game_state r.1 = game_state l /\ gui_callback r.1 = gui_callback l.
Proof.
  unfold trigger. destruct (both_known l); [| simpl; auto using quiet_nil].
  destruct (sync_video_to_song l);
    [apply gui_prepare_video_spec | apply gui_play_current_song_spec].
Qed.

Lemma gui_handle_state_change_spec (w : World) (l : RB3EventListener)
    (packet_data : str) (v : Z) :
  decode_state packet_data = Some v ->
  let r := handle_state_change w l packet_data in
  game_state r.1 = v
  /\ gui_callback r.1 = gui_callback l
  /\ transitions r.2 =
       if (game_state l =? 0) && (v =? 1) then Gui.say (gui_callback l) MSongStarting
       else if (game_state l =? 1) && (v =? 0) then Gui.say (gui_callback l) MReturnedToMenus
       else [].
Proof.
  intros Hd. unfold handle_state_change. rewrite Hd.
  destruct ((game_state l =? 0) && (v =? 1)).
  - destruct (bool_decide (is_Some (pending_video l)) && sync_video_to_song l).
    + pose proof (gui_start_pending_video_spec w l) as (Hq & _ & Hc & _).
      destruct (start_pending_video w l) as [l1 e1]. simpl in *.
      split; [reflexivity |]. split; [exact Hc |].
      rewrite transitions_app, Hq. destruct (gui_callback l); reflexivity.
    + simpl. split; [reflexivity |]. split; [reflexivity |].
      destruct (gui_callback l); reflexivity.
  - destruct ((game_state l =? 1) && (v =? 0)).
    + assert (Hq : quiet (if auto_quit_on_menu l
                          then stop_current_video w (vlc_player l)
                          else (vlc_player l, [])).2).
      { destruct (auto_quit_on_menu l); [apply gui_stop_current_video_quiet | apply quiet_nil]. }
      destruct (if auto_quit_on_menu l then _ else _) as [p e]. simpl in *.
      split; [reflexivity |]. split; [reflexivity |].
      rewrite transitions_app, Hq. destruct (gui_callback l); reflexivity.
    + simpl. auto.
Qed.

Lemma gui_process_state_packet (w : World) (l : RB3EventListener)
    (data : bytes) (p : Packet) (payload : str) (v : Z) :
  decode_packet data = inr p -> event_of p = State payload ->
  decode_state payload = Some v ->
  let r := process_packet w l data in
  game_state r.1 = v
  /\ gui_callback r.1 = gui_callback l
  /\ transitions r.2 =
       if (game_state l =? 0) && (v =? 1) then Gui.say (gui_callback l) MSongStarting
       else if (game_state l =? 1) && (v =? 0) then Gui.say (gui_callback l) MReturnedToMenus
       else [].
Proof.
  intros Hp Hev Hv. unfold process_packet. rewrite Hp, Hev. cbn [handle_event].
  pose proof (gui_handle_state_change_spec w l payload v Hv) as (Hg & Hc & Ht).
  destruct (handle_state_change w l payload) as [l1 e1].
  pose proof (gui_trigger_spec w l1) as (Hq & Hg' & Hc').
  destruct (trigger w l1) as [l2 e2]. simpl in *.
  split; [congruence |]. split; [congruence |].
  rewrite transitions_app, Ht, Hq. apply app_nil_r.
Qed.

End GuiFacts.

(** A datagram that is not a State event leaves the game state alone
    and announces no transition. *)
Lemma nogui_other_packet (w : World) (cfg : NoGui.Config) (l : NoGui.RB3EventListener)
    (data : bytes) (p : Packet) :
  decode_packet data = inr p -> (forall payload, event_of p <> State payload) ->
  NoGui.game_state (NoGui.process_packet w cfg l data).1 = NoGui.game_state l
  /\ transitions (NoGui.process_packet w cfg l data).2 = [].
Proof.
  intros Hp Hev. unfold NoGui.process_packet. rewrite Hp.
  assert (H : NoGui.game_state (NoGui.handle_event w cfg l (event_of p)).1 = NoGui.game_state l
              /\ quiet (NoGui.handle_event w cfg l (event_of p)).2).
  { destruct (event_of p) as [b | payload | n | a | t payload] eqn:He; cbn.
    - split; [reflexivity | quiet].
    - exfalso. exact (Hev payload eq_refl).
    - split; [reflexivity | quiet].
    - split; [reflexivity | quiet].
    - split; [reflexivity |]. destruct (bool_decide _); quiet. }
  destruct (NoGui.handle_event w cfg l (event_of p)) as [l1 e1]. destruct H as [Hg Hq].
  pose proof (NoGuiFacts.nogui_trigger_spec w cfg l1) as (Hq' & Hg' & _).
  destruct (NoGui.trigger w cfg l1) as [l2 e2]. simpl in *.
  split; [congruence |]. apply quiet_app; [apply quiet_debug |]. apply quiet_app; assumption.
Qed.

Lemma gui_other_packet (w : World) (l : Gui.RB3EventListener) (data : bytes) (p : Packet) :
  decode_packet data = inr p -> (forall payload, event_of p <> State payload) ->
  Gui.game_state (Gui.process_packet w l data).1 = Gui.game_state l
  /\ transitions (Gui.process_packet w l data).2 = [].
Proof.
  intros Hp Hev. unfold Gui.process_packet. rewrite Hp.
  assert (H : Gui.game_state (Gui.handle_event w l (event_of p)).1 = Gui.game_state l
              /\ quiet (Gui.handle_event w l (event_of p)).2).
  { destruct (event_of p) as [b | payload | n | a | t payload] eqn:He; cbn.
    - split; [reflexivity | quiet].
    - exfalso. exact (Hev payload eq_refl).
    - split; [reflexivity | quiet].
    - split; [reflexivity | quiet].
    - split; [reflexivity | quiet]. }
  destruct (Gui.handle_event w l (event_of p)) as [l1 e1]. destruct H as [Hg Hq].
  pose proof (GuiFacts.gui_trigger_spec w l1) as (Hq' & Hg' & _).
  destruct (Gui.trigger w l1) as [l2 e2]. simpl in *.
  split; [congruence |]. apply quiet_app; assumption.
Qed.

Lemma nogui_three_states (w : World) (cfg : NoGui.Config) (l : NoGui.RB3EventListener)
    (d1 d2 d3 : bytes) :
  state_datagram d1 1 -> state_datagram d2 0 -> state_datagram d3 1 ->
  NoGui.game_state l = 0 ->
  transitions (NoGui.run w cfg l [d1; d2; d3]).2
  = [Print MSongStarting; Print MReturnedToMenus; Print MSongStarting].
Proof.
  intros (p1 & s1 & Hp1 & He1 & Hv1) (p2 & s2 & Hp2 & He2 & Hv2)
         (p3 & s3 & Hp3 & He3 & Hv3) Hg0.
  cbn [NoGui.run].
  pose proof (NoGuiFacts.nogui_process_state_packet w cfg l d1 p1 s1 1 Hp1 He1 Hv1) as (Hg1 & Ht1).
  destruct (NoGui.process_packet w cfg l d1) as [l1 e1].
  pose proof (NoGuiFacts.nogui_process_state_packet w cfg l1 d2 p2 s2 0 Hp2 He2 Hv2) as (Hg2 & Ht2).
  destruct (NoGui.process_packet w cfg l1 d2) as [l2 e2].
  pose proof (NoGuiFacts.nogui_process_state_packet w cfg l2 d3 p3 s3 1 Hp3 He3 Hv3) as (Hg3 & Ht3).
  destruct (NoGui.process_packet w cfg l2 d3) as [l3 e3].
  simpl in *. rewrite Hg0 in Ht1. rewrite Hg1 in Ht2. rewrite Hg2 in Ht3.
  rewrite !transitions_app, Ht1, Ht2, Ht3. reflexivity.
Qed.

Lemma gui_three_states (w : World) (l : Gui.RB3EventListener) (d1 d2 d3 : bytes) :
  state_datagram d1 1 -> state_datagram d2 0 -> state_datagram d3 1 ->
  Gui.game_state l = 0 -> Gui.gui_callback l = true ->
  transitions (Gui.run w l [d1; d2; d3]).2
  = [Print MSongStarting; Print MReturnedToMenus; Print MSongStarting].
Proof.
  intros (p1 & s1 & Hp1 & He1 & Hv1) (p2 & s2 & Hp2 & He2 & Hv2)
         (p3 & s3 & Hp3 & He3 & Hv3) Hg0 Hcb.
  cbn [Gui.run].
  pose proof (GuiFacts.gui_process_state_packet w l d1 p1 s1 1 Hp1 He1 Hv1) as (Hg1 & Hc1 & Ht1).
  destruct (Gui.process_packet w l d1) as [l1 e1].
  pose proof (GuiFacts.gui_process_state_packet w l1 d2 p2 s2 0 Hp2 He2 Hv2) as (Hg2 & Hc2 & Ht2).
  destruct (Gui.process_packet w l1 d2) as [l2 e2].
  pose proof (GuiFacts.gui_process_state_packet w l2 d3 p3 s3 1 Hp3 He3 Hv3) as (Hg3 & Hc3 & Ht3).
  destruct (Gui.process_packet w l2 d3) as [l3 e3].
  simpl in *. rewrite Hg0 in Ht1. rewrite Hg1 in Ht2. rewrite Hg2 in Ht3.
  rewrite Hc2, Hc1, Hcb in Ht3. rewrite Hc1, Hcb in Ht2. rewrite Hcb in Ht1.
  rewrite !transitions_app, Ht1, Ht2, Ht3. reflexivity.
Qed.

(** C10. When the stored state is not 0, a State event whose value is 1
    prints no "song starting", starts no pending video and touches
    neither the player nor the pending video: the only change is that 1
    is stored as the state (the console version prints its DEBUG_MODE
    line). This holds for a stored 1 as for a stored 65.  The whole
    handling of such a datagram announces no transition and ends with 1
    stored. *)
Theorem start_only_from_menu (packet_data : str) :
  decode_state packet_data = Some 1 ->
  (forall w cfg l,
      NoGui.game_state l <> 0 ->
      NoGui.handle_state_change w cfg l packet_data
      = (NoGui.set_game_state l 1, NoGui.debug cfg [DGameState]))
  /\ (forall w l,
      Gui.game_state l <> 0 ->
      Gui.handle_state_change w l packet_data = (Gui.set_game_state l 1, []))
  /\ (forall w cfg l data p,
      decode_packet data = inr p -> event_of p = State packet_data ->
      NoGui.game_state l <> 0 ->
      NoGui.game_state (NoGui.process_packet w cfg l data).1 = 1
      /\ transitions (NoGui.process_packet w cfg l data).2 = [])
  /\ (forall w l data p,
      decode_packet data = inr p -> event_of p = State packet_data ->
      Gui.game_state l <> 0 ->
      Gui.game_state (Gui.process_packet w l data).1 = 1
      /\ transitions (Gui.process_packet w l data).2 = []).
Proof.
  intros Hd. split; [| split; [| split]].
  - intros w cfg l Hg. unfold NoGui.handle_state_change. rewrite Hd.
    apply Z.eqb_neq in Hg. rewrite Hg. cbn [andb].
    change (1 =? 0) with false. rewrite andb_false_r.
    rewrite app_nil_r. reflexivity.
  - intros w l Hg. unfold Gui.handle_state_change. rewrite Hd.
    apply Z.eqb_neq in Hg. rewrite Hg. cbn [andb].
    change (1 =? 0) with false. rewrite andb_false_r. reflexivity.
  - intros w cfg l data p Hp Hev Hg.
    pose proof (NoGuiFacts.nogui_process_state_packet w cfg l data p packet_data 1 Hp Hev Hd)
      as (Hs & Ht).
    apply Z.eqb_neq in Hg. rewrite Hg in Ht. cbn [andb] in Ht.
    change (1 =? 0) with false in Ht. rewrite andb_false_r in Ht. split; assumption.
  - intros w l data p Hp Hev Hg.
    pose proof (GuiFacts.gui_process_state_packet w l data p packet_data 1 Hp Hev Hd)
      as (Hs & _ & Ht).
    apply Z.eqb_neq in Hg. rewrite Hg in Ht. cbn [andb] in Ht.
    change (1 =? 0) with false in Ht. rewrite andb_false_r in Ht. split; assumption.
Qed.

(** After a state payload "A" (stored state 65), payload "1" starts
    nothing even with a video pending. *)
Lemma start_only_from_menu_witness :
  let l := NoGui.set_pending_video
             (NoGui.set_game_state
                (NoGui.new_listener {| youtube := true; search_cache := ∅ |}
                   {| NoGui.vlc_path := Some (lit "vlc"); NoGui.current_process := None;
                      NoGui.played_videos := ∅ |}) 65)
             (Some (lit "url", lit "vid1", lit "Foo", lit "Song")) in
  NoGui.handle_state_change sample_world NoGui.source_config l (lit "1")
  = (NoGui.set_game_state l 1, []).
Proof.
  intros l.
  exact (proj1 (start_only_from_menu (lit "1") eq_refl) sample_world NoGui.source_config l
           ltac:(discriminate)).
Defined.

(** ** The accumulator *)

(** Console version: after any event both slots are never left
    populated, whatever the search, the resolution and the player do. *)
Lemma nogui_slots_cleared (w : World) (cfg : NoGui.Config) (l : NoGui.RB3EventListener)
    (data : bytes) (p : Packet) :
  decode_packet data = inr p ->
  NoGui.both_known (NoGui.process_packet w cfg l data).1 = false.
Proof.
  intros Hp. unfold NoGui.process_packet. rewrite Hp.
  destruct (NoGui.handle_event w cfg l (event_of p)) as [l1 e1].
  pose proof (NoGuiFacts.nogui_trigger_spec w cfg l1) as (_ & _ & Hb).
  destruct (NoGui.trigger w cfg l1) as [l2 e2]. exact Hb.
Qed.

(** GUI version: the same as long as the search does not raise. *)
Lemma gui_slots_cleared (w : World) (l : Gui.RB3EventListener) (data : bytes) (p : Packet) :
  (forall query, exists items, youtube_search w query = inr items) ->
  decode_packet data = inr p ->
  Gui.both_known (Gui.process_packet w l data).1 = false.
Proof.
  intros Hok Hp. unfold Gui.process_packet. rewrite Hp.
  destruct (Gui.handle_event w l (event_of p)) as [l1 e1].
  unfold Gui.trigger. destruct (Gui.both_known l1) eqn:Hb; [| exact Hb].
  assert (Hsearch : forall ys a s, exists r ys' e, Gui.search_video w ys a s = (inr r, ys', e)).
  { intros ys a s. unfold Gui.search_video.
    destruct (negb (youtube ys)); [eauto |].
    destruct (clean_search_terms a s) as [ca cs].
    destruct (search_cache ys !! search_key w ca cs); [eauto |].
    assert (Hloop : forall qs, exists r e,
                 search_loop w (fun _ => []) ca cs qs = (inr r, e)).
    { induction qs as [| q qs (r & e & IH)]; [simpl; eauto |].
      simpl. destruct (Hok q) as [items ->].
      destruct (pick w ca cs items); [eauto |]. rewrite IH. eauto. }
    destruct (Hloop (search_queries ca cs)) as (r & e & ->).
    destruct r; eauto. }
  destruct (Gui.sync_video_to_song l1).
  - unfold Gui.prepare_video.
    destruct (Hsearch (Gui.youtube_searcher l1) (Gui.current_artist l1) (Gui.current_song l1))
      as (r & ys & e & ->).
    destruct (truthy r); [| reflexivity].
    destruct (truthy (get_stream_url w (default [] r))); [| reflexivity].
    cbn [Gui.game_state Gui.set_pending_video Gui.set_youtube_searcher].
    destruct (Gui.game_state l1 =? 1); [| reflexivity].
    match goal with
    | |- context [Gui.start_pending_video w ?l0] =>
      pose proof (GuiFacts.gui_start_pending_video_spec w l0) as (_ & _ & _ & Hs & Ha);
      destruct (Gui.start_pending_video w l0) as [l2 e2]
    end.
    reflexivity.
  - unfold Gui.play_current_song.
    destruct (Hsearch (Gui.youtube_searcher l1) (Gui.current_artist l1) (Gui.current_song l1))
      as (r & ys & e & ->).
    destruct (truthy r); [| reflexivity].
    destruct (truthy (get_stream_url w (default [] r))); [| reflexivity].
    match goal with
    | |- context [Gui.play_video w ?p ?u ?i ?a ?s ?st] =>
      destruct (Gui.play_video w p u i a s st) as [p1 e1']
    end.
    reflexivity.
Qed.

(** C2, in the GUI version when the search raises: SongName("Song")
    completes the pair (Queen, Song); the pipeline runs, the search
    fails, and the two slots are left populated.  The next event, here
    an Alive packet, runs the pipeline again for the same pair.  (The
    console version clears them: [nogui_slots_cleared].) *)
Theorem gui_slots_kept_on_search_error :
  let l1 := (Gui.process_packet failing_search_world gui_listener_queen song_datagram).1 in
  let query := lit "Queen Song official music video" in
  Gui.current_song l1 = lit "Song"
  /\ Gui.current_artist l1 = lit "Queen"
  /\ (Gui.run failing_search_world gui_listener_queen [song_datagram; alive_datagram]).2
     = [ Print (MSong (lit "Song")); ApiSearch query; Print MErrorPreparing;
         Print (MConnected []); ApiSearch query; Print MErrorPreparing ]
  /\ NoGui.both_known
       (NoGui.process_packet failing_search_world NoGui.source_config
          (NoGui.set_current_artist (NoGui.new_listener sample_searcher sample_player)
             (lit "Queen"))
          song_datagram).1 = false.
Proof.
  split; [vm_compute; reflexivity |].
  split; [vm_compute; reflexivity |].
  split; vm_compute; reflexivity.
Qed.

(** ** The played set *)

Lemma size_add (s : gset str) (x : str) :
  (size (s ∪ {[ x ]}) <= S (size s))%nat.
Proof.
  destruct (decide (x ∈ s)) as [Hin | Hout].
  - replace (s ∪ {[ x ]}) with s by set_solver. lia.
  - rewrite size_union by set_solver. rewrite size_singleton. lia.
Qed.

Lemma size_remove (s : gset str) (x : str) :
  x ∈ s -> size (s ∖ {[ x ]}) = pred (size s).
Proof.
  intros Hin. rewrite size_difference by set_solver. rewrite size_singleton. lia.
Qed.

(** [pop] removes exactly one element of a non-empty set. *)
Lemma pop_size (w : World) (s : gset str) :
  (0 < size s)%nat -> size (pop w s) = pred (size s).
Proof.
  intros Hpos. unfold pop. destruct (decide (set_pop w s ∈ s)) as [Hin | _].
  - apply size_remove, Hin.
  - destruct (elements s) as [| x xs] eqn:He.
    + apply elements_empty_inv in He. apply leibniz_equiv in He. subst s.
      rewrite size_empty in Hpos. lia.
    + apply size_remove. apply elem_of_elements. rewrite He. left.
Qed.

Lemma pop_subseteq (w : World) (s : gset str) : pop w s ⊆ s.
Proof.
  unfold pop. destruct (decide (set_pop w s ∈ s)); [set_solver |].
  destruct (elements s); set_solver.
Qed.

(** The bound of ten is kept by the tail of [play_video]. *)
Lemma remember_size (w : World) (played : gset str) (video_id : str) :
  (size played <= 10)%nat -> (size (remember w played video_id) <= 10)%nat.
Proof.
  intros Hs. unfold remember. pose proof (size_add played video_id) as Ha.
  destruct (10 <? Z.of_nat (size (played ∪ {[ video_id ]}))) eqn:Hgt.
  - rewrite pop_size by lia. lia.
  - apply Z.ltb_ge in Hgt. lia.
Qed.

(** The eleventh distinct id evicts one element. *)
Lemma remember_evicts (w : World) (played : gset str) (video_id : str) :
  size played = 10%nat -> video_id ∉ played ->
  size (remember w played video_id) = 10%nat
  /\ remember w played video_id ⊆ played ∪ {[ video_id ]}.
Proof.
  intros Hs Hout. unfold remember.
  assert (Hsz : size (played ∪ {[ video_id ]}) = 11%nat).
  { rewrite size_union by set_solver. rewrite size_singleton. lia. }
  rewrite Hsz. simpl. split; [rewrite pop_size; lia | apply pop_subseteq].
Qed.

Lemma nogui_play_video_size (w : World) (cfg : NoGui.Config) (p : NoGui.VLCPlayer)
    (url id a s : str) :
  (size (NoGui.played_videos p) <= 10)%nat ->
  (size (NoGui.played_videos (NoGui.play_video w cfg p url id a s).1) <= 10)%nat.
Proof.
  intros Hs. unfold NoGui.play_video.
  destruct (negb (truthy (NoGui.vlc_path p))); [exact Hs |].
  assert (Hstop : NoGui.played_videos (NoGui.stop_current_video w p).1 = NoGui.played_videos p).
  { unfold NoGui.stop_current_video. destruct (NoGui.current_process p); [| reflexivity].
    destruct (still_running w _); [| reflexivity]. destruct (terminate_result w _); reflexivity. }
  destruct (NoGui.stop_current_video w p) as [p1 e1]. simpl in Hstop.
  repeat match goal with
         | |- context [if ?b then _ else _] => destruct b
         end; simpl; rewrite ?Hstop; auto using remember_size.
Qed.

Lemma gui_play_video_size (w : World) (p : Gui.VLCPlayer) (url id a s : str)
    (st : gmap string Gui.Value) :
  (size (Gui.played_videos p) <= 10)%nat ->
  (size (Gui.played_videos (Gui.play_video w p url id a s st).1) <= 10)%nat.
Proof.
  intros Hs. unfold Gui.play_video.
  destruct (negb (truthy (Gui.vlc_path p))); [exact Hs |].
  destruct (bool_decide (id ∈ Gui.played_videos p)); [exact Hs |].
  assert (Hstop : Gui.played_videos (Gui.stop_current_video w p).1 = Gui.played_videos p).
  { unfold Gui.stop_current_video. destruct (Gui.current_process p); [| reflexivity].
    destruct (still_running w _); [| reflexivity]. destruct (terminate_result w _); reflexivity. }
  destruct (Gui.stop_current_video w p) as [p1 e1]. simpl in Hstop.
  repeat match goal with
         | |- context [if ?b then _ else _] => destruct b
         end; simpl; rewrite ?Hstop; auto using remember_size.
Qed.

Lemma played_at_most_ten (w : World) (requests : list Pending) :
  (forall cfg p, NoGui.played_videos p = ∅ ->
      (size (NoGui.played_videos (nogui_plays w cfg p requests)) <= 10)%nat)
  /\ (forall st p, Gui.played_videos p = ∅ ->
      (size (Gui.played_videos (gui_plays w st p requests)) <= 10)%nat).
Proof.
  split.
  - intros cfg p Hp.
    assert (H : (size (NoGui.played_videos p) <= 10)%nat)
      by (rewrite Hp, size_empty; lia).
    clear Hp. revert p H. induction requests as [| [[[url id] a] s] rs IH]; intros p H.
    + exact H.
    + apply IH. apply nogui_play_video_size, H.
  - intros st p Hp.
    assert (H : (size (Gui.played_videos p) <= 10)%nat)
      by (rewrite Hp, size_empty; lia).
    clear Hp. revert p H. induction requests as [| [[[url id] a] s] rs IH]; intros p H.
    + exact H.
    + apply IH. apply gui_play_video_size, H.
Qed.

(** GUI version: a request for an id in the played set changes nothing
    and starts nothing. *)
Lemma gui_played_video_skipped (w : World) (p : Gui.VLCPlayer) (url id a s : str)
    (st : gmap string Gui.Value) :
  id ∈ Gui.played_videos p ->
  (Gui.play_video w p url id a s st).1 = p
  /\ List.filter is_popen (Gui.play_video w p url id a s st).2 = [].
Proof.
  intros Hin. unfold Gui.play_video.
  destruct (negb (truthy (Gui.vlc_path p))).
  - split; [reflexivity |]. destruct (Gui.player_callback p); reflexivity.
  - rewrite bool_decide_eq_true_2 by exact Hin.
    split; [reflexivity |]. destruct (Gui.player_callback p); reflexivity.
Qed.

(** Console version: [play_video] starts VLC whether or not the id is in
    the played set. *)
Lemma nogui_played_video_started (w : World) (cfg : NoGui.Config) (p : NoGui.VLCPlayer)
    (path url id a s : str) :
  NoGui.vlc_path p = Some path -> path <> [] ->
  In (Popen (NoGui.vlc_cmd cfg path url a s)) (NoGui.play_video w cfg p url id a s).2.
Proof.
  intros Hpath Hne. unfold NoGui.play_video. rewrite Hpath.
  destruct path as [| c path]; [contradiction |]. cbn [truthy negb default].
  destruct (NoGui.stop_current_video w p) as [p1 e1].
  repeat match goal with
         | |- context [if ?b then _ else _] => destruct b
         end; cbn [snd]; rewrite ?in_app_iff; simpl; tauto.
Qed.

(** C3, in the console version: the video "vid1" is played, which puts
    its id in the played set; a second request for the same id starts
    VLC again.  (The GUI version skips it: [gui_played_video_skipped];
    the bound of ten holds in both: [played_at_most_ten].) *)
Theorem nogui_replays_played_video :
  let play p := NoGui.play_video sample_world NoGui.source_config p
                  (lit "https://stream/vid1") (lit "vid1") (lit "Foo") (lit "Song") in
  let cmd := NoGui.vlc_cmd NoGui.source_config (lit "vlc")
               (lit "https://stream/vid1") (lit "Foo") (lit "Song") in
  let p1 := (play sample_player).1 in
  NoGui.played_videos p1 = {[ lit "vid1" ]}
  /\ List.filter is_popen (play sample_player).2 = [Popen cmd]
  /\ List.filter is_popen (play p1).2 = [Popen cmd]
  /\ (play p1).2
     = [ Terminate cmd; Print MVlcClosed; Print (MPlayingWithVlc (lit "Foo") (lit "Song"));
         Popen cmd; Sleep 2000; Print MVlcStarted ].
Proof.
  split; [vm_compute; reflexivity |].
  split; [vm_compute; reflexivity |].
  split; vm_compute; reflexivity.
Qed.

(** ** Search terms *)

(** *** Greedy runs *)

Lemma span_len_all (p : char -> bool) (s : str) :
  Forall (fun c => p c = true) s -> span_len p s = length s.
Proof.
  induction 1 as [| c s Hc _ IH]; [reflexivity |]. simpl. rewrite Hc, IH. reflexivity.
Qed.

Lemma span_len_stop (p : char -> bool) (a : str) (c : char) (r : str) :
  Forall (fun c => p c = true) a -> p c = false -> span_len p (a ++ c :: r) = length a.
Proof.
  intros Ha Hc. induction Ha as [| x a Hx _ IH]; simpl.
  - rewrite Hc. reflexivity.
  - rewrite Hx, IH. reflexivity.
Qed.

(** A string is a run of [p] followed, if anything follows, by a
    character outside [p]. *)
Lemma span_split (p : char -> bool) (s : str) :
  Forall (fun c => p c = true) s
  \/ exists a c r, s = a ++ c :: r /\ Forall (fun c => p c = true) a /\ p c = false.
Proof.
  induction s as [| x s IH]; [left; constructor |].
  destruct (p x) eqn:Hx.
  - destruct IH as [Hall | (a & c & r & -> & Ha & Hc)].
    + left. constructor; assumption.
    + right. exists (x :: a), c, r. split; [reflexivity |]. split; [constructor |]; assumption.
  - right. exists [], x, s. split; [reflexivity |]. split; [constructor | exact Hx].
Qed.

Lemma no_space_at_end_suffix (pre post : str) :
  post <> [] -> no_space_at_end (pre ++ post) -> no_space_at_end post.
Proof.
  intros Hne H c Hc. apply H. rewrite last_app, Hc. reflexivity.
Qed.

(** A non-empty string that does not end in white space is a run of
    white space followed by a character that is not. *)
Lemma leading_space_split (post : str) :
  post <> [] -> no_space_at_end post ->
  exists a c r, post = a ++ c :: r
                /\ Forall (fun c => isspace c = true) a /\ isspace c = false.
Proof.
  intros Hne Hend. destruct (span_split isspace post) as [Hall | H]; [| exact H].
  exfalso. destruct (last post) as [c |] eqn:Hl.
  - pose proof (Hend c Hl) as Hc.
    apply last_Some in Hl as [pre ->].
    apply Forall_app in Hall as [_ Hc']. inversion Hc' as [| ? ? Hx _]. congruence.
  - apply last_None in Hl. contradiction.
Qed.

Lemma strip_id (t : str) : no_space_at_start t -> no_space_at_end t -> strip t = t.
Proof.
  intros Hs He.
  assert (Hl : forall u, no_space_at_start u -> lstrip u = u).
  { intros u Hu. unfold lstrip. destruct u as [| c u]; [reflexivity |].
    simpl. rewrite (Hu c eq_refl). reflexivity. }
  unfold strip, rstrip. rewrite (Hl t Hs). rewrite Hl; [apply reverse_involutive |].
  intros c Hc. apply He. rewrite <- head_reverse. exact Hc.
Qed.

(** *** Deleting and splitting at matches *)

Lemma sub_aux_skip_all (m : str -> option nat) (k : nat) (s : str) :
  (length s <= k)%nat -> sub_aux m k s = [].
Proof.
  revert k. induction s as [| c s IH]; intros k Hk; [reflexivity |].
  destruct k as [| k]; simpl in *; [lia |]. apply IH. lia.
Qed.

(** Where no match starts, the text is kept. *)
Lemma sub_aux_keep (m : str -> option nat) (t tail : str) :
  (forall pre post, t = pre ++ post -> post <> [] -> m (post ++ tail) = None) ->
  sub_aux m O (t ++ tail) = t ++ sub_aux m O tail.
Proof.
  induction t as [| c t IH]; intros H; [reflexivity |].
  pose proof (H [] (c :: t) eq_refl ltac:(discriminate)) as H0.
  simpl in *. rewrite H0. f_equal.
  apply IH. intros pre post -> Hne. apply (H (c :: pre) post eq_refl Hne).
Qed.

(** A match that runs to the end of the text deletes it. *)
Lemma sub_aux_whole (m : str -> option nat) (s : str) :
  s <> [] -> m s = Some (length s) -> sub_aux m O s = [].
Proof.
  intros Hne Hm. destruct s as [| c s]; [contradiction |].
  simpl in *. rewrite Hm. apply sub_aux_skip_all. lia.
Qed.

Lemma re_sub_delete_tail (m : str -> option nat) (t tail : str) :
  (forall pre post, t = pre ++ post -> post <> [] -> m (post ++ tail) = None) ->
  tail <> [] -> m tail = Some (length tail) ->
  re_sub_delete m (t ++ tail) = t.
Proof.
  intros Hkeep Hne Hm. unfold re_sub_delete.
  rewrite sub_aux_keep by exact Hkeep. rewrite sub_aux_whole by assumption.
  apply app_nil_r.
Qed.

Lemma re_sub_delete_none (m : str -> option nat) (s : str) :
  (forall pre post, s = pre ++ post -> m post = None) -> re_sub_delete m s = s.
Proof.
  intros H. unfold re_sub_delete. rewrite <- (app_nil_r s) at 1.
  rewrite sub_aux_keep; [simpl; apply app_nil_r |].
  intros pre post Hs _. rewrite app_nil_r. apply (H pre post Hs).
Qed.

(** The text before the leftmost match. *)
Lemma re_split_first_at (m : str -> bool) (a tail : str) :
  (forall pre post, a = pre ++ post -> post <> [] -> m (post ++ tail) = false) ->
  m tail = true ->
  re_split_first m (a ++ tail) = a.
Proof.
  induction a as [| c a IH]; intros H Hm.
  - simpl. destruct tail as [| c tail]; [reflexivity |]. simpl. rewrite Hm. reflexivity.
  - pose proof (H [] (c :: a) eq_refl ltac:(discriminate)) as H0.
    simpl in *. rewrite H0. f_equal.
    apply IH; [| exact Hm]. intros pre post -> Hne. apply (H (c :: pre) post eq_refl Hne).
Qed.

Lemma re_split_first_prefix (m : str -> bool) (s : str) :
  exists rest, s = re_split_first m s ++ rest /\ (rest = [] \/ m rest = true).
Proof.
  induction s as [| c s (rest & Hs & Hrest)]; [exists []; auto |].
  simpl. destruct (m (c :: s)) eqn:Hm.
  - exists (c :: s). auto.
  - exists rest. split; [simpl; f_equal; exact Hs | exact Hrest].
Qed.

(** *** Character facts *)

Lemma space_not (c x : char) :
  isspace x = false -> isspace c = true -> c <> x.
Proof. intros Hx Hc ->. congruence. Qed.

Lemma Forall_space_not (x : char) (sp : str) :
  isspace x = false -> Forall (fun c => isspace c = true) sp -> Forall (fun c => c <> x) sp.
Proof.
  intros Hx Hsp. eapply Forall_impl; [exact Hsp |].
  intros c Hc. exact (space_not c x Hx Hc).
Qed.

(** A character matched by a letter of a pattern is neither white space
    nor a line feed. *)
Lemma ci_eq_letter (p c : char) :
  in_range 97 122 p = true -> ci_eq p c = true -> isspace c = false /\ c <> 10.
Proof.
  unfold in_range, ci_eq, ascii_lower_char, in_range. intros Hp Hc.
  apply andb_true_iff in Hp as [Hp1 Hp2]. apply Z.leb_le in Hp1, Hp2.
  assert (Hcases : (97 <= c <= 122) \/ (65 <= c <= 90) \/ c = 0x130 \/ c = 0x131
                   \/ c = 0x17F \/ c = 0x212A).
  { repeat (apply orb_true_iff in Hc as [Hc | Hc]).
    - destruct ((65 <=? c) && (c <=? 90)) eqn:Hup.
      + apply andb_true_iff in Hup as [H1 H2]. apply Z.leb_le in H1, H2. lia.
      + apply Z.eqb_eq in Hc. lia.
    - apply andb_true_iff in Hc as [_ Hc].
      apply orb_true_iff in Hc as [Hc | Hc]; apply Z.eqb_eq in Hc; lia.
    - apply andb_true_iff in Hc as [_ Hc]. apply Z.eqb_eq in Hc. lia.
    - apply andb_true_iff in Hc as [_ Hc]. apply Z.eqb_eq in Hc. lia. }
  split; [| lia].
  apply not_true_iff_false. intros Hs. unfold isspace, in_range in Hs.
  rewrite !orb_true_iff, !andb_true_iff, !Z.leb_le, !Z.eqb_eq in Hs. lia.
Qed.

Lemma ci_prefix_length (w s : str) : ci_prefix w s = true -> (length w <= length s)%nat.
Proof.
  revert s. induction w as [| p w IH]; intros s H; simpl; [lia |].
  destruct s as [| c s]; [discriminate |]. simpl in H.
  apply andb_true_iff in H as [_ H]. simpl. apply IH in H. lia.
Qed.

Lemma ci_prefix_app (w s r : str) : ci_prefix w s = true -> ci_prefix w (s ++ r) = true.
Proof.
  revert s. induction w as [| p w IH]; intros s H; [reflexivity |].
  destruct s as [| c s]; [discriminate |]. simpl in *.
  apply andb_true_iff in H as [Hc H]. rewrite Hc. apply IH, H.
Qed.

(** A text that starts with one of the letter-initial words of a
    pattern starts with a character that is not white space. *)
Lemma ci_prefix_head (p : char) (w s : str) :
  in_range 97 122 p = true -> ci_prefix (p :: w) s = true ->
  exists c r, s = c :: r /\ isspace c = false.
Proof.
  intros Hp H. destruct s as [| c r]; [discriminate |]. simpl in H.
  apply andb_true_iff in H as [Hc _]. exists c, r. split; [reflexivity |].
  apply (ci_eq_letter p c Hp Hc).
Qed.

(** *** The three patterns *)

Lemma Forall_neq_negb (x : char) (s : str) :
  Forall (fun c => c <> x) s -> Forall (fun c => negb (c =? x) = true) s.
Proof.
  intros H. eapply Forall_impl; [exact H |]. intros c Hc. simpl.
  apply negb_true_iff, Z.eqb_neq, Hc.
Qed.

(** No parenthesis opens, so nothing matches. *)
Lemma match_parens_none_all (s : str) :
  Forall (fun c => c <> 40) s -> match_parens s = None.
Proof.
  intros Hs. unfold match_parens.
  destruct (span_split isspace s) as [Hall | (a & c & r & -> & Ha & Hc)].
  - rewrite span_len_all by exact Hall. rewrite drop_all. reflexivity.
  - rewrite span_len_stop by assumption. rewrite drop_app_length.
    apply Forall_app in Hs as [_ Hs]. apply Forall_cons in Hs as [Hc40 _].
    apply Z.eqb_neq in Hc40. rewrite Hc40. reflexivity.
Qed.

Lemma match_parens_none (post tail : str) :
  post <> [] -> Forall (fun c => c <> 40) post -> no_space_at_end post ->
  match_parens (post ++ tail) = None.
Proof.
  intros Hne Hs Hend.
  destruct (leading_space_split post Hne Hend) as (a & c & r & -> & Ha & Hc).
  unfold match_parens. rewrite <- app_assoc. simpl.
  rewrite span_len_stop by assumption. rewrite drop_app_length.
  apply Forall_app in Hs as [_ Hs]. apply Forall_cons in Hs as [Hc40 _].
  apply Z.eqb_neq in Hc40. rewrite Hc40. reflexivity.
Qed.

(** White space, a parenthesised text, white space: one match. *)
Lemma match_parens_whole (sp inner sp' : str) :
  Forall (fun c => isspace c = true) sp ->
  Forall (fun c => c <> 41) inner ->
  Forall (fun c => isspace c = true) sp' ->
  match_parens (sp ++ 40 :: inner ++ 41 :: sp')
  = Some (length (sp ++ 40 :: inner ++ 41 :: sp')).
Proof.
  intros Hsp Hin Hsp'. unfold match_parens.
  rewrite span_len_stop by (assumption || reflexivity). rewrite drop_app_length.
  change (40 =? 40) with true. cbv iota.
  rewrite (span_len_stop _ inner 41 sp') by (apply Forall_neq_negb, Hin || reflexivity).
  rewrite drop_app_length. rewrite span_len_all by exact Hsp'.
  f_equal. rewrite !length_app. simpl. rewrite !length_app. simpl. lia.
Qed.

Lemma match_modifier_none_all (s : str) :
  Forall (fun c => c <> 45) s -> match_modifier s = None.
Proof.
  intros Hs. unfold match_modifier.
  destruct (span_split isspace s) as [Hall | (a & c & r & -> & Ha & Hc)].
  - rewrite span_len_all by exact Hall. rewrite drop_all. reflexivity.
  - rewrite span_len_stop by assumption. rewrite drop_app_length.
    apply Forall_app in Hs as [_ Hs]. apply Forall_cons in Hs as [Hc45 _].
    apply Z.eqb_neq in Hc45. rewrite Hc45. reflexivity.
Qed.

Lemma match_modifier_none (post tail : str) :
  post <> [] -> Forall (fun c => c <> 45) post -> no_space_at_end post ->
  match_modifier (post ++ tail) = None.
Proof.
  intros Hne Hs Hend.
  destruct (leading_space_split post Hne Hend) as (a & c & r & -> & Ha & Hc).
  unfold match_modifier. rewrite <- app_assoc. simpl.
  rewrite span_len_stop by assumption. rewrite drop_app_length.
  apply Forall_app in Hs as [_ Hs]. apply Forall_cons in Hs as [Hc45 _].
  apply Z.eqb_neq in Hc45. rewrite Hc45. reflexivity.
Qed.

Lemma modifier_found (m : str) :
  starts_with_modifier m ->
  exists w, List.find (fun w => ci_prefix w m) modifiers = Some w
            /\ (length w <= length m)%nat
            /\ exists c r, m = c :: r /\ isspace c = false.
Proof.
  intros (w0 & Hin & Hw0).
  destruct (List.find (fun w => ci_prefix w m) modifiers) as [w |] eqn:Hf.
  - apply List.find_some in Hf as [Hw Hp]. exists w.
    split; [reflexivity |]. split; [apply ci_prefix_length, Hp |].
    cbv in Hw.
    destruct Hw as [<- | [<- | [<- | [<- | []]]]];
      (eapply ci_prefix_head; [| exact Hp]; reflexivity).
  - exfalso. pose proof (List.find_none _ _ Hf w0 Hin) as Hn. simpl in Hn. congruence.
Qed.

(** White space, a dash, white space, a modifier word and the rest of
    the line: one match. *)
Lemma match_modifier_whole (sp sp' m : str) :
  Forall (fun c => isspace c = true) sp ->
  Forall (fun c => isspace c = true) sp' ->
  starts_with_modifier m ->
  Forall (fun c => c <> 10) m ->
  match_modifier (sp ++ 45 :: sp' ++ m) = Some (length (sp ++ 45 :: sp' ++ m)).
Proof.
  intros Hsp Hsp' Hm Hnl.
  destruct (modifier_found m Hm) as (w & Hfind & Hlen & c & r & -> & Hc).
  unfold match_modifier.
  rewrite span_len_stop by (assumption || reflexivity). rewrite drop_app_length.
  change (45 =? 45) with true. cbv iota.
  rewrite (span_len_stop _ sp' c r) by assumption.
  rewrite drop_app_length. rewrite Hfind.
  rewrite span_len_all by (apply Forall_neq_negb, Forall_drop, Hnl).
  f_equal. rewrite length_drop, !length_app. simpl. rewrite !length_app. simpl in *. lia.
Qed.

(** After a run of white space, what decides is the text that follows. *)
Lemma match_featuring_after_space (sp : str) (c : char) (r : str) :
  sp <> [] -> Forall (fun c => isspace c = true) sp -> isspace c = false ->
  match_featuring (sp ++ c :: r)
  = existsb (fun w => ci_prefix w (c :: r)
                      && match drop (length w) (c :: r) with
                         | x :: _ => isspace x
                         | [] => false
                         end) featuring_separators.
Proof.
  intros Hne Hsp Hc. unfold match_featuring.
  rewrite span_len_stop by assumption.
  destruct (length sp) as [| n] eqn:Hn.
  - destruct sp; [contradiction | discriminate].
  - rewrite <- Hn. rewrite drop_app_length. reflexivity.
Qed.

Lemma match_featuring_none (pre post tail : str) :
  post <> [] -> no_space_then_f (pre ++ post) -> no_space_at_end post ->
  match_featuring (post ++ tail) = false.
Proof.
  intros Hne Hf Hend.
  destruct (leading_space_split post Hne Hend) as (sp & c & r & -> & Hsp & Hc).
  rewrite <- app_assoc. simpl.
  destruct (last sp) as [x |] eqn:Hl.
  - rewrite match_featuring_after_space; [| intros ->; discriminate | assumption ..].
    apply last_Some in Hl as [sp1 ->].
    assert (Hcf : ci_eq 102 c = false).
    { apply (Hf (pre ++ sp1) x c r).
      - rewrite <- !app_assoc. reflexivity.
      - apply Forall_app in Hsp as [_ Hsp]. apply Forall_cons in Hsp as [Hxs _]. exact Hxs. }
    change featuring_separators
      with [102 :: lit "eat."; 102 :: lit "t."; 102 :: lit "eaturing"].
    cbn [existsb ci_prefix]. rewrite Hcf. reflexivity.
  - apply last_None in Hl. subst sp. unfold match_featuring. simpl. rewrite Hc. reflexivity.
Qed.

Lemma match_featuring_whole (sp sep : str) (x : char) (rest : str) :
  sp <> [] -> Forall (fun c => isspace c = true) sp ->
  featuring_separator sep -> isspace x = true ->
  match_featuring (sp ++ sep ++ x :: rest) = true.
Proof.
  intros Hne Hsp (w & Hin & Hw & Hlen) Hx.
  assert (Hhead : exists c r, sep = c :: r /\ isspace c = false).
  { cbv in Hin. destruct Hin as [<- | [<- | [<- | []]]];
      (eapply ci_prefix_head; [| exact Hw]; reflexivity). }
  destruct Hhead as (c & r & -> & Hc).
  simpl. rewrite match_featuring_after_space by assumption.
  apply existsb_exists. exists w. split; [exact Hin |].
  apply andb_true_iff. split.
  - apply (ci_prefix_app w (c :: r) (x :: rest) Hw).
  - change (c :: r ++ x :: rest) with ((c :: r) ++ x :: rest).
    rewrite drop_app_length' by (symmetry; exact Hlen). exact Hx.
Qed.

(** *** Titles and artists *)

Lemma Forall_suffix {A} (P : A -> Prop) (pre post : list A) :
  Forall P (pre ++ post) -> Forall P post.
Proof. intros H. apply Forall_app in H as [_ H]. exact H. Qed.

(** A parenthesised suffix is stripped, with the white space around it:
    the title is normalized as it is without the suffix. *)
Lemma clean_song_parens (artist t sp inner sp' : str) :
  Forall (fun c => c <> 40) t -> no_space_at_end t ->
  Forall (fun c => isspace c = true) sp ->
  Forall (fun c => c <> 41) inner ->
  Forall (fun c => isspace c = true) sp' ->
  (clean_search_terms artist (t ++ sp ++ 40 :: inner ++ 41 :: sp')).2
  = (clean_search_terms artist t).2.
Proof.
  intros Hp He Hsp Hin Hsp'. unfold clean_search_terms. cbn [snd].
  rewrite re_sub_delete_tail.
  - rewrite (re_sub_delete_none match_parens t); [reflexivity |].
    intros pre post ->. apply match_parens_none_all. exact (Forall_suffix _ _ _ Hp).
  - intros pre post -> Hne. apply match_parens_none; [exact Hne | |].
    + exact (Forall_suffix _ _ _ Hp).
    + exact (no_space_at_end_suffix pre post Hne He).
  - destruct sp; discriminate.
  - apply match_parens_whole; assumption.
Qed.

(** A trailing "- Live ..." (or Acoustic, Demo, Remix, in any case) is
    stripped, up to the end of the line. *)
Lemma clean_song_modifier (artist t sp sp' m : str) :
  Forall (fun c => c <> 40) t -> Forall (fun c => c <> 45) t -> no_space_at_end t ->
  Forall (fun c => isspace c = true) sp ->
  Forall (fun c => isspace c = true) sp' ->
  starts_with_modifier m ->
  Forall (fun c => c <> 10) m -> Forall (fun c => c <> 40) m ->
  (clean_search_terms artist (t ++ sp ++ 45 :: sp' ++ m)).2 = strip t.
Proof.
  intros Hp Hd He Hsp Hsp' Hm Hnl Hmp. unfold clean_search_terms. cbn [snd].
  rewrite (re_sub_delete_none match_parens).
  - rewrite re_sub_delete_tail; [reflexivity | | |].
    + intros pre post -> Hne. apply match_modifier_none; [exact Hne | |].
      * exact (Forall_suffix _ _ _ Hd).
      * exact (no_space_at_end_suffix pre post Hne He).
    + destruct sp; discriminate.
    + apply match_modifier_whole; assumption.
  - intros pre post Hsplit. apply match_parens_none_all.
    apply (Forall_suffix _ pre post). rewrite <- Hsplit.
    apply Forall_app_2; [exact Hp |].
    apply Forall_app_2; [exact (Forall_space_not 40 sp eq_refl Hsp) |].
    constructor; [discriminate |].
    apply Forall_app_2; [exact (Forall_space_not 40 sp' eq_refl Hsp') | exact Hmp].
Qed.

(** *** Featuring separators *)

Lemma span_len_take (p : char -> bool) (s : str) :
  Forall (fun c => p c = true) (take (span_len p s) s).
Proof.
  induction s as [| c s IH]; [constructor |].
  simpl. destruct (p c) eqn:Hc; [| constructor].
  simpl. constructor; assumption.
Qed.

Lemma ci_prefix_take (w r : str) :
  ci_prefix w r = true ->
  ci_prefix w (take (length w) r) = true /\ length (take (length w) r) = length w.
Proof.
  revert r. induction w as [| p w IH]; intros r H; [split; reflexivity |].
  destruct r as [| c r]; [discriminate |]. simpl in *.
  apply andb_true_iff in H as [Hc H]. destruct (IH r H) as [H1 H2].
  rewrite Hc, H1, H2. split; reflexivity.
Qed.

Lemma match_featuring_spec (s : str) : match_featuring s = true <-> featuring_match s.
Proof.
  split.
  - unfold match_featuring. intros H.
    pose proof (span_len_take isspace s) as Hsp.
    pose proof (take_drop (span_len isspace s) s) as Hs.
    destruct (span_len isspace s) as [| n] eqn:Hn; [discriminate |]. rewrite <- Hn in *.
    set (r := drop (span_len isspace s) s) in *.
    apply existsb_exists in H as (w & Hin & Hw).
    apply andb_true_iff in Hw as [Hci Hx].
    pose proof (take_drop (length w) r) as Hr.
    destruct (drop (length w) r) as [| x rest]; [discriminate |].
    destruct (ci_prefix_take w r Hci) as [Hci' Hlen].
    exists (take (span_len isspace s) s), (take (length w) r), x, rest.
    split; [rewrite Hr; symmetry; exact Hs |].
    split; [intros Hnil; rewrite Hn in Hnil; destruct s; discriminate |].
    split; [exact Hsp |]. split; [| exact Hx].
    exists w. split; [exact Hin |]. split; assumption.
  - intros (sp & sep & x & rest & -> & Hne & Hsp & Hsep & Hx).
    apply match_featuring_whole; assumption.
Qed.

Lemma re_split_first_none (m : str -> bool) (s : str) :
  (forall pre post, s = pre ++ post -> m post = false) -> re_split_first m s = s.
Proof.
  induction s as [| c s IH]; intros H; [reflexivity |].
  simpl. rewrite (H [] (c :: s) eq_refl). f_equal.
  apply IH. intros pre post ->. apply (H (c :: pre) post eq_refl).
Qed.

(** The artist is cut where the first separator starts, and stripped. *)
Lemma clean_artist_first (a tail song : str) :
  featuring_match tail ->
  (forall pre post, a = pre ++ post -> post <> [] -> ~ featuring_match (post ++ tail)) ->
  (clean_search_terms (a ++ tail) song).1 = strip a.
Proof.
  intros Htail Hfirst. unfold clean_search_terms. cbn [fst].
  rewrite re_split_first_at; [reflexivity | | apply match_featuring_spec, Htail].
  intros pre post Ha Hne.
  destruct (match_featuring (post ++ tail)) eqn:Hm; [| reflexivity].
  exfalso. apply (Hfirst pre post Ha Hne). apply match_featuring_spec, Hm.
Qed.

(** Without a separator the artist is only stripped. *)
Lemma clean_artist_none (artist song : str) :
  (forall pre post, artist = pre ++ post -> ~ featuring_match post) ->
  (clean_search_terms artist song).1 = strip artist.
Proof.
  intros Hnone. unfold clean_search_terms. cbn [fst].
  rewrite re_split_first_none; [reflexivity |].
  intros pre post Ha. destruct (match_featuring post) eqn:Hm; [| reflexivity].
  exfalso. apply (Hnone pre post Ha). apply match_featuring_spec, Hm.
Qed.

(** The artist is cut at the first featuring separator, which needs
    white space on both sides. *)
Lemma clean_artist_featuring (a sp sep : str) (x : char) (rest song : str) :
  no_space_then_f a -> no_space_at_start a -> no_space_at_end a ->
  sp <> [] -> Forall (fun c => isspace c = true) sp ->
  featuring_separator sep -> isspace x = true ->
  (clean_search_terms (a ++ sp ++ sep ++ x :: rest) song).1 = a.
Proof.
  intros Hf Hs He Hne Hsp Hsep Hx. unfold clean_search_terms. cbn [fst].
  rewrite re_split_first_at; [apply strip_id; assumption | |].
  - intros pre post -> Hpost.
    apply (match_featuring_none pre post); [exact Hpost | exact Hf |].
    exact (no_space_at_end_suffix pre post Hpost He).
  - apply match_featuring_whole; assumption.
Qed.

(** *** The queries issued *)

Lemma searched_app (a b : list Effect) : searched (a ++ b) = searched a ++ searched b.
Proof. apply flat_map_app. Qed.

(** The loop stops at the first query with candidates: the queries
    before it were sent and came back empty, the queries after it are not
    sent. *)
Lemma search_loop_first (w : World) (say : Msg -> list Effect) (ca cs : str)
    (before : list str) (q : str) (after : list str) (items : list Item) :
  (forall m, searched (say m) = []) ->
  Forall (fun q' => youtube_search w q' = inr []) before ->
  youtube_search w q = inr items -> items <> [] ->
  exists found e,
    search_loop w say ca cs (before ++ q :: after) = (inr (Some found), e)
    /\ pick w ca cs items = Some found
    /\ searched e = before ++ [q].
Proof.
  intros Hsay Hbefore Hq Hne.
  induction Hbefore as [| q' before Hq' _ (found & e & IH & Hpick & He)].
  - simpl. rewrite Hq.
    destruct (pick w ca cs items) as [found |] eqn:Hpick.
    + eexists _, _. split; [reflexivity |]. split; [reflexivity |].
      rewrite !searched_app, Hsay. cbn [app].
      change (searched (ApiSearch q :: ?l)) with (q :: searched l).
      rewrite Hsay. reflexivity.
    + exfalso. unfold pick in Hpick.
      destruct (List.find _ items); [discriminate |]. destruct items; [contradiction | discriminate].
  - simpl. rewrite Hq'. simpl. rewrite IH.
    eexists _, _. split; [reflexivity |]. split; [exact Hpick |].
    rewrite !searched_app, Hsay. cbn [app].
    change (searched (ApiSearch q' :: e)) with (q' :: searched e).
    f_equal. exact He.
Qed.

Lemma search_loop_nothing (w : World) (say : Msg -> list Effect) (ca cs : str)
    (qs : list str) :
  (forall m, searched (say m) = []) ->
  Forall (fun q' => youtube_search w q' = inr []) qs ->
  exists e, search_loop w say ca cs qs = (inr None, e) /\ searched e = qs.
Proof.
  intros Hsay Hqs. induction Hqs as [| q qs Hq _ (e & IH & He)].
  - exists []. split; reflexivity.
  - simpl. rewrite Hq. simpl. rewrite IH. eexists. split; [reflexivity |].
    rewrite !searched_app, Hsay. cbn [app].
    change (searched (ApiSearch q :: e)) with (q :: searched e).
    f_equal. exact He.
Qed.

(** The same for [search_video] in both versions, when the client
    exists and the cache has no entry for the normalized pair. *)
Lemma search_video_first (w : World) (ys : YouTubeSearcher) (artist song : str)
    (before : list str) (q : str) (after : list str) (items : list Item) :
  let '(ca, cs) := clean_search_terms artist song in
  youtube ys = true -> search_cache ys !! search_key w ca cs = None ->
  search_queries ca cs = before ++ q :: after ->
  Forall (fun q' => youtube_search w q' = inr []) before ->
  youtube_search w q = inr items -> items <> [] ->
  exists found,
    pick w ca cs items = Some found
    /\ (exists ys' e, NoGui.search_video w ys artist song = (Some (videoId found.1), ys', e)
                      /\ searched e = before ++ [q])
    /\ (exists ys' e, Gui.search_video w ys artist song = (inr (Some (videoId found.1)), ys', e)
                      /\ searched e = before ++ [q]).
Proof.
  destruct (clean_search_terms artist song) as [ca cs] eqn:Hclean.
  intros Hy Hcache Hplan Hbefore Hq Hne.
  destruct (search_loop_first w NoGui.say ca cs before q after items
              ltac:(reflexivity) Hbefore Hq Hne) as (found & e & Hloop & Hpick & He).
  destruct (search_loop_first w (fun _ => []) ca cs before q after items
              ltac:(reflexivity) Hbefore Hq Hne) as (found' & e' & Hloop' & Hpick' & He').
  assert (found' = found) as -> by congruence.
  exists found. split; [exact Hpick |]. split.
  - unfold NoGui.search_video. rewrite Hy, Hclean. cbn [negb]. rewrite Hcache, Hplan, Hloop.
    eexists _, _. split; [reflexivity | exact He].
  - unfold Gui.search_video. rewrite Hy, Hclean. cbn [negb]. rewrite Hcache, Hplan, Hloop'.
    eexists _, _. split; [reflexivity | exact He'].
Qed.

Lemma search_video_nothing (w : World) (ys : YouTubeSearcher) (artist song : str) :
  let '(ca, cs) := clean_search_terms artist song in
  youtube ys = true -> search_cache ys !! search_key w ca cs = None ->
  Forall (fun q' => youtube_search w q' = inr []) (search_queries ca cs) ->
  (NoGui.search_video w ys artist song).1 = (None, ys)
  /\ searched (NoGui.search_video w ys artist song).2 = search_queries ca cs
  /\ (Gui.search_video w ys artist song).1 = (inr None, ys)
  /\ searched (Gui.search_video w ys artist song).2 = search_queries ca cs.
Proof.
  destruct (clean_search_terms artist song) as [ca cs] eqn:Hclean.
  intros Hy Hcache Hall.
  destruct (search_loop_nothing w NoGui.say ca cs _ ltac:(reflexivity) Hall) as (e & Hloop & He).
  destruct (search_loop_nothing w (fun _ => []) ca cs _ ltac:(reflexivity) Hall)
    as (e' & Hloop' & He').
  unfold NoGui.search_video, Gui.search_video. rewrite Hy, Hclean. cbn [negb].
  rewrite Hcache, Hloop, Hloop'. cbn [fst snd].
  split; [reflexivity |]. split; [| split; [reflexivity | exact He']].
  rewrite searched_app, He. apply app_nil_r.
Qed.

(** *** What [strip] leaves *)

Lemma lstrip_start (s : str) : no_space_at_start (lstrip s).
Proof.
  unfold lstrip. induction s as [| c s IH]; [intros x Hx; discriminate Hx |].
  simpl. destruct (isspace c) eqn:Hc; [exact IH |].
  intros x [= <-]. exact Hc.
Qed.

Lemma lstrip_suffix (s : str) : exists k, s = k ++ lstrip s.
Proof. exists (take (span_len isspace s) s). unfold lstrip. symmetry. apply take_drop. Qed.

Lemma rstrip_prefix (s : str) : exists k, s = rstrip s ++ k.
Proof.
  destruct (lstrip_suffix (reverse s)) as [k Hk]. exists (reverse k).
  unfold rstrip. rewrite <- reverse_app, <- Hk. symmetry. apply reverse_involutive.
Qed.

Lemma rstrip_end (s : str) : no_space_at_end (rstrip s).
Proof.
  unfold rstrip. intros c Hc. rewrite last_reverse in Hc.
  exact (lstrip_start (reverse s) c Hc).
Qed.

Lemma strip_trimmed (s : str) :
  no_space_at_start (strip s) /\ no_space_at_end (strip s) /\ occurs_in (strip s) s.
Proof.
  unfold strip. destruct (rstrip_prefix (lstrip s)) as [k Hk].
  destruct (lstrip_suffix s) as [k' Hk'].
  split; [| split].
  - intros c Hc. apply (lstrip_start s c). rewrite Hk.
    destruct (rstrip (lstrip s)); [discriminate Hc | exact Hc].
  - apply rstrip_end.
  - exists k', k. rewrite <- Hk. exact Hk'.
Qed.

(** *** The title patterns against their description *)

Lemma span_len_drop_head (p : char -> bool) (s : str) (x : char) (r : str) :
  drop (span_len p s) s = x :: r -> p x = false.
Proof.
  induction s as [| c s IH]; [discriminate |].
  simpl. destruct (p c) eqn:Hc; [exact IH |]. intros [= <- _]. exact Hc.
Qed.

Lemma match_parens_iff (s : str) : match_parens s = None <-> ~ parens_match s.
Proof.
  split.
  - intros Hnone (sp & inner & rest & -> & Hsp & Hin). unfold match_parens in Hnone.
    rewrite span_len_stop in Hnone by (assumption || reflexivity).
    rewrite drop_app_length in Hnone. change (40 =? 40) with true in Hnone. cbv iota in Hnone.
    rewrite (span_len_stop _ inner 41 rest) in Hnone
      by (apply Forall_neq_negb, Hin || reflexivity).
    rewrite drop_app_length in Hnone. discriminate Hnone.
  - intros Hno. destruct (match_parens s) as [n |] eqn:Hm; [| reflexivity].
    exfalso. apply Hno. unfold match_parens in Hm.
    pose proof (span_len_take isspace s) as Hsp.
    pose proof (take_drop (span_len isspace s) s) as Hs.
    destruct (drop (span_len isspace s) s) as [| c r]; [discriminate |].
    destruct (c =? 40) eqn:Hc; [| discriminate]. apply Z.eqb_eq in Hc. subst c.
    pose proof (span_len_take (fun c => negb (c =? 41)) r) as Hin.
    pose proof (take_drop (span_len (fun c => negb (c =? 41)) r) r) as Hr.
    pose proof (span_len_drop_head (fun c => negb (c =? 41)) r) as Hx.
    destruct (drop (span_len (fun c => negb (c =? 41)) r) r) as [| x r']; [discriminate |].
    specialize (Hx x r' eq_refl). apply negb_false_iff, Z.eqb_eq in Hx. subst x.
    exists (take (span_len isspace s) s), (take (span_len (fun c => negb (c =? 41)) r) r), r'.
    split; [etransitivity; [symmetry; exact Hs |]; do 2 f_equal; symmetry; exact Hr |].
    split; [exact Hsp |].
    eapply Forall_impl; [exact Hin |]. intros c Hc. cbv beta in Hc.
    apply negb_true_iff, Z.eqb_neq in Hc. exact Hc.
Qed.

Lemma match_modifier_iff (s : str) : match_modifier s = None <-> ~ modifier_match s.
Proof.
  split.
  - intros Hnone (sp & sp' & m & -> & Hsp & Hsp' & Hm). unfold match_modifier in Hnone.
    destruct (modifier_found m Hm) as (w & Hfind & _ & c & r & -> & Hc).
    rewrite span_len_stop in Hnone by (assumption || reflexivity).
    rewrite drop_app_length in Hnone. change (45 =? 45) with true in Hnone. cbv iota in Hnone.
    rewrite (span_len_stop _ sp' c r) in Hnone by assumption.
    rewrite drop_app_length, Hfind in Hnone. discriminate Hnone.
  - intros Hno. destruct (match_modifier s) as [n |] eqn:Hm; [| reflexivity].
    exfalso. apply Hno. unfold match_modifier in Hm.
    pose proof (span_len_take isspace s) as Hsp.
    pose proof (take_drop (span_len isspace s) s) as Hs.
    destruct (drop (span_len isspace s) s) as [| c r]; [discriminate |].
    destruct (c =? 45) eqn:Hc; [| discriminate]. apply Z.eqb_eq in Hc. subst c.
    pose proof (span_len_take isspace r) as Hsp'.
    pose proof (take_drop (span_len isspace r) r) as Hr.
    destruct (List.find (fun w => ci_prefix w (drop (span_len isspace r) r)) modifiers)
      as [w |] eqn:Hfind; [| discriminate].
    apply List.find_some in Hfind as [Hin Hw].
    exists (take (span_len isspace s) s), (take (span_len isspace r) r),
      (drop (span_len isspace r) r).
    split; [etransitivity; [symmetry; exact Hs |]; do 2 f_equal; symmetry; exact Hr |].
    split; [exact Hsp |]. split; [exact Hsp' |].
    exists w. split; assumption.
Qed.

Lemma tails_all (s : str) (pre post : str) : s = pre ++ post -> In post (tails s).
Proof.
  revert s. induction pre as [| c pre IH]; intros s ->.
  - destruct post; left; reflexivity.
  - right. apply IH. reflexivity.
Qed.

(** A title in which neither pattern matches anywhere is only
    stripped. *)
Lemma clean_song_kept (artist song : str) :
  (forall pre post, song = pre ++ post -> ~ parens_match post) ->
  (forall pre post, song = pre ++ post -> ~ modifier_match post) ->
  (clean_search_terms artist song).2 = strip song.
Proof.
  intros Hp Hm. unfold clean_search_terms. cbn [snd].
  rewrite (re_sub_delete_none match_parens)
    by (intros pre post H; apply match_parens_iff, (Hp pre post H)).
  rewrite re_sub_delete_none
    by (intros pre post H; apply match_modifier_iff, (Hm pre post H)).
  reflexivity.
Qed.

(** The title is cut where the leftmost modifier starts, and
    stripped. *)
Lemma clean_song_modifier_first (artist t sp sp' m : str) :
  (forall pre post, t ++ sp ++ 45 :: sp' ++ m = pre ++ post -> ~ parens_match post) ->
  (forall pre post, t = pre ++ post -> post <> [] ->
     ~ modifier_match (post ++ sp ++ 45 :: sp' ++ m)) ->
  Forall (fun c => isspace c = true) sp ->
  Forall (fun c => isspace c = true) sp' ->
  starts_with_modifier m ->
  Forall (fun c => c <> 10) m ->
  (clean_search_terms artist (t ++ sp ++ 45 :: sp' ++ m)).2 = strip t.
Proof.
  intros Hp Hfirst Hsp Hsp' Hm Hnl. unfold clean_search_terms. cbn [snd].
  rewrite (re_sub_delete_none match_parens)
    by (intros pre post H; apply match_parens_iff, (Hp pre post H)).
  rewrite re_sub_delete_tail; [reflexivity | | |].
  - intros pre post Ht Hne. apply match_modifier_iff, (Hfirst pre post Ht Hne).
  - destruct sp; discriminate.
  - apply match_modifier_whole; assumption.
Qed.

(** The two hypotheses on the positions of a text, decided by running
    the patterns at each of them. *)
Lemma no_parens_match_check (s : str) :
  forallb (fun post => bool_decide (match_parens post = None)) (tails s) = true ->
  forall pre post, s = pre ++ post -> ~ parens_match post.
Proof.
  intros H pre post Hs. apply match_parens_iff.
  rewrite forallb_forall in H. specialize (H post (tails_all s pre post Hs)).
  apply bool_decide_eq_true in H. exact H.
Qed.

Lemma no_modifier_match_check (t tail : str) :
  forallb (fun post => match post with
                       | [] => true
                       | _ :: _ => bool_decide (match_modifier (post ++ tail) = None)
                       end) (tails t) = true ->
  forall pre post, t = pre ++ post -> post <> [] -> ~ modifier_match (post ++ tail).
Proof.
  intros H pre post Ht Hne. apply match_modifier_iff.
  rewrite forallb_forall in H. specialize (H post (tails_all t pre post Ht)).
  destruct post; [contradiction |]. apply bool_decide_eq_true in H. exact H.
Qed.

(** C7, as stated, fails: in "Foo feat.Bar" the separator "feat." is not
    followed by white space, and the artist is kept whole where cutting
    at the separator gives "Foo".  (With the space, "Foo feat. Bar", both
    give "Foo".) *)
Lemma featuring_needs_spaces :
  (clean_search_terms (lit "Foo feat.Bar") (lit "Song")).1 = lit "Foo feat.Bar"
  /\ artist_as_stated (lit "Foo feat.Bar") = lit "Foo"
  /\ artist_as_stated (lit "Foo feat. Bar") = lit "Foo".
Proof. split; [| split]; vm_compute; reflexivity. Qed.

(** C7, amended. Normalization of the title: a parenthesised suffix is
    stripped with the white space around it; a trailing "- Live",
    "- Acoustic", "- Demo" or "- Remix" modifier, in any letter case, is
    stripped from the white space before its dash up to the end of the
    line, whether or not the title before it has dashes of its own; a
    title in which there is neither a parenthesised group nor such a
    modifier is kept, hyphens included, and only loses the white space at
    its two ends.  Normalization of the artist: the artist is cut at the
    first featuring separator ("feat.", "ft." or "featuring", in any
    letter case) that has white space before and after it, which keeps
    the primary artist; an artist without such a separator is kept; in
    both cases the white space at the two ends is stripped.  The query
    plan for the normalized pair is "{artist} {title} official music
    video", "{artist} {title} music video", "{artist} {title} official",
    "{artist} {title}", in this order; both versions send the queries in
    this order and stop at the first one that yields a candidate (all
    four are sent when none does).  Artist "Foo feat. Bar" and title
    "Song (Remastered)" normalize to ("Foo", "Song"), and the first query
    sent is "Foo Song official music video". *)
Theorem normalize_and_query_plan :
  (forall artist t sp inner sp',
      Forall (fun c => c <> 40) t -> no_space_at_end t ->
      Forall (fun c => isspace c = true) sp ->
      Forall (fun c => c <> 41) inner ->
      Forall (fun c => isspace c = true) sp' ->
      (clean_search_terms artist (t ++ sp ++ 40 :: inner ++ 41 :: sp')).2
      = (clean_search_terms artist t).2)
  /\ (forall artist t sp sp' m,
      Forall (fun c => c <> 40) t -> Forall (fun c => c <> 45) t -> no_space_at_end t ->
      Forall (fun c => isspace c = true) sp ->
      Forall (fun c => isspace c = true) sp' ->
      starts_with_modifier m ->
      Forall (fun c => c <> 10) m -> Forall (fun c => c <> 40) m ->
      (clean_search_terms artist (t ++ sp ++ 45 :: sp' ++ m)).2 = strip t)
  /\ (forall artist t sp sp' m,
      (forall pre post, t ++ sp ++ 45 :: sp' ++ m = pre ++ post -> ~ parens_match post) ->
      (forall pre post, t = pre ++ post -> post <> [] ->
         ~ modifier_match (post ++ sp ++ 45 :: sp' ++ m)) ->
      Forall (fun c => isspace c = true) sp ->
      Forall (fun c => isspace c = true) sp' ->
      starts_with_modifier m ->
      Forall (fun c => c <> 10) m ->
      (clean_search_terms artist (t ++ sp ++ 45 :: sp' ++ m)).2 = strip t)
  /\ (forall artist song,
      (forall pre post, song = pre ++ post -> ~ parens_match post) ->
      (forall pre post, song = pre ++ post -> ~ modifier_match post) ->
      (clean_search_terms artist song).2 = strip song
      /\ (no_space_at_start song -> no_space_at_end song ->
          (clean_search_terms artist song).2 = song))
  /\ (forall a tail song,
      featuring_match tail ->
      (forall pre post, a = pre ++ post -> post <> [] -> ~ featuring_match (post ++ tail)) ->
      (clean_search_terms (a ++ tail) song).1 = strip a)
  /\ (forall artist song,
      (forall pre post, artist = pre ++ post -> ~ featuring_match post) ->
      (clean_search_terms artist song).1 = strip artist
      /\ (no_space_at_start artist -> no_space_at_end artist ->
          (clean_search_terms artist song).1 = artist))
  /\ (forall t, no_space_at_start (strip t) /\ no_space_at_end (strip t) /\ occurs_in (strip t) t)
  /\ (forall ca cs,
      search_queries ca cs
      = [ ca ++ lit " " ++ cs ++ lit " official music video";
          ca ++ lit " " ++ cs ++ lit " music video";
          ca ++ lit " " ++ cs ++ lit " official";
          ca ++ lit " " ++ cs ])
  /\ (forall w ys artist song before q after items,
      let '(ca, cs) := clean_search_terms artist song in
      youtube ys = true -> search_cache ys !! search_key w ca cs = None ->
      search_queries ca cs = before ++ q :: after ->
      Forall (fun q' => youtube_search w q' = inr []) before ->
      youtube_search w q = inr items -> items <> [] ->
      searched (NoGui.search_video w ys artist song).2 = before ++ [q]
      /\ searched (Gui.search_video w ys artist song).2 = before ++ [q])
  /\ (forall w ys artist song,
      let '(ca, cs) := clean_search_terms artist song in
      youtube ys = true -> search_cache ys !! search_key w ca cs = None ->
      Forall (fun q' => youtube_search w q' = inr []) (search_queries ca cs) ->
      searched (NoGui.search_video w ys artist song).2 = search_queries ca cs
      /\ searched (Gui.search_video w ys artist song).2 = search_queries ca cs)
  /\ clean_search_terms (lit "Foo feat. Bar") (lit "Song (Remastered)")
     = (lit "Foo", lit "Song")
  /\ clean_search_terms (lit " Foo ") (lit "Semi-Charmed Life")
     = (lit "Foo", lit "Semi-Charmed Life")
  /\ clean_search_terms (lit "Foo FT. Bar") (lit "Semi-Charmed Life  -  REMIX 2 (Live)")
     = (lit "Foo", lit "Semi-Charmed Life")
  /\ head (searched (NoGui.search_video sample_world sample_searcher
                       (lit "Foo feat. Bar") (lit "Song (Remastered)")).2)
     = Some (lit "Foo Song official music video")
  /\ head (searched (Gui.search_video sample_world sample_searcher
                       (lit "Foo feat. Bar") (lit "Song (Remastered)")).2)
     = Some (lit "Foo Song official music video").
Proof.
  split; [exact clean_song_parens |].
  split; [exact clean_song_modifier |].
  split; [exact clean_song_modifier_first |].
  split.
  { intros artist song Hp Hm. pose proof (clean_song_kept artist song Hp Hm) as H.
    split; [exact H |]. intros Hs He. rewrite H. apply strip_id; assumption. }
  split; [exact clean_artist_first |].
  split.
  { intros artist song Hnone. pose proof (clean_artist_none artist song Hnone) as H.
    split; [exact H |]. intros Hs He. rewrite H. apply strip_id; assumption. }
  split; [exact strip_trimmed |].
  split; [reflexivity |].
  split.
  { intros w ys artist song before q after items.
    pose proof (search_video_first w ys artist song before q after items) as H.
    destruct (clean_search_terms artist song) as [ca cs].
    intros Hy Hc Hplan Hb Hq Hne.
    destruct (H Hy Hc Hplan Hb Hq Hne)
      as (found & _ & (ys1 & e1 & -> & He1) & (ys2 & e2 & -> & He2)).
    split; assumption. }
  split.
  { intros w ys artist song.
    pose proof (search_video_nothing w ys artist song) as H.
    destruct (clean_search_terms artist song) as [ca cs].
    intros Hy Hc Hall. destruct (H Hy Hc Hall) as (_ & H1 & _ & H2). split; assumption. }
  split; [vm_compute; reflexivity |].
  split; [vm_compute; reflexivity |].
  split; [vm_compute; reflexivity |].
  split; vm_compute; reflexivity.
Qed.

(** Title "Semi-Charmed Life - LIVE at Wembley": the hyphen of the
    title is kept, and the modifier is found whatever its case. *)
Lemma normalize_and_query_plan_witness :
  (clean_search_terms (lit "Third Eye Blind")
     (lit "Semi-Charmed Life" ++ lit " " ++ 45 :: lit " " ++ lit "LIVE at Wembley")).2
  = lit "Semi-Charmed Life".
Proof.
  rewrite (proj1 (proj2 (proj2 normalize_and_query_plan))).
  - vm_compute. reflexivity.
  - apply no_parens_match_check. vm_compute. reflexivity.
  - apply no_modifier_match_check. vm_compute. reflexivity.
  - repeat constructor.
  - repeat constructor.
  - exists (lit "live"). split; [left; reflexivity | reflexivity].
  - repeat constructor; discriminate.
Defined.

(** ** The selection among candidates *)

Lemma prefixb_spec (p s : str) : prefixb p s = true <-> exists post, s = p ++ post.
Proof.
  revert s. induction p as [| a p IH]; intros s; simpl.
  - split; [intros _; exists s; reflexivity | reflexivity].
  - destruct s as [| b s].
    + split; [discriminate | intros [post H]; discriminate].
    + rewrite andb_true_iff, Z.eqb_eq, IH. split.
      * intros [-> [post ->]]. exists post. reflexivity.
      * intros [post [= -> ->]]. split; [reflexivity | exists post; reflexivity].
Qed.

Lemma contains_spec (s p : str) : contains s p = true <-> occurs_in p s.
Proof.
  unfold occurs_in. induction s as [| c s IH]; simpl.
  - rewrite orb_false_r, prefixb_spec. split.
    + intros [post H]. exists [], post. exact H.
    + intros (pre & post & H). destruct pre; [exists post; exact H | discriminate].
  - rewrite orb_true_iff, prefixb_spec, IH. split.
    + intros [[post H] | (pre & post & ->)].
      * exists [], post. exact H.
      * exists (c :: pre), post. reflexivity.
    + intros (pre & post & H). destruct pre as [| c' pre].
      * left. exists post. exact H.
      * right. injection H as -> ->. exists pre, post. reflexivity.
Qed.

(** The test of the code, spelled out: titles, channel names and search
    terms are compared in lower case. *)
Lemma good_match_spec (w : World) (ca cs : str) (item : Item) :
  good_match w ca cs item = true
  <-> (occurs_in (lower w cs) (lower w (title item))
       /\ occurs_in (lower w ca) (lower w (title item)))
      \/ exists term, In term [lit "official"; lit "records"; lit "music"; lower w ca]
                      /\ occurs_in term (lower w (channelTitle item)).
Proof.
  unfold good_match, is_official.
  rewrite orb_true_iff, andb_true_iff, !contains_spec, existsb_exists.
  split.
  - intros [H | (term & Hin & Hc)]; [left; exact H | right].
    exists term. split; [exact Hin | apply contains_spec, Hc].
  - intros [H | (term & Hin & Hc)]; [left; exact H | right].
    exists term. split; [exact Hin | apply contains_spec, Hc].
Qed.

(** The item picked from a non-empty response: the first that passes
    the test, the first of the list if none passes. *)
Lemma pick_spec (w : World) (ca cs : str) (items : list Item) :
  items <> [] ->
  exists item passed,
    pick w ca cs items = Some (item, passed)
    /\ (passed = true ->
        good_match w ca cs item = true
        /\ exists before after,
             items = before ++ item :: after
             /\ Forall (fun i => good_match w ca cs i = false) before)
    /\ (passed = false ->
        head items = Some item
        /\ Forall (fun i => good_match w ca cs i = false) items).
Proof.
  intros Hne. unfold pick.
  assert (Hfind : forall l : list Item,
             match List.find (good_match w ca cs) l with
             | Some item =>
               good_match w ca cs item = true
               /\ exists before after, l = before ++ item :: after
                    /\ Forall (fun i => good_match w ca cs i = false) before
             | None => Forall (fun i => good_match w ca cs i = false) l
             end).
  { induction l as [| i l IH]; [constructor |].
    simpl. destruct (good_match w ca cs i) eqn:Hi.
    - split; [exact Hi |]. exists [], l. split; [reflexivity | constructor].
    - destruct (List.find (good_match w ca cs) l) as [item |].
      + destruct IH as (Hg & before & after & -> & Hb). split; [exact Hg |].
        exists (i :: before), after. split; [reflexivity | constructor; assumption].
      + constructor; assumption. }
  specialize (Hfind items).
  destruct (List.find (good_match w ca cs) items) as [item |].
  - exists item, true. split; [reflexivity |]. split; [intros _; exact Hfind | discriminate].
  - destruct items as [| first rest]; [contradiction |].
    exists first, false. split; [reflexivity |]. split; [discriminate |].
    intros _. split; [reflexivity | exact Hfind].
Qed.

(** C8, as stated, fails: for artist "Foo" and song "Song" and the two
    candidates "Unrelated clip" (channel "someone") and
    "FOO - SONG (live)" (channel "fan"), no title contains "Song" and
    "Foo" as written and no channel qualifies, so the first candidate
    should be selected; the code compares in lower case and selects the
    second. *)
Lemma selection_ignores_case :
  pick_as_stated (lit "Foo") (lit "Song") sample_items
  = Some {| videoId := lit "vid1"; title := lit "Unrelated clip";
            channelTitle := lit "someone" |}
  /\ pick sample_world (lit "Foo") (lit "Song") sample_items
     = Some ({| videoId := lit "vid2"; title := lit "FOO - SONG (live)";
                channelTitle := lit "fan" |}, true)
  /\ (NoGui.search_video sample_world sample_searcher (lit "Foo") (lit "Song")).1.1
     = Some (lit "vid2")
  /\ (Gui.search_video sample_world sample_searcher (lit "Foo") (lit "Song")).1.1
     = inr (Some (lit "vid2")).
Proof.
  split; [vm_compute; reflexivity |].
  split; [vm_compute; reflexivity |].
  split; vm_compute; reflexivity.
Qed.

(** C8, amended. For the first query of the plan for which the search
    returns at least one candidate, the candidate selected is the first
    in the response whose title, in lower case, contains both the
    normalized song and the normalized artist in lower case, or whose
    channel name, in lower case, contains "official", "records", "music"
    or the normalized artist in lower case; if no candidate passes, it is
    the first candidate of that response.  Its id is what both versions
    return. *)
Theorem selection_rule (w : World) (ys : YouTubeSearcher) (artist song : str)
    (before : list str) (q : str) (after : list str) (items : list Item) :
  let ca := (clean_search_terms artist song).1 in
  let cs := (clean_search_terms artist song).2 in
  let passes item :=
    (occurs_in (lower w cs) (lower w (title item))
     /\ occurs_in (lower w ca) (lower w (title item)))
    \/ exists term, In term [lit "official"; lit "records"; lit "music"; lower w ca]
                    /\ occurs_in term (lower w (channelTitle item)) in
  youtube ys = true -> search_cache ys !! search_key w ca cs = None ->
  search_queries ca cs = before ++ q :: after ->
  Forall (fun q' => youtube_search w q' = inr []) before ->
  youtube_search w q = inr items -> items <> [] ->
  exists item,
    (NoGui.search_video w ys artist song).1.1 = Some (videoId item)
    /\ (Gui.search_video w ys artist song).1.1 = inr (Some (videoId item))
    /\ ((passes item
         /\ exists earlier later,
              items = earlier ++ item :: later /\ Forall (fun i => ~ passes i) earlier)
        \/ (head items = Some item /\ Forall (fun i => ~ passes i) items)).
Proof.
  intros ca cs passes Hy Hc Hplan Hb Hq Hne.
  pose proof (search_video_first w ys artist song before q after items) as H.
  subst ca cs. destruct (clean_search_terms artist song) as [ca cs]. cbn [fst snd] in *.
  destruct (H Hy Hc Hplan Hb Hq Hne)
    as (found & Hpick & (ys1 & e1 & -> & _) & (ys2 & e2 & -> & _)).
  destruct (pick_spec w ca cs items Hne) as (item & passed & Hpick' & Htrue & Hfalse).
  assert (found = (item, passed)) as -> by congruence.
  exists item. split; [reflexivity |]. split; [reflexivity |].
  assert (Hno : forall l, Forall (fun i => good_match w ca cs i = false) l ->
                          Forall (fun i => ~ passes i) l).
  { intros l Hl. eapply Forall_impl; [exact Hl |]. intros i Hi Hp.
    apply good_match_spec in Hp. congruence. }
  destruct passed.
  - left. destruct (Htrue eq_refl) as (Hg & earlier & later & Hsplit & Hearlier).
    split; [apply good_match_spec, Hg |]. exists earlier, later. auto.
  - right. destruct (Hfalse eq_refl) as (Hhead & Hall). auto.
Qed.

Lemma selection_rule_witness :
  exists item,
    (NoGui.search_video sample_world sample_searcher (lit "Foo") (lit "Song")).1.1
    = Some (videoId item)
    /\ (Gui.search_video sample_world sample_searcher (lit "Foo") (lit "Song")).1.1
       = inr (Some (videoId item)).
Proof.
  destruct (selection_rule sample_world sample_searcher (lit "Foo") (lit "Song")
              [] (lit "Foo Song official music video")
              [lit "Foo Song music video"; lit "Foo Song official"; lit "Foo Song"]
              sample_items)
    as (item & H1 & H2 & _).
  - reflexivity.
  - reflexivity.
  - vm_compute. reflexivity.
  - constructor.
  - reflexivity.
  - discriminate.
  - exists item. split; assumption.
Defined.

(** * Further properties *)

(** ** The search cache *)

(** What a search does to the searcher, console version: nothing, unless
    it found a video under a key the cache did not hold, which it then
    stores. *)
Lemma nogui_search_video_cases (w : World) (ys : YouTubeSearcher) (artist song : str) :
  let r := NoGui.search_video w ys artist song in
  let key := key_of w artist song in
  (r.1.1 = None /\ r.1.2 = ys)
  \/ exists id,
       r.1.1 = Some id /\ youtube ys = true
       /\ ((search_cache ys !! key = Some id /\ r.1.2 = ys /\ r.2 = [Print (MUsingCached key)])
           \/ (search_cache ys !! key = None
               /\ r.1.2 = set_search_cache ys (<[ key := id ]> (search_cache ys)))).
Proof.
  unfold NoGui.search_video, key_of.
  destruct (youtube ys) eqn:Hy; cbn [negb]; [| left; split; reflexivity].
  destruct (clean_search_terms artist song) as [ca cs]. cbn [fst snd].
  destruct (search_cache ys !! search_key w ca cs) as [id |] eqn:Hc.
  - right. exists id. split; [reflexivity |]. split; [reflexivity |]. left. auto.
  - destruct (search_loop w NoGui.say ca cs (search_queries ca cs)) as [r e].
    destruct r as [[] | [found |]]; cbn [fst snd]; try (left; split; reflexivity).
    right. exists (videoId found.1). split; [reflexivity |]. split; [reflexivity |].
    right. split; reflexivity.
Qed.

Lemma gui_search_video_cases (w : World) (ys : YouTubeSearcher) (artist song : str) :
  let r := Gui.search_video w ys artist song in
  let key := key_of w artist song in
  ((r.1.1 = inr None \/ exists err, r.1.1 = inl err) /\ r.1.2 = ys)
  \/ exists id,
       r.1.1 = inr (Some id) /\ youtube ys = true
       /\ ((search_cache ys !! key = Some id /\ r.1.2 = ys /\ r.2 = [])
           \/ (search_cache ys !! key = None
               /\ r.1.2 = set_search_cache ys (<[ key := id ]> (search_cache ys)))).
Proof.
  unfold Gui.search_video, key_of.
  destruct (youtube ys) eqn:Hy; cbn [negb]; [| left; split; [left |]; reflexivity].
  destruct (clean_search_terms artist song) as [ca cs]. cbn [fst snd].
  destruct (search_cache ys !! search_key w ca cs) as [id |] eqn:Hc.
  - right. exists id. split; [reflexivity |]. split; [reflexivity |]. left. auto.
  - destruct (search_loop w (fun _ => []) ca cs (search_queries ca cs)) as [r e].
    destruct r as [err | [found |]]; cbn [fst snd].
    + left. split; [right; exists err |]; reflexivity.
    + right. exists (videoId found.1). split; [reflexivity |]. split; [reflexivity |].
      right. split; reflexivity.
    + left. split; [left |]; reflexivity.
Qed.

(** A hit answers from the cache alone. *)
Lemma search_video_hit (w : World) (ys : YouTubeSearcher) (artist song id : str) :
  youtube ys = true -> search_cache ys !! key_of w artist song = Some id ->
  NoGui.search_video w ys artist song
  = (Some id, ys, [Print (MUsingCached (key_of w artist song))])
  /\ Gui.search_video w ys artist song = (inr (Some id), ys, []).
Proof.
  intros Hy Hc. unfold NoGui.search_video, Gui.search_video, key_of in *. rewrite Hy.
  destruct (clean_search_terms artist song) as [ca cs]. cbn [fst snd negb] in *.
  rewrite Hc. split; reflexivity.
Qed.

(** X1. Once a search has found a video for a pair, a later search for
    any pair with the same normalized key (the same pair, for one)
    returns the same id from the cache and sends no query to the API; the
    searcher is left as it is.  Both versions. *)
Theorem search_twice_hits_cache (w : World) (ys : YouTubeSearcher)
    (artist song artist' song' id : str) :
  key_of w artist' song' = key_of w artist song ->
  (forall ys1 e,
      NoGui.search_video w ys artist song = (Some id, ys1, e) ->
      NoGui.search_video w ys1 artist' song'
      = (Some id, ys1, [Print (MUsingCached (key_of w artist song))]))
  /\ (forall ys1 e,
      Gui.search_video w ys artist song = (inr (Some id), ys1, e) ->
      Gui.search_video w ys1 artist' song' = (inr (Some id), ys1, [])).
Proof.
  intros Hkey. split.
  - intros ys1 e H.
    pose proof (nogui_search_video_cases w ys artist song) as Hc.
    rewrite H in Hc. cbn [fst snd] in Hc.
    destruct Hc as [[Hn _] | (id' & Hid & Hy & Hc)]; [discriminate |].
    injection Hid as <-. rewrite <- Hkey.
    apply search_video_hit.
    + destruct Hc as [(_ & -> & _) | (_ & ->)]; exact Hy.
    + rewrite Hkey. destruct Hc as [(Hc & -> & _) | (_ & ->)]; [exact Hc |].
      cbn. apply lookup_insert_eq.
  - intros ys1 e H.
    pose proof (gui_search_video_cases w ys artist song) as Hc.
    rewrite H in Hc. cbn [fst snd] in Hc.
    destruct Hc as [[[Hn | [err Hn]] _] | (id' & Hid & Hy & Hc)]; [discriminate .. |].
    injection Hid as <-.
    apply search_video_hit.
    + destruct Hc as [(_ & -> & _) | (_ & ->)]; exact Hy.
    + rewrite Hkey. destruct Hc as [(Hc & -> & _) | (_ & ->)]; [exact Hc |].
      cbn. apply lookup_insert_eq.
Qed.

Lemma search_twice_hits_cache_witness :
  exists ys1 e,
    NoGui.search_video sample_world sample_searcher (lit "Foo") (lit "Song")
    = (Some (lit "vid2"), ys1, e)
    /\ NoGui.search_video sample_world ys1 (lit "FOO feat. Bar") (lit "song (Live)")
       = (Some (lit "vid2"), ys1, [Print (MUsingCached (lit "foo - song"))]).
Proof.
  eexists _, _. split; [vm_compute; reflexivity |].
  apply (proj1 (search_twice_hits_cache sample_world sample_searcher
                  (lit "Foo") (lit "Song") (lit "FOO feat. Bar") (lit "song (Live)")
                  (lit "vid2") ltac:(vm_compute; reflexivity)) _ _ eq_refl).
Defined.

(** X2. A search never removes or changes a cache entry.  It adds the
    entry of its own key when it finds a video the cache did not hold;
    every other key is untouched, and the searcher as a whole is left as
    it is when the search returns no video (no client, nothing found, or
    an error of the API).  Both versions. *)
Theorem search_cache_grows (w : World) (ys : YouTubeSearcher) (artist song : str) :
  let n := NoGui.search_video w ys artist song in
  let g := Gui.search_video w ys artist song in
  search_cache ys ⊆ search_cache n.1.2
  /\ search_cache ys ⊆ search_cache g.1.2
  /\ (forall key, key <> key_of w artist song ->
        search_cache n.1.2 !! key = search_cache ys !! key
        /\ search_cache g.1.2 !! key = search_cache ys !! key)
  /\ (n.1.1 = None -> n.1.2 = ys)
  /\ ((forall id, g.1.1 <> inr (Some id)) -> g.1.2 = ys)
  /\ youtube n.1.2 = youtube ys /\ youtube g.1.2 = youtube ys.
Proof.
  cbv zeta.
  pose proof (nogui_search_video_cases w ys artist song) as Hn.
  pose proof (gui_search_video_cases w ys artist song) as Hg.
  cbv zeta in Hn, Hg.
  destruct (NoGui.search_video w ys artist song) as [[rn yn] en].
  destruct (Gui.search_video w ys artist song) as [[rg yg] eg].
  cbn [fst snd] in *.
  assert (Hn' : yn = ys \/ exists id, search_cache ys !! key_of w artist song = None
                 /\ yn = set_search_cache ys (<[ key_of w artist song := id ]> (search_cache ys))).
  { destruct Hn as [[_ ->] | (id & _ & _ & [(_ & -> & _) | (Hc & ->)])]; eauto. }
  assert (Hg' : yg = ys \/ exists id, search_cache ys !! key_of w artist song = None
                 /\ yg = set_search_cache ys (<[ key_of w artist song := id ]> (search_cache ys))).
  { destruct Hg as [[_ ->] | (id & _ & _ & [(_ & -> & _) | (Hc & ->)])]; eauto. }
  repeat split.
  - destruct Hn' as [-> | (id & Hc & ->)]; [reflexivity |]. cbn. by apply insert_subseteq.
  - destruct Hg' as [-> | (id & Hc & ->)]; [reflexivity |]. cbn. by apply insert_subseteq.
  - destruct Hn' as [-> | (id & Hc & ->)]; [reflexivity |]. cbn. by apply lookup_insert_ne.
  - destruct Hg' as [-> | (id & Hc & ->)]; [reflexivity |]. cbn. by apply lookup_insert_ne.
  - intros ->. destruct Hn as [[_ ->] | (id & Hid & _)]; [reflexivity | discriminate].
  - intros Hno. destruct Hg as [[_ ->] | (id & Hid & _)]; [reflexivity |].
    exfalso. exact (Hno id Hid).
  - destruct Hn' as [-> | (id & Hc & ->)]; reflexivity.
  - destruct Hg' as [-> | (id & Hc & ->)]; reflexivity.
Qed.

(** ** Calls to the outside *)

Lemma resolved_app (a b : list Effect) : resolved (a ++ b) = resolved a ++ resolved b.
Proof. apply flat_map_app. Qed.

Lemma started_app (a b : list Effect) : started (a ++ b) = started a ++ started b.
Proof. apply flat_map_app. Qed.

Lemma searched_debug (cfg : NoGui.Config) (d : list DebugMsg) : searched (NoGui.debug cfg d) = [].
Proof. unfold NoGui.debug. destruct (NoGui.DEBUG_MODE cfg); [| reflexivity]. induction d; auto. Qed.

Lemma resolved_debug (cfg : NoGui.Config) (d : list DebugMsg) : resolved (NoGui.debug cfg d) = [].
Proof. unfold NoGui.debug. destruct (NoGui.DEBUG_MODE cfg); [| reflexivity]. induction d; auto. Qed.

Lemma started_debug (cfg : NoGui.Config) (d : list DebugMsg) : started (NoGui.debug cfg d) = [].
Proof. unfold NoGui.debug. destruct (NoGui.DEBUG_MODE cfg); [| reflexivity]. induction d; auto. Qed.

Lemma searched_gui_say (cb : bool) (m : Msg) : searched (Gui.say cb m) = [].
Proof. destruct cb; reflexivity. Qed.

Lemma resolved_gui_say (cb : bool) (m : Msg) : resolved (Gui.say cb m) = [].
Proof. destruct cb; reflexivity. Qed.

Lemma started_gui_say (cb : bool) (m : Msg) : started (Gui.say cb m) = [].
Proof. destruct cb; reflexivity. Qed.

Create Rewrite HintDb calls.
#[local] Hint Rewrite searched_app resolved_app started_app @length_app
  searched_debug resolved_debug started_debug
  searched_gui_say resolved_gui_say started_gui_say : calls.

Ltac tally := unfold within in *; cbn [fst snd] in *; autorewrite with calls in *; simpl in *; lia.

Ltac split_ifs :=
  repeat match goal with
         | |- context [if ?b then _ else _] => destruct b
         end.

Lemma pick_none (w : World) (a s : str) (items : list Item) :
  pick w a s items = None -> items = [].
Proof.
  unfold pick. destruct (find _ items); [discriminate |]. destruct items; [reflexivity | discriminate].
Qed.

(** The loop sends the queries of its list in order, and goes on to the
    next one only after an empty response. *)
Lemma search_loop_queries (w : World) (say : Msg -> list Effect) (a s : str) (qs : list str) :
  (forall m, searched (say m) = []) ->
  searched (search_loop w say a s qs).2 `prefix_of` qs
  /\ forall sent q, searched (search_loop w say a s qs).2 = sent ++ [q] ->
       Forall (fun q' => youtube_search w q' = inr []) sent.
Proof.
  intros Hsay. induction qs as [| q0 qs [IHp IHs]].
  - split; [exists []; reflexivity |]. intros [] q H; discriminate H.
  - assert (Hone : forall sent q, [q0] = sent ++ [q] ->
                     Forall (fun q' => youtube_search w q' = inr []) sent).
    { intros [| x [| y sent]] q H; [constructor | discriminate H | discriminate H]. }
    cbn [search_loop].
    destruct (youtube_search w q0) as [err | items] eqn:Hq.
    + cbn [snd]. rewrite searched_app, Hsay. split; [exists qs; reflexivity | exact Hone].
    + destruct (pick w a s items) as [found |] eqn:Hp.
      * cbn [snd]. rewrite !searched_app, !Hsay. split; [exists qs; reflexivity | exact Hone].
      * apply pick_none in Hp. subst items.
        destruct (search_loop w say a s qs) as [r e]. cbn [snd] in *.
        rewrite !searched_app, Hsay.
        change (searched [ApiSearch q0]) with [q0]. cbn [app].
        split; [by apply prefix_cons |].
        intros [| x sent] q H; [constructor |].
        injection H as <- H. constructor; [exact Hq | exact (IHs _ _ H)].
Qed.

(** What [say] prints changes neither the result of the loop nor the
    queries it sends. *)
Lemma search_loop_say (w : World) (say1 say2 : Msg -> list Effect) (a s : str) (qs : list str) :
  (forall m, searched (say1 m) = []) -> (forall m, searched (say2 m) = []) ->
  (search_loop w say1 a s qs).1 = (search_loop w say2 a s qs).1
  /\ searched (search_loop w say1 a s qs).2 = searched (search_loop w say2 a s qs).2.
Proof.
  intros H1 H2. induction qs as [| q0 qs [IHr IHe]]; [split; reflexivity |].
  cbn [search_loop]. destruct (youtube_search w q0) as [err | items].
  - cbn [fst snd]. rewrite !searched_app, H1, H2. split; reflexivity.
  - destruct (pick w a s items) as [found |].
    + cbn [fst snd]. rewrite !searched_app, !H1, !H2. split; reflexivity.
    + destruct (search_loop w say1 a s qs) as [r1 e1], (search_loop w say2 a s qs) as [r2 e2].
      cbn [fst snd] in *. rewrite !searched_app, H1, H2, IHe. split; [exact IHr | reflexivity].
Qed.

(** X3. The queries [search_video] sends are an initial part of the
    plan of four built from the normalized terms, in its order, and
    every query but the last one sent got an empty response: the search
    stops at the first response with an item, or at the first error.
    Both versions. *)
Theorem search_video_queries (w : World) (ys : YouTubeSearcher) (artist song : str) :
  let plan := search_queries (clean_search_terms artist song).1 (clean_search_terms artist song).2 in
  let n := searched (NoGui.search_video w ys artist song).2 in
  let g := searched (Gui.search_video w ys artist song).2 in
  n `prefix_of` plan
  /\ g `prefix_of` plan
  /\ (length n <= 4)%nat /\ (length g <= 4)%nat
  /\ (forall sent q, n = sent ++ [q] -> Forall (fun q' => youtube_search w q' = inr []) sent)
  /\ (forall sent q, g = sent ++ [q] -> Forall (fun q' => youtube_search w q' = inr []) sent).
Proof.
  cbv zeta.
  assert (Hnil : forall sent (q : str), [] = sent ++ [q] ->
                   Forall (fun q' => youtube_search w q' = inr []) sent).
  { intros [] q H; discriminate H. }
  assert (H : let plan := search_queries (clean_search_terms artist song).1
                            (clean_search_terms artist song).2 in
              let n := searched (NoGui.search_video w ys artist song).2 in
              let g := searched (Gui.search_video w ys artist song).2 in
              (n `prefix_of` plan
               /\ forall sent q, n = sent ++ [q] ->
                    Forall (fun q' => youtube_search w q' = inr []) sent)
              /\ (g `prefix_of` plan
                  /\ forall sent q, g = sent ++ [q] ->
                       Forall (fun q' => youtube_search w q' = inr []) sent)).
  { cbv zeta. unfold NoGui.search_video, Gui.search_video.
    destruct (negb (youtube ys)).
    { cbn [snd]. split; (split; [apply prefix_nil | exact Hnil]). }
    destruct (clean_search_terms artist song) as [ca cs]. cbn [fst snd].
    destruct (search_cache ys !! search_key w ca cs).
    { cbn [snd]. split; (split; [apply prefix_nil | exact Hnil]). }
    pose proof (search_loop_queries w NoGui.say ca cs (search_queries ca cs)
                  (fun _ => eq_refl)) as Hn.
    pose proof (search_loop_queries w (fun _ => []) ca cs (search_queries ca cs)
                  (fun _ => eq_refl)) as Hg.
    destruct (search_loop w NoGui.say ca cs (search_queries ca cs)) as [rn en].
    destruct (search_loop w (fun _ => []) ca cs (search_queries ca cs)) as [rg eg].
    cbn [snd] in Hn, Hg. split.
    - destruct rn as [[] | [found |]]; cbn [snd]; rewrite ?searched_app, ?app_nil_r; exact Hn.
    - destruct rg as [err | [found |]]; cbn [snd]; exact Hg. }
  cbv zeta in H. destruct H as [[Hn1 Hn2] [Hg1 Hg2]].
  repeat split; try assumption.
  - apply prefix_length in Hn1. exact Hn1.
  - apply prefix_length in Hg1. exact Hg1.
Qed.

(** X4. For the same searcher and the same pair, the two versions send
    the same queries and leave the same searcher; the console returns
    what the GUI returns, with [None] where the GUI raises. *)
Theorem gui_search_agrees_with_console (w : World) (ys : YouTubeSearcher) (artist song : str) :
  let n := NoGui.search_video w ys artist song in
  let g := Gui.search_video w ys artist song in
  n.1.1 = caught g.1.1
  /\ n.1.2 = g.1.2
  /\ searched n.2 = searched g.2.
Proof.
  cbv zeta. unfold NoGui.search_video, Gui.search_video.
  destruct (negb (youtube ys)); [repeat split |].
  destruct (clean_search_terms artist song) as [ca cs].
  destruct (search_cache ys !! search_key w ca cs); [repeat split |].
  pose proof (search_loop_say w NoGui.say (fun _ => []) ca cs (search_queries ca cs)
                (fun _ => eq_refl) (fun _ => eq_refl)) as [Hr He].
  destruct (search_loop w NoGui.say ca cs (search_queries ca cs)) as [rn en].
  destruct (search_loop w (fun _ => []) ca cs (search_queries ca cs)) as [rg eg].
  cbn [fst snd] in Hr, He. subst rg.
  destruct rn as [[] | [found |]]; cbn [fst snd caught];
    rewrite ?searched_app, ?app_nil_r; repeat split; exact He.
Qed.

(** *** What one call of each function may ask of the outside *)

Lemma within_search_loop_nogui (w : World) (a s : str) (qs : list str) :
  within (length qs) 0 0 (search_loop w NoGui.say a s qs).2.
Proof.
  induction qs as [| q qs IH]; [tally |].
  cbn [search_loop]. destruct (youtube_search w q); [tally |].
  destruct (pick w a s _) as [[item []] |]; [tally | tally |].
  destruct (search_loop w NoGui.say a s qs). tally.
Qed.

Lemma within_search_loop_gui (w : World) (a s : str) (qs : list str) :
  within (length qs) 0 0 (search_loop w (fun _ => []) a s qs).2.
Proof.
  induction qs as [| q qs IH]; [tally |].
  cbn [search_loop]. destruct (youtube_search w q); [tally |].
  destruct (pick w a s _) as [[item []] |]; [tally | tally |].
  destruct (search_loop w _ a s qs). tally.
Qed.

Module NoGuiCalls.
Import NoGui.

Lemma nogui_search_video_calls (w : World) (ys : YouTubeSearcher) (a s : str) :
  within 4 0 0 (search_video w ys a s).2.
Proof.
  unfold search_video. destruct (negb (youtube ys)); [tally |].
  destruct (clean_search_terms a s) as [ca cs].
  destruct (search_cache ys !! search_key w ca cs); [tally |].
  assert (Hq : within 4 0 0 (search_loop w say ca cs (search_queries ca cs)).2)
    by exact (within_search_loop_nogui w ca cs (search_queries ca cs)).
  destruct (search_loop w say ca cs (search_queries ca cs)) as [r e].
  destruct r as [[] | [found |]]; tally.
Qed.

Lemma nogui_stop_current_video_calls (w : World) (p : VLCPlayer) :
  within 0 0 0 (stop_current_video w p).2.
Proof.
  unfold stop_current_video. destruct (current_process p) as [proc |]; [| tally].
  destruct (still_running w proc); [| tally].
  destruct (terminate_result w proc); tally.
Qed.

Lemma nogui_play_video_calls (w : World) (cfg : Config) (p : VLCPlayer) (url id a s : str) :
  within 0 0 2 (play_video w cfg p url id a s).2.
Proof.
  unfold play_video. destruct (negb (truthy (vlc_path p))); [tally |].
  pose proof (nogui_stop_current_video_calls w p) as Hs.
  destruct (stop_current_video w p) as [p1 e1].
  split_ifs; tally.
Qed.

Lemma nogui_start_pending_video_calls (w : World) (cfg : Config) (l : RB3EventListener) :
  within 0 0 2 (start_pending_video w cfg l).2.
Proof.
  unfold start_pending_video.
  destruct (pending_video l) as [[[[url id] a] s] |]; [| tally].
  pose proof (nogui_play_video_calls w cfg (vlc_player l) url id a s) as Hp.
  destruct (play_video w cfg (vlc_player l) url id a s) as [p e].
  split_ifs; tally.
Qed.

Lemma nogui_handle_state_change_calls (w : World) (cfg : Config) (l : RB3EventListener)
    (packet_data : str) :
  within 0 0 2 (handle_state_change w cfg l packet_data).2.
Proof.
  unfold handle_state_change. destruct (decode_state packet_data) as [v |]; [| tally].
  destruct ((game_state l =? 0) && (v =? 1)).
  - destruct (bool_decide (is_Some (pending_video l)) && SYNC_VIDEO_TO_SONG cfg); [| tally].
    pose proof (nogui_start_pending_video_calls w cfg l) as Hs.
    destruct (start_pending_video w cfg l) as [l1 e1]. tally.
  - destruct ((game_state l =? 1) && (v =? 0)); [| tally].
    destruct (AUTO_QUIT_ON_MENU cfg); [| tally].
    pose proof (nogui_stop_current_video_calls w (vlc_player l)) as Hs.
    destruct (stop_current_video w (vlc_player l)) as [p e]. tally.
Qed.

Lemma nogui_prepare_video_calls (w : World) (cfg : Config) (l : RB3EventListener) :
  within 4 1 2 (prepare_video w cfg l).2.
Proof.
  unfold prepare_video.
  pose proof (nogui_search_video_calls w (youtube_searcher l) (current_artist l) (current_song l)) as Hs.
  destruct (search_video w (youtube_searcher l) (current_artist l) (current_song l))
    as [[video_id ys] e_search].
  destruct (truthy video_id); [| tally].
  destruct (truthy (get_stream_url w (default [] video_id))); [| tally].
  cbn [game_state set_pending_video set_youtube_searcher].
  destruct (game_state l =? 1); [| tally].
  match goal with
  | |- context [start_pending_video w cfg ?l0] =>
    pose proof (nogui_start_pending_video_calls w cfg l0) as Hq;
    destruct (start_pending_video w cfg l0) as [l1 e1]
  end.
  tally.
Qed.

Lemma nogui_play_current_song_calls (w : World) (cfg : Config) (l : RB3EventListener) :
  within 4 1 2 (play_current_song w cfg l).2.
Proof.
  unfold play_current_song.
  pose proof (nogui_search_video_calls w (youtube_searcher l) (current_artist l) (current_song l)) as Hs.
  destruct (search_video w (youtube_searcher l) (current_artist l) (current_song l))
    as [[video_id ys] e_search].
  destruct (truthy video_id); [| tally].
  destruct (truthy (get_stream_url w (default [] video_id))); [| tally].
  match goal with
  | |- context [play_video w cfg ?p ?u ?i ?a ?s] =>
    pose proof (nogui_play_video_calls w cfg p u i a s) as Hq;
    destruct (play_video w cfg p u i a s) as [p1 e1]
  end.
  tally.
Qed.

Lemma nogui_trigger_calls (w : World) (cfg : Config) (l : RB3EventListener) :
  within 4 1 2 (trigger w cfg l).2
  /\ (both_known l = false -> trigger w cfg l = (l, [])).
Proof.
  unfold trigger. destruct (both_known l); [| split; [tally | reflexivity]].
  split; [| discriminate].
  destruct (SYNC_VIDEO_TO_SONG cfg && PRELOAD_VIDEOS cfg).
  - pose proof (nogui_prepare_video_calls w cfg l) as Hq.
    destruct (prepare_video w cfg l) as [l1 e1]. tally.
  - pose proof (nogui_play_current_song_calls w cfg l) as Hq.
    destruct (play_current_song w cfg l) as [l1 e1]. tally.
Qed.

End NoGuiCalls.

(** *** The console listener, one datagram at a time *)

Lemma event_of_song (p : Packet) :
  packet_type p <> 2 -> packet_type p <> 3 ->
  (forall name, event_of p <> SongName name) /\ (forall artist, event_of p <> SongArtist artist).
Proof.
  intros H2 H3. unfold event_of, RB3E_EVENT_ALIVE, RB3E_EVENT_STATE, RB3E_EVENT_SONG_NAME,
    RB3E_EVENT_SONG_ARTIST.
  destruct (packet_type p =? 0); [split; discriminate |].
  destruct (packet_type p =? 1); [split; discriminate |].
  destruct (packet_type p =? 2) eqn:E2; [apply Z.eqb_eq in E2; contradiction |].
  destruct (packet_type p =? 3) eqn:E3; [apply Z.eqb_eq in E3; contradiction |].
  split; discriminate.
Qed.

Lemma nogui_handle_state_change_slots (w : World) (cfg : NoGui.Config)
    (l : NoGui.RB3EventListener) (packet_data : str) :
  let r := NoGui.handle_state_change w cfg l packet_data in
  NoGui.current_song r.1 = NoGui.current_song l
  /\ NoGui.current_artist r.1 = NoGui.current_artist l
  /\ NoGui.youtube_searcher r.1 = NoGui.youtube_searcher l.
Proof.
  unfold NoGui.handle_state_change.
  destruct (decode_state packet_data) as [v |]; [| repeat split].
  destruct ((NoGui.game_state l =? 0) && (v =? 1)).
  - destruct (bool_decide (is_Some (NoGui.pending_video l)) && NoGui.SYNC_VIDEO_TO_SONG cfg);
      [| repeat split].
    pose proof (NoGuiFacts.nogui_start_pending_video_spec w cfg l) as (_ & _ & Hs & Ha & Hy).
    destruct (NoGui.start_pending_video w cfg l) as [l1 e1]. simpl in *. auto.
  - destruct ((NoGui.game_state l =? 1) && (v =? 0)); [| repeat split].
    destruct (if NoGui.AUTO_QUIT_ON_MENU cfg then _ else _) as [p e]. repeat split.
Qed.

Lemma nogui_process_packet_budget (w : World) (cfg : NoGui.Config)
    (l : NoGui.RB3EventListener) (data : bytes) :
  NoGui.both_known l = false ->
  let r := NoGui.process_packet w cfg l data in
  NoGui.both_known r.1 = false
  /\ within 4 1 2 r.2
  /\ ((forall p, decode_packet data = inr p -> packet_type p <> 2 /\ packet_type p <> 3) ->
      searched r.2 = [] /\ resolved r.2 = []
      /\ NoGui.current_song r.1 = NoGui.current_song l
      /\ NoGui.current_artist r.1 = NoGui.current_artist l
      /\ NoGui.youtube_searcher r.1 = NoGui.youtube_searcher l).
Proof.
  intros Hb. unfold NoGui.process_packet.
  destruct (decode_packet data) as [[] | p].
  1-3: cbn [fst snd]; autorewrite with calls; split; [exact Hb |]; split; [tally | auto].
  assert (Hidle : forall l1 e1,
             NoGui.current_song l1 = NoGui.current_song l ->
             NoGui.current_artist l1 = NoGui.current_artist l ->
             NoGui.youtube_searcher l1 = NoGui.youtube_searcher l ->
             within 0 0 2 e1 ->
             let r := (let '(l2, e_tr) := NoGui.trigger w cfg l1 in
                       (l2, NoGui.debug cfg ([DPacketInfo; DValidPacket]
                              ++ (if 0 <? packet_size p then [DPacketData] else []))
                            ++ e1 ++ e_tr)) in
             NoGui.both_known r.1 = false
             /\ within 4 1 2 r.2
             /\ searched r.2 = [] /\ resolved r.2 = []
             /\ NoGui.current_song r.1 = NoGui.current_song l
             /\ NoGui.current_artist r.1 = NoGui.current_artist l
             /\ NoGui.youtube_searcher r.1 = NoGui.youtube_searcher l).
  { intros l1 e1 Hs Ha Hy He.
    assert (Hb1 : NoGui.both_known l1 = false)
      by (unfold NoGui.both_known in *; rewrite Hs, Ha; exact Hb).
    rewrite (proj2 (NoGuiCalls.nogui_trigger_calls w cfg l1) Hb1). cbn [fst snd].
    destruct He as (He1 & He2 & He3).
    assert (searched e1 = []) by (destruct (searched e1); [reflexivity | simpl in He1; lia]).
    assert (resolved e1 = []) by (destruct (resolved e1); [reflexivity | simpl in He2; lia]).
    autorewrite with calls. unfold within. autorewrite with calls.
    rewrite H, H0. simpl. repeat split; auto; lia. }
  assert (Hsong : forall l1 e1,
             within 0 0 0 e1 ->
             let r := (let '(l2, e_tr) := NoGui.trigger w cfg l1 in
                       (l2, NoGui.debug cfg ([DPacketInfo; DValidPacket]
                              ++ (if 0 <? packet_size p then [DPacketData] else []))
                            ++ e1 ++ e_tr)) in
             NoGui.both_known r.1 = false /\ within 4 1 2 r.2).
  { intros l1 e1 He.
    pose proof (NoGuiFacts.nogui_trigger_spec w cfg l1) as (_ & _ & Hk).
    pose proof (proj1 (NoGuiCalls.nogui_trigger_calls w cfg l1)) as Hc.
    destruct (NoGui.trigger w cfg l1) as [l2 e2]. cbn [fst snd] in *.
    split; [exact Hk | tally]. }
  destruct (event_of p) as [build | payload | name | artist | t pd] eqn:Hev; cbn [NoGui.handle_event].
  - destruct (Hidle l [Print (MConnected build)] eq_refl eq_refl eq_refl ltac:(tally))
      as (H1 & H2 & H3).
    split; [exact H1 |]. split; [exact H2 | intros _; exact H3].
  - pose proof (nogui_handle_state_change_slots w cfg l payload) as (Hs & Ha & Hy).
    pose proof (NoGuiCalls.nogui_handle_state_change_calls w cfg l payload) as Hc.
    destruct (NoGui.handle_state_change w cfg l payload) as [l1 e1]. cbn [fst snd] in *.
    destruct (Hidle l1 e1 Hs Ha Hy Hc) as (H1 & H2 & H3).
    split; [exact H1 |]. split; [exact H2 | intros _; exact H3].
  - destruct (Hsong (NoGui.set_current_song l name) [Print (MSong name)] ltac:(tally))
      as (H1 & H2).
    split; [exact H1 |]. split; [exact H2 |]. intros Hp.
    destruct (Hp p eq_refl) as [Hp2 Hp3].
    destruct (event_of_song p Hp2 Hp3) as [Hn _]. exfalso. exact (Hn _ Hev).
  - destruct (Hsong (NoGui.set_current_artist l artist) [Print (MArtist artist)] ltac:(tally))
      as (H1 & H2).
    split; [exact H1 |]. split; [exact H2 |]. intros Hp.
    destruct (Hp p eq_refl) as [Hp2 Hp3].
    destruct (event_of_song p Hp2 Hp3) as [_ Hn]. exfalso. exact (Hn _ Hev).
  - assert (He : within 0 0 2 (if bool_decide (t ∈ [1; 5; 6]) then []
                               else NoGui.debug cfg [DUnknownEvent]))
      by (destruct (bool_decide (t ∈ [1; 5; 6])); tally).
    destruct (Hidle l _ eq_refl eq_refl eq_refl He) as (H1 & H2 & H3).
    split; [exact H1 |]. split; [exact H2 | intros _; exact H3].
Qed.

(** X5. The console listener, started with at most one of the two
    slots filled (as [__init__] leaves it), never holds both slots at
    the end of a datagram, and a run over [n] datagrams sends at most
    [4 n] search queries, resolves at most [n] streams and starts VLC at
    most [2 n] times (the second start being the retry with the short
    command line). *)
Theorem nogui_run_budget (w : World) (cfg : NoGui.Config) (l : NoGui.RB3EventListener)
    (datagrams : list bytes) :
  NoGui.both_known l = false ->
  let r := NoGui.run w cfg l datagrams in
  NoGui.both_known r.1 = false
  /\ within (4 * length datagrams) (length datagrams) (2 * length datagrams) r.2.
Proof.
  revert l. induction datagrams as [| data rest IH]; intros l Hb.
  - split; [exact Hb | tally].
  - cbn [NoGui.run].
    pose proof (nogui_process_packet_budget w cfg l data Hb) as (Hb1 & Hc1 & _).
    destruct (NoGui.process_packet w cfg l data) as [l1 e1]. cbn [fst snd] in Hb1, Hc1.
    specialize (IH l1 Hb1).
    destruct (NoGui.run w cfg l1 rest) as [l2 e2]. cbn zeta in IH. cbn [fst snd] in IH |- *.
    destruct IH as [Hb2 Hc2]. split; [exact Hb2 |].
    unfold within in *. autorewrite with calls. cbn [length]. lia.
Qed.

Lemma nogui_run_budget_witness :
  let r := NoGui.run sample_world NoGui.source_config
             (NoGui.new_listener sample_searcher sample_player)
             [song_datagram; state_1_datagram; alive_datagram] in
  NoGui.both_known r.1 = false /\ within 12 3 6 r.2.
Proof.
  exact (nogui_run_budget sample_world NoGui.source_config
           (NoGui.new_listener sample_searcher sample_player)
           [song_datagram; state_1_datagram; alive_datagram] eq_refl).
Defined.

(** X6. In the console listener with at most one slot filled, a
    datagram that is not a well-formed SongName or SongArtist packet
    sends no search query and resolves no stream, and leaves the two
    slots and the searcher (with its cache) as they are: only the two
    song events lead to a search. *)
Theorem nogui_only_song_events_search (w : World) (cfg : NoGui.Config)
    (l : NoGui.RB3EventListener) (data : bytes) :
  NoGui.both_known l = false ->
  (forall p, decode_packet data = inr p -> packet_type p <> 2 /\ packet_type p <> 3) ->
  let r := NoGui.process_packet w cfg l data in
  searched r.2 = [] /\ resolved r.2 = []
  /\ NoGui.current_song r.1 = NoGui.current_song l
  /\ NoGui.current_artist r.1 = NoGui.current_artist l
  /\ NoGui.youtube_searcher r.1 = NoGui.youtube_searcher l.
Proof.
  intros Hb Hp. exact (proj2 (proj2 (nogui_process_packet_budget w cfg l data Hb)) Hp).
Qed.

Lemma nogui_only_song_events_search_witness :
  let l := NoGui.set_current_song (NoGui.new_listener sample_searcher sample_player) (lit "Song") in
  let r := NoGui.process_packet sample_world NoGui.source_config l state_1_datagram in
  searched r.2 = [] /\ resolved r.2 = []
  /\ NoGui.current_song r.1 = lit "Song"
  /\ NoGui.current_artist r.1 = []
  /\ NoGui.youtube_searcher r.1 = sample_searcher.
Proof.
  refine (nogui_only_song_events_search sample_world NoGui.source_config
            (NoGui.set_current_song (NoGui.new_listener sample_searcher sample_player) (lit "Song"))
            state_1_datagram eq_refl _).
  intros p Hp. vm_compute in Hp. injection Hp as <-. cbn. split; discriminate.
Defined.

(** *** The GUI listener *)

Module GuiCalls.
Import Gui.

Lemma gui_search_video_calls (w : World) (ys : YouTubeSearcher) (a s : str) :
  within 4 0 0 (search_video w ys a s).2.
Proof.
  unfold search_video. destruct (negb (youtube ys)); [tally |].
  destruct (clean_search_terms a s) as [ca cs].
  destruct (search_cache ys !! search_key w ca cs); [tally |].
  assert (Hq : within 4 0 0 (search_loop w (fun _ => []) ca cs (search_queries ca cs)).2)
    by exact (within_search_loop_gui w ca cs (search_queries ca cs)).
  destruct (search_loop w _ ca cs (search_queries ca cs)) as [r e].
  destruct r as [err | [found |]]; tally.
Qed.

Lemma gui_stop_current_video_calls (w : World) (p : VLCPlayer) :
  within 0 0 0 (stop_current_video w p).2.
Proof.
  unfold stop_current_video. destruct (current_process p) as [proc |]; [| tally].
  destruct (still_running w proc); [| tally].
  destruct (terminate_result w proc); tally.
Qed.

Lemma gui_play_video_calls (w : World) (p : VLCPlayer) (url id a s : str)
    (st : gmap string Value) :
  within 0 0 2 (play_video w p url id a s st).2.
Proof.
  unfold play_video. destruct (negb (truthy (vlc_path p))); [tally |].
  destruct (bool_decide (id ∈ played_videos p)); [tally |].
  pose proof (gui_stop_current_video_calls w p) as Hs.
  destruct (stop_current_video w p) as [p1 e1].
  split_ifs; tally.
Qed.

Lemma gui_start_pending_video_calls (w : World) (l : RB3EventListener) :
  within 0 0 2 (start_pending_video w l).2.
Proof.
  unfold start_pending_video.
  destruct (pending_video l) as [[[[url id] a] s] |]; [| tally].
  pose proof (gui_play_video_calls w (vlc_player l) url id a s (settings l)) as Hp.
  destruct (play_video w (vlc_player l) url id a s (settings l)) as [p e].
  split_ifs; tally.
Qed.

Lemma gui_handle_state_change_calls (w : World) (l : RB3EventListener) (packet_data : str) :
  within 0 0 2 (handle_state_change w l packet_data).2.
Proof.
  unfold handle_state_change. destruct (decode_state packet_data) as [v |]; [| tally].
  destruct ((game_state l =? 0) && (v =? 1)).
  - destruct (bool_decide (is_Some (pending_video l)) && sync_video_to_song l); [| tally].
    pose proof (gui_start_pending_video_calls w l) as Hs.
    destruct (start_pending_video w l) as [l1 e1]. tally.
  - destruct ((game_state l =? 1) && (v =? 0)); [| tally].
    destruct (auto_quit_on_menu l); [| tally].
    pose proof (gui_stop_current_video_calls w (vlc_player l)) as Hs.
    destruct (stop_current_video w (vlc_player l)) as [p e]. tally.
Qed.

Lemma gui_prepare_video_calls (w : World) (l : RB3EventListener) :
  within 4 1 2 (prepare_video w l).2.
Proof.
  unfold prepare_video.
  pose proof (gui_search_video_calls w (youtube_searcher l) (current_artist l) (current_song l)) as Hs.
  destruct (search_video w (youtube_searcher l) (current_artist l) (current_song l))
    as [[[err | video_id] ys] e_search]; [tally |].
  destruct (truthy video_id); [| tally].
  destruct (truthy (get_stream_url w (default [] video_id))); [| tally].
  cbn [game_state set_pending_video set_youtube_searcher].
  destruct (game_state l =? 1); [| tally].
  match goal with
  | |- context [start_pending_video w ?l0] =>
    pose proof (gui_start_pending_video_calls w l0) as Hq;
    destruct (start_pending_video w l0) as [l1 e1]
  end.
  tally.
Qed.

Lemma gui_play_current_song_calls (w : World) (l : RB3EventListener) :
  within 4 1 2 (play_current_song w l).2.
Proof.
  unfold play_current_song.
  pose proof (gui_search_video_calls w (youtube_searcher l) (current_artist l) (current_song l)) as Hs.
  destruct (search_video w (youtube_searcher l) (current_artist l) (current_song l))
    as [[[err | video_id] ys] e_search]; [tally |].
  destruct (truthy video_id); [| tally].
  destruct (truthy (get_stream_url w (default [] video_id))); [| tally].
  match goal with
  | |- context [play_video w ?p ?u ?i ?a ?s ?st] =>
    pose proof (gui_play_video_calls w p u i a s st) as Hq;
    destruct (play_video w p u i a s st) as [p1 e1]
  end.
  tally.
Qed.

Lemma gui_trigger_calls (w : World) (l : RB3EventListener) :
  within 4 1 2 (trigger w l).2.
Proof.
  unfold trigger. destruct (both_known l); [| tally].
  destruct (sync_video_to_song l).
  - apply gui_prepare_video_calls.
  - apply gui_play_current_song_calls.
Qed.

Lemma gui_process_packet_calls (w : World) (l : RB3EventListener) (data : bytes) :
  within 4 1 4 (process_packet w l data).2.
Proof.
  unfold process_packet. destruct (decode_packet data) as [m | p]; [tally |].
  assert (He : within 0 0 2 (handle_event w l (event_of p)).2).
  { destruct (event_of p); cbn [handle_event]; try tally.
    apply gui_handle_state_change_calls. }
  destruct (handle_event w l (event_of p)) as [l1 e1].
  pose proof (gui_trigger_calls w l1) as Ht.
  destruct (trigger w l1) as [l2 e2]. tally.
Qed.

End GuiCalls.

(** X7. Whatever its state and its settings, the GUI listener sends at
    most four search queries and resolves at most one stream for one
    datagram, and starts VLC at most four times (a pending video and the
    one just prepared, each with its retry); over [n] datagrams, at most
    [4 n], [n] and [4 n]. *)
Theorem gui_run_budget (w : World) (l : Gui.RB3EventListener) (datagrams : list bytes) :
  within (4 * length datagrams) (length datagrams) (4 * length datagrams)
    (Gui.run w l datagrams).2.
Proof.
  revert l. induction datagrams as [| data rest IH]; intros l; [tally |].
  cbn [Gui.run].
  pose proof (GuiCalls.gui_process_packet_calls w l data) as Hc1.
  destruct (Gui.process_packet w l data) as [l1 e1]. cbn [snd] in Hc1.
  specialize (IH l1). destruct (Gui.run w l1 rest) as [l2 e2]. cbn [snd] in IH |- *.
  unfold within in *. autorewrite with calls. cbn [length]. lia.
Qed.

(** ** Stopping and starting the player *)

(** X8. [stop_current_video] never touches the path or the played
    set, and leaves either no process or the process it found, which had
    already exited.  Stopping twice is stopping once: the second call
    does and prints nothing.  Both versions. *)
Theorem stop_current_video_idempotent (w : World) :
  (forall p : NoGui.VLCPlayer,
      let r := NoGui.stop_current_video w p in
      NoGui.stop_current_video w r.1 = (r.1, [])
      /\ NoGui.vlc_path r.1 = NoGui.vlc_path p
      /\ NoGui.played_videos r.1 = NoGui.played_videos p
      /\ (NoGui.current_process r.1 = None
          \/ exists proc, NoGui.current_process p = Some proc
                          /\ still_running w proc = false /\ r = (p, [])))
  /\ (forall p : Gui.VLCPlayer,
      let r := Gui.stop_current_video w p in
      Gui.stop_current_video w r.1 = (r.1, [])
      /\ Gui.vlc_path r.1 = Gui.vlc_path p
      /\ Gui.played_videos r.1 = Gui.played_videos p
      /\ (Gui.current_process r.1 = None
          \/ exists proc, Gui.current_process p = Some proc
                          /\ still_running w proc = false /\ r = (p, []))).
Proof.
  split; intros p.
  - unfold NoGui.stop_current_video.
    destruct (NoGui.current_process p) as [proc |] eqn:Hc.
    + destruct (still_running w proc) eqn:Hr.
      * destruct (terminate_result w proc); cbn; auto.
      * cbn. rewrite Hc, Hr. repeat split. right. exists proc. auto.
    + cbn. rewrite Hc. auto.
  - unfold Gui.stop_current_video.
    destruct (Gui.current_process p) as [proc |] eqn:Hc.
    + destruct (still_running w proc) eqn:Hr.
      * destruct (terminate_result w proc); cbn; auto.
      * cbn. rewrite Hc, Hr. repeat split. right. exists proc. auto.
    + cbn. rewrite Hc. auto.
Qed.

Lemma gui_stop_keeps (w : World) (p : Gui.VLCPlayer) :
  Gui.played_videos (Gui.stop_current_video w p).1 = Gui.played_videos p
  /\ Gui.vlc_path (Gui.stop_current_video w p).1 = Gui.vlc_path p
  /\ Gui.player_callback (Gui.stop_current_video w p).1 = Gui.player_callback p.
Proof.
  unfold Gui.stop_current_video. destruct (Gui.current_process p); [| auto].
  destruct (still_running w _); [| auto]. destruct (terminate_result w _); auto.
Qed.

(** Below the bound, [remember] only adds. *)
Lemma remember_below_ten (w : World) (played : gset str) (video_id : str) :
  (size played < 10)%nat -> remember w played video_id = played ∪ {[ video_id ]}.
Proof.
  intros Hs. unfold remember. pose proof (size_add played video_id) as Ha.
  destruct (10 <? Z.of_nat (size (played ∪ {[ video_id ]}))) eqn:Hgt; [| reflexivity].
  apply Z.ltb_lt in Hgt. lia.
Qed.

(** X9. GUI version, with a VLC path and fewer than ten played ids:
    when VLC starts (with the full command line, or with the short one
    after an immediate exit), the id is in the played set afterwards,
    and any later request for that id, whatever its URL, texts and
    settings, changes nothing and starts nothing.  When the first
    [Popen] raises, the played set is as before. *)
Theorem gui_play_video_once (w : World) (p : Gui.VLCPlayer) (path url id a s : str)
    (st : gmap string Gui.Value) :
  Gui.vlc_path p = Some path -> path <> [] ->
  (size (Gui.played_videos p) < 10)%nat ->
  let cmd := Gui.vlc_cmd st path url a s in
  let r := Gui.play_video w p url id a s st in
  (popen_fails w cmd = false ->
   (exits_at_once w cmd = true -> popen_fails w [path; url] = false) ->
   id ∈ Gui.played_videos r.1
   /\ forall url' a' s' st',
        (Gui.play_video w r.1 url' id a' s' st').1 = r.1
        /\ started (Gui.play_video w r.1 url' id a' s' st').2 = [])
  /\ (popen_fails w cmd = true -> Gui.played_videos r.1 = Gui.played_videos p).
Proof.
  intros Hpath Hne Hsize. cbv zeta.
  assert (Hskip : forall q : Gui.VLCPlayer, id ∈ Gui.played_videos q ->
            forall url' a' s' st',
              (Gui.play_video w q url' id a' s' st').1 = q
              /\ started (Gui.play_video w q url' id a' s' st').2 = []).
  { intros q Hin url' a' s' st'. unfold Gui.play_video.
    destruct (negb (truthy (Gui.vlc_path q))); [split; [reflexivity | apply started_gui_say] |].
    rewrite bool_decide_eq_true_2 by exact Hin.
    split; [reflexivity | apply started_gui_say]. }
  unfold Gui.play_video. rewrite Hpath.
  destruct path as [| c path]; [contradiction |].
  cbn [truthy negb default from_option Datatypes.id].
  destruct (bool_decide (id ∈ Gui.played_videos p)) eqn:Hin.
  { apply bool_decide_eq_true in Hin. cbn [fst]. split; [| reflexivity].
    intros _ _. split; [exact Hin | exact (Hskip p Hin)]. }
  pose proof (gui_stop_keeps w p) as (Hk & _).
  destruct (Gui.stop_current_video w p) as [p1 e1]. cbn [fst] in Hk.
  split.
  - intros Hok Hretry. rewrite Hok.
    assert (Hin' : id ∈ remember w (Gui.played_videos p1) id).
    { rewrite Hk, remember_below_ten by exact Hsize. set_solver. }
    destruct (exits_at_once w _).
    + pose proof (Hretry eq_refl) as Hr. unfold str in *. rewrite Hr.
      cbn [fst]. split; [exact Hin' | apply Hskip; exact Hin'].
    + cbn [fst]. split; [exact Hin' | apply Hskip; exact Hin'].
  - intros Hfail. rewrite Hfail. exact Hk.
Qed.

Lemma gui_play_video_once_witness :
  let r := Gui.play_video sample_world gui_player (lit "https://stream/vid1") (lit "vid1")
             (lit "Foo") (lit "Song") ∅ in
  lit "vid1" ∈ Gui.played_videos r.1
  /\ started (Gui.play_video sample_world r.1 (lit "https://stream/other") (lit "vid1")
                (lit "Foo") (lit "Song") ∅).2 = [].
Proof.
  pose proof (gui_play_video_once sample_world gui_player (lit "vlc")
                (lit "https://stream/vid1") (lit "vid1") (lit "Foo") (lit "Song") ∅
                eq_refl ltac:(discriminate)
                ltac:(change (size (∅ : gset str) < 10)%nat; rewrite size_empty; lia)) as [H _].
  destruct (H eq_refl ltac:(discriminate)) as [Hin Hskip].
  split; [exact Hin |].
  exact (proj2 (Hskip (lit "https://stream/other") (lit "Foo") (lit "Song") ∅)).
Defined.

(** X10. The tail of [play_video] in both files: with fewer than ten
    ids the new id is added and nothing is removed; with ten ids and a
    new one, exactly one element of the eleven is removed, which may be
    the id just added. *)
Theorem remember_spec (w : World) (played : gset str) (video_id : str) :
  (size played <= 10)%nat ->
  ((size played < 10)%nat -> remember w played video_id = played ∪ {[ video_id ]})
  /\ (video_id ∈ played -> remember w played video_id = played)
  /\ (size played = 10%nat -> video_id ∉ played ->
      exists x, x ∈ played ∪ {[ video_id ]}
                /\ remember w played video_id = (played ∪ {[ video_id ]}) ∖ {[ x ]}).
Proof.
  intros Hle. split; [apply remember_below_ten |]. split.
  - intros Hin. unfold remember.
    replace (played ∪ {[ video_id ]}) with played by set_solver.
    destruct (10 <? Z.of_nat (size played)) eqn:Hgt; [| reflexivity].
    apply Z.ltb_lt in Hgt. lia.
  - intros Hs Hout. unfold remember.
    assert (Hsz : size (played ∪ {[ video_id ]}) = 11%nat).
    { rewrite size_union by set_solver. rewrite size_singleton. lia. }
    rewrite Hsz. cbn [Z.of_nat]. change (10 <? Z.pos (Pos.of_succ_nat 10)) with true. cbv iota.
    unfold pop. destruct (decide (set_pop w (played ∪ {[ video_id ]}) ∈ played ∪ {[ video_id ]}))
      as [Hin | _].
    + eexists. split; [exact Hin | reflexivity].
    + destruct (elements (played ∪ {[ video_id ]})) as [| x xs] eqn:He.
      * apply elements_empty_inv in He. apply leibniz_equiv in He.
        rewrite He, size_empty in Hsz. discriminate.
      * exists x. split; [| reflexivity]. apply elem_of_elements. rewrite He. left.
Qed.

Lemma remember_spec_witness :
  remember sample_world {[ lit "a" ]} (lit "b") = {[ lit "a" ]} ∪ {[ lit "b" ]}.
Proof.
  assert (Hs : size ({[ lit "a" ]} : gset str) = 1%nat) by apply size_singleton.
  apply (proj1 (remember_spec sample_world {[ lit "a" ]} (lit "b") ltac:(rewrite Hs; lia))).
  rewrite Hs. lia.
Defined.

(** ** The payload text *)

Lemma on_error_scalars (e : errors) :
  Forall (fun c => is_scalar c = true) (on_error e) /\ (length (on_error e) <= 1)%nat.
Proof. destruct e; split; simpl; auto. Qed.

Ltac utf8_facts :=
  repeat match goal with
         | H : (_ <? _) = true |- _ => apply Z.ltb_lt in H
         | H : (_ <? _) = false |- _ => apply Z.ltb_ge in H
         | H : (_ =? _) = true |- _ => apply Z.eqb_eq in H
         | H : (_ =? _) = false |- _ => apply Z.eqb_neq in H
         | H : (_ <=? _) = true |- _ => apply Z.leb_le in H
         | H : (_ <=? _) = false |- _ => apply Z.leb_gt in H
         | H : negb _ = true |- _ => apply negb_true_iff in H
         | H : negb _ = false |- _ => apply negb_false_iff in H
         | H : _ || _ = false |- _ => apply orb_false_iff in H as [? ?]
         | H : _ && _ = true |- _ => apply andb_true_iff in H as [? ?]
         end.

Ltac utf8_scalar :=
  unfold is_scalar; apply orb_true_iff;
  rewrite !andb_true_iff, !Z.leb_le, !Z.ltb_lt;
  rewrite ?Z.shiftl_mul_pow2 by lia;
  change (2 ^ 6) with 64; change (2 ^ 12) with 4096; change (2 ^ 18) with 262144;
  lia.

Lemma utf8_decode_scalars_aux (e : errors) (n : nat) (s : bytes) :
  (length s <= n)%nat ->
  Forall (fun c => is_scalar c = true) (utf8_decode e s)
  /\ (length (utf8_decode e s) <= length s)%nat.
Proof.
  destruct (on_error_scalars e) as [Ferr Lerr].
  revert s. induction n as [| n IH]; intros s Hn.
  { destruct s; [split; [constructor | reflexivity] | simpl in Hn; lia]. }
  destruct s as [| c s1]; [split; [constructor | reflexivity] |].
  cbn [utf8_decode]. pose proof (u8_range c) as Hc.
  assert (Hrec : forall t, (length t <= n)%nat ->
            forall pre k, Forall (fun c => is_scalar c = true) pre ->
              (length pre + length t <= k)%nat ->
              Forall (fun c => is_scalar c = true) (pre ++ utf8_decode e t)
              /\ (length (pre ++ utf8_decode e t) <= k)%nat).
  { intros t Ht pre k Fpre Hk. destruct (IH t Ht) as [F L].
    split; [apply Forall_app; auto | rewrite length_app; lia]. }
  cbn [length] in Hn |- *.
  destruct (u8 c <? 128) eqn:H1.
  { utf8_facts. apply (Hrec s1 ltac:(lia) [u8 c] (S (length s1))); [| simpl; lia].
    repeat constructor. utf8_scalar. }
  destruct (u8 c <? 194) eqn:H2.
  { apply (Hrec s1 ltac:(lia)); [exact Ferr | lia]. }
  destruct (u8 c <? 224) eqn:H3.
  { destruct s1 as [| c2 s2]; [split; [exact Ferr | simpl; lia] |].
    pose proof (u8_range c2) as Hc2. cbn [length] in Hn |- *.
    destruct (is_continuation c2) eqn:K2.
    - unfold is_continuation in K2. utf8_facts.
      apply (Hrec s2 ltac:(lia) [_]); [| simpl; lia].
      repeat constructor. utf8_scalar.
    - apply (Hrec (c2 :: s2) ltac:(simpl; lia)); [exact Ferr | simpl; lia]. }
  destruct (u8 c <? 240) eqn:H4.
  { destruct s1 as [| c2 s2]; [split; [exact Ferr | simpl; lia] |].
    pose proof (u8_range c2) as Hc2. cbn [length] in Hn |- *.
    destruct (negb (is_continuation c2) || bad_second3 (u8 c) (u8 c2)) eqn:K2.
    { apply (Hrec (c2 :: s2) ltac:(simpl; lia)); [exact Ferr | simpl; lia]. }
    destruct s2 as [| c3 s3]; [split; [exact Ferr | simpl; lia] |].
    pose proof (u8_range c3) as Hc3. cbn [length] in Hn |- *.
    destruct (is_continuation c3) eqn:K3.
    - unfold is_continuation, bad_second3 in *.
      destruct (u8 c2 <? 160) eqn:K4; utf8_facts;
        (apply (Hrec s3 ltac:(lia) [_]); [| simpl; lia]);
        repeat constructor; utf8_scalar.
    - apply (Hrec (c3 :: s3) ltac:(simpl; lia)); [exact Ferr | simpl; lia]. }
  destruct (u8 c <? 245) eqn:H5.
  { destruct s1 as [| c2 s2]; [split; [exact Ferr | simpl; lia] |].
    pose proof (u8_range c2) as Hc2. cbn [length] in Hn |- *.
    destruct (negb (is_continuation c2) || bad_second4 (u8 c) (u8 c2)) eqn:K2.
    { apply (Hrec (c2 :: s2) ltac:(simpl; lia)); [exact Ferr | simpl; lia]. }
    destruct s2 as [| c3 s3]; [split; [exact Ferr | simpl; lia] |].
    pose proof (u8_range c3) as Hc3. cbn [length] in Hn |- *.
    destruct (negb (is_continuation c3)) eqn:K3.
    { apply (Hrec (c3 :: s3) ltac:(simpl; lia)); [exact Ferr | simpl; lia]. }
    destruct s3 as [| c4 s4]; [split; [exact Ferr | simpl; lia] |].
    pose proof (u8_range c4) as Hc4. cbn [length] in Hn |- *.
    destruct (is_continuation c4) eqn:K4.
    - unfold is_continuation, bad_second4 in *.
      destruct (u8 c2 <? 144) eqn:K5; utf8_facts;
        (apply (Hrec s4 ltac:(lia) [_]); [| simpl; lia]);
        repeat constructor; utf8_scalar.
    - apply (Hrec (c4 :: s4) ltac:(simpl; lia)); [exact Ferr | simpl; lia]. }
  apply (Hrec s1 ltac:(lia)); [exact Ferr | lia].
Qed.

Lemma rstrip_nul_length (data : bytes) : (length (rstrip_nul data) <= length data)%nat.
Proof.
  destruct (rstrip_nul_app_nuls data) as [k Hk].
  rewrite Hk at 2. rewrite length_app. lia.
Qed.

Lemma rstrip_nul_nuls (zs : bytes) :
  Forall (fun b => is_nul b = true) zs -> rstrip_nul zs = [].
Proof.
  induction 1 as [| b zs Hb _ IH]; [reflexivity |].
  unfold rstrip_nul in *. cbn [fold_right]. rewrite IH, Hb. reflexivity.
Qed.

(** X11. The payload text of an accepted packet consists of Unicode
    scalar values (no surrogate, nothing above U+10FFFF), at most one per
    payload byte: it is no longer than the declared length, nor than the
    bytes that follow the header.  The three header fields are bytes. *)
Theorem packet_data_bounds (data : bytes) (p : Packet) :
  decode_packet data = inr p ->
  Forall (fun c => is_scalar c = true) (packet_data p)
  /\ Z.of_nat (length (packet_data p)) <= packet_size p
  /\ (length (packet_data p) <= length data - 8)%nat
  /\ 0 <= packet_type p < 256 /\ 0 <= packet_size p < 256 /\ 0 <= platform p < 256.
Proof.
  intros Hp.
  destruct (short_or_header data)
    as [Hshort | (b0 & b1 & b2 & b3 & b4 & b5 & b6 & b7 & rest & ->)].
  { rewrite decode_packet_short in Hp by exact Hshort. discriminate. }
  rewrite decode_packet_header in Hp.
  destruct (negb (be_uint [b0; b1; b2; b3] =? 1380070213)); [discriminate |].
  destruct (negb (u8 b4 =? 0)); [discriminate |].
  injection Hp as <-. cbn [packet_data packet_size packet_type platform].
  pose proof (u8_range b5). pose proof (u8_range b6). pose proof (u8_range b7).
  unfold payload_of, slice. replace (8 + Z.to_nat (u8 b6) - 8)%nat with (Z.to_nat (u8 b6)) by lia.
  cbn [drop].
  destruct (utf8_decode_scalars_aux Ignore _ (rstrip_nul (take (Z.to_nat (u8 b6)) rest))
              (le_n _)) as [F L].
  pose proof (rstrip_nul_length (take (Z.to_nat (u8 b6)) rest)) as Hr.
  rewrite length_take in Hr. cbn [length]. rewrite drop_0.
  split; [exact F |]. repeat split; lia.
Qed.

Lemma packet_data_bounds_witness :
  exists p,
    decode_packet hello_datagram = inr p
    /\ Forall (fun c => is_scalar c = true) (packet_data p)
    /\ Z.of_nat (length (packet_data p)) <= 5.
Proof.
  eexists. split; [vm_compute; reflexivity |].
  pose proof (packet_data_bounds hello_datagram _ eq_refl) as (F & L & _).
  split; [exact F | exact L].
Defined.

(** X12. A State packet whose payload is one byte, followed by any
    number of NUL bytes, under any declared length of at least one: the
    state value is the digit the byte writes, else the code of the byte
    as an ASCII character, and 0 for a byte of 0x80 and above, which the
    decoder drops.  So the value is 1, the state of a song being played,
    exactly for the bytes "1" and 0x01. *)
Theorem state_of_one_byte (b size : byte) (nuls : bytes) :
  1 <= u8 size ->
  Forall (fun z => is_nul z = true) nuls ->
  state_datagram (datagram x01 size (b :: nuls)) (state_of_byte b)
  /\ (state_of_byte b = 1 <-> b = x31 \/ b = x01)
  /\ (state_of_byte b = 0 <-> b = x30 \/ b = x00 \/ 0x80 <= u8 b).
Proof.
  intros Hsize Hnuls. split.
  - unfold state_datagram, datagram. cbn [app].
    rewrite decode_packet_header.
    change (negb (be_uint [x52; x42; x33; x45] =? 1380070213)) with false.
    change (negb (u8 x00 =? 0)) with false. cbv iota.
    eexists _, _. split; [reflexivity |]. split; [reflexivity |].
    cbn [packet_data]. unfold payload_of, slice.
    replace (8 + Z.to_nat (u8 size) - 8)%nat with (S (Z.to_nat (u8 size) - 1)) by lia.
    cbn [drop take].
    assert (Hz : rstrip_nul (take (Z.to_nat (u8 size) - 1) nuls) = []).
    { apply rstrip_nul_nuls. apply Forall_take. exact Hnuls. }
    unfold rstrip_nul in *. cbn [fold_right]. rewrite Hz.
    destruct b; vm_compute; reflexivity.
  - split; destruct b; (split; intros H; vm_compute in H |- *;
      intuition (first [discriminate | reflexivity])).
Qed.

Lemma state_of_one_byte_witness :
  state_datagram (datagram x01 x05 [x31; x00; x00]) 1.
Proof.
  apply (proj1 (state_of_one_byte x31 x05 [x00; x00] ltac:(vm_compute; discriminate)
                  ltac:(repeat constructor))).
Defined.

(** ** The stream extractor *)

Lemma find_rev_none {A} (P : A -> bool) (l : list A) :
  List.find P (rev l) = None -> Forall (fun x => P x = false) l.
Proof.
  intros H. apply Forall_forall. intros x Hx.
  apply (find_none P (rev l) H x). apply in_rev. rewrite rev_involutive.
  apply list_elem_of_In, Hx.
Qed.

Lemma find_rev_some {A} (P : A -> bool) (l : list A) (x : A) :
  List.find P (rev l) = Some x ->
  exists pre post, l = pre ++ x :: post /\ P x = true /\ Forall (fun y => P y = false) post.
Proof.
  induction l as [| a l IH] using rev_ind; [discriminate |].
  rewrite rev_app_distr. cbn [rev app List.find].
  destruct (P a) eqn:Ha.
  - intros [= <-]. exists l, []. split; [reflexivity |]. split; [exact Ha | constructor].
  - intros H. destruct (IH H) as (pre & post & -> & Hx & Hpost).
    exists pre, (post ++ [a]). split; [rewrite <- app_assoc; reflexivity |].
    split; [exact Hx |]. apply Forall_app. split; [exact Hpost | repeat constructor; exact Ha].
Qed.

Lemma select_url_chosen (info : Info) : chosen info (select_url info).
Proof.
  unfold chosen, select_url. destruct (info_url info) as [url |]; [reflexivity |].
  destruct (info_formats info) as [[| f formats] |].
  - right. split; [reflexivity |]. intros ? [= <-]. constructor.
  - destruct (List.find usable (rev (f :: formats))) as [fmt |] eqn:Hfind.
    + left. destruct (find_rev_some _ _ _ Hfind) as (pre & post & Hl & Hu & Hpost).
      exists pre, fmt, post. rewrite Hl. split; [reflexivity |]. split; [exact Hu |].
      split; [exact Hpost |]. split; [reflexivity |].
      unfold usable in Hu. apply andb_true_iff in Hu as [Hu _]. exact Hu.
    + right. split; [reflexivity |]. intros ? [= <-]. exact (find_rev_none _ _ Hfind).
  - right. split; [reflexivity |]. intros ? [=].
Qed.

(** X13. [get_stream_url] asks yt-dlp once, for the watch URL of the
    video id (the console version with its format string, the GUI
    version with "bestvideo+bestaudio/best").  When yt-dlp raises, the
    result is [None].  Otherwise the result is the value under ['url']
    when the key is there; else the URL of the last format of the list
    that has a non-empty URL and a video codec other than 'none'; and
    [None] when there is no such format. *)
Theorem get_stream_url_chosen (extract : str -> str -> option Info) (cfg : NoGui.Config)
    (x : NoGuiExtractor.StreamExtractor) (gx : GuiExtractor.StreamExtractor) (video_id : str) :
  let n := NoGuiExtractor.get_stream_url extract cfg x video_id in
  let g := GuiExtractor.get_stream_url extract gx video_id in
  extractions n.2 = [(NoGuiExtractor.format_string x, youtube_url video_id)]
  /\ extractions g.2 = [(lit "bestvideo+bestaudio/best", youtube_url video_id)]
  /\ match extract (NoGuiExtractor.format_string x) (youtube_url video_id) with
     | None => n.1 = None
     | Some info => chosen info n.1
     end
  /\ match extract (lit "bestvideo+bestaudio/best") (youtube_url video_id) with
     | None => g.1 = None
     | Some info => chosen info g.1
     end.
Proof.
  cbv zeta. unfold NoGuiExtractor.get_stream_url, GuiExtractor.get_stream_url.
  change GuiExtractor.format_string with (lit "bestvideo+bestaudio/best").
  split; [| split; [| split]].
  - destruct (extract (NoGuiExtractor.format_string x) (youtube_url video_id)) as [info |];
      [| reflexivity].
    cbn [snd]. unfold extractions. rewrite !flat_map_app. cbn [flat_map app].
    f_equal.
    assert (H1 : forall fs : list Format,
               flat_map (fun e => match e with
                                  | ExtractInfo format url => [(format, url)]
                                  | _ => []
                                  end)
                 (List.map (fun _ => ExtractPrint XFormatLine) fs) = []).
    { induction fs; [reflexivity | exact IHfs]. }
    destruct (info_formats info) as [fs |], (NoGui.DEBUG_MODE cfg), (info_url info),
      (select_url info); cbn [flat_map app]; rewrite ?H1; reflexivity.
  - destruct (extract _ (youtube_url video_id)) as [info |]; [reflexivity |].
    destruct (GuiExtractor.gui_callback gx); reflexivity.
  - destruct (extract (NoGuiExtractor.format_string x) (youtube_url video_id)) as [info |];
      [apply select_url_chosen | reflexivity].
  - destruct (extract _ (youtube_url video_id)) as [info |];
      [apply select_url_chosen | reflexivity].
Qed.

(** X14. [_build_format_string]: a preferred quality that is none of
    the six known names gives the format string of "1080p"; whatever the
    two constants, the string ends in "/best", so that yt-dlp may always
    fall back on any format. *)
Theorem build_format_string_default (preferred_quality : str) (force_best_quality : bool) :
  (preferred_quality ∉ [lit "4K"; lit "1440p"; lit "1080p"; lit "720p"; lit "480p"; lit "360p"] ->
   NoGuiExtractor._build_format_string preferred_quality force_best_quality
   = NoGuiExtractor._build_format_string (lit "1080p") force_best_quality)
  /\ exists pre,
       NoGuiExtractor._build_format_string preferred_quality force_best_quality
       = pre ++ lit "/best".
Proof.
  split.
  - intros Hq. unfold NoGuiExtractor._build_format_string.
    assert (Hnone : NoGuiExtractor.quality_heights !! preferred_quality = None).
    { unfold NoGuiExtractor.quality_heights. apply not_elem_of_list_to_map_1.
      cbn [fmap list_fmap fst]. exact Hq. }
    rewrite Hnone. reflexivity.
  - unfold NoGuiExtractor._build_format_string.
    set (h := default (lit "1080") _). destruct force_best_quality.
    + cbn [join].
      exists ((lit "bestvideo[height<=" ++ h ++ lit "]+bestaudio/best[height<=" ++ h ++ lit "]")
              ++ lit "/" ++ (lit "best[height<=" ++ h ++ lit "]") ++ lit "/"
              ++ lit "bestvideo+bestaudio/best").
      rewrite <- !app_assoc. reflexivity.
    + exists (lit "best[height<=" ++ h ++ lit "]"). rewrite <- !app_assoc. reflexivity.
Qed.

Example build_format_string_720p :
  NoGuiExtractor._build_format_string (lit "720p") true
  = lit "bestvideo[height<=720]+bestaudio/best[height<=720]/best[height<=720]/bestvideo+bestaudio/best/best"
  /\ NoGuiExtractor._build_format_string (lit "4K") false = lit "best[height<=2160]/best"
  /\ (NoGuiExtractor.new_extractor NoGui.source_config true).1
     = {| NoGuiExtractor.format_string :=
            lit "bestvideo[height<=1080]+bestaudio/best[height<=1080]/best[height<=1080]/bestvideo+bestaudio/best/best" |}.
Proof. repeat split; vm_compute; reflexivity. Qed.

Example select_url_last_usable :
  select_url {| info_url := None;
                info_formats := Some [ {| fmt_url := Some (lit "u1"); fmt_vcodec := Some (lit "avc1") |};
                                       {| fmt_url := Some (lit "u2"); fmt_vcodec := None |};
                                       {| fmt_url := Some (lit "u3"); fmt_vcodec := Some (lit "none") |};
                                       {| fmt_url := None; fmt_vcodec := Some (lit "vp9") |};
                                       {| fmt_url := Some []; fmt_vcodec := Some (lit "vp9") |} ] |}
  = Some (lit "u2").
Proof. vm_compute. reflexivity. Qed.

(** ** The receive loop *)

Lemma inner_app (a b : list ListenEffect) : inner (a ++ b) = inner a ++ inner b.
Proof. apply flat_map_app. Qed.

Lemma inner_map (es : list Effect) : inner (List.map Inner es) = es.
Proof. induction es as [| e es IH]; [reflexivity |]. simpl. f_equal. exact IH. Qed.

Lemma still_listening_app (a b : list ListenEffect) :
  still_listening (a ++ b) = still_listening a ++ still_listening b.
Proof. apply flat_map_app. Qed.

Lemma still_listening_map (es : list Effect) : still_listening (List.map Inner es) = [].
Proof. induction es as [| e es IH]; [reflexivity | exact IH]. Qed.

Lemma nogui_listen_run (w : World) (cfg : NoGui.Config) (received : list Received) :
  forall l n,
    (NoGuiLoop.listen w cfg l n received).1 = (NoGui.run w cfg l (datagrams received)).1
    /\ inner (NoGuiLoop.listen w cfg l n received).2
       = (NoGui.run w cfg l (datagrams received)).2.
Proof.
  induction received as [| [data | |] rest IH]; intros l n; [split; reflexivity | | |].
  - cbn [NoGuiLoop.listen datagrams flat_map app NoGui.run].
    change (flat_map _ rest) with (datagrams rest).
    destruct (NoGui.process_packet w cfg l data) as [l1 e1].
    specialize (IH l1 0). destruct (NoGuiLoop.listen w cfg l1 0 rest) as [l2 e2].
    destruct (NoGui.run w cfg l1 (datagrams rest)) as [l3 e3]. cbn [fst snd] in *.
    destruct IH as [-> <-]. split; [reflexivity |].
    rewrite !inner_app, inner_map. destruct (NoGui.DEBUG_MODE cfg); reflexivity.
  - cbn [NoGuiLoop.listen datagrams flat_map app].
    change (flat_map _ rest) with (datagrams rest).
    specialize (IH l (n + 1)). destruct (NoGuiLoop.listen w cfg l (n + 1) rest) as [l2 e2].
    cbn [fst snd] in *. destruct IH as [-> <-]. split; [reflexivity |].
    rewrite inner_app. destruct ((n + 1) mod 6 =? 0); reflexivity.
  - cbn [NoGuiLoop.listen datagrams flat_map app].
    change (flat_map _ rest) with (datagrams rest).
    specialize (IH l n). destruct (NoGuiLoop.listen w cfg l n rest) as [l2 e2].
    cbn [fst snd] in *. destruct IH as [-> <-]. split; reflexivity.
Qed.

Lemma inner_gui_say (cb : bool) (m : ListenMsg) : inner (GuiLoop.say cb m) = [].
Proof. destruct cb; reflexivity. Qed.

Lemma gui_listen_run (w : World) (received : list Received) :
  forall l n,
    (GuiLoop.listen w l n received).1 = (Gui.run w l (datagrams received)).1
    /\ inner (GuiLoop.listen w l n received).2 = (Gui.run w l (datagrams received)).2.
Proof.
  induction received as [| [data | |] rest IH]; intros l n; [split; reflexivity | | |].
  - cbn [GuiLoop.listen datagrams flat_map app Gui.run].
    change (flat_map _ rest) with (datagrams rest).
    destruct (Gui.process_packet w l data) as [l1 e1].
    specialize (IH l1 0). destruct (GuiLoop.listen w l1 0 rest) as [l2 e2].
    destruct (Gui.run w l1 (datagrams rest)) as [l3 e3]. cbn [fst snd] in *.
    destruct IH as [-> <-]. split; [reflexivity |].
    rewrite !inner_app, inner_map. reflexivity.
  - cbn [GuiLoop.listen datagrams flat_map app].
    change (flat_map _ rest) with (datagrams rest).
    specialize (IH l (n + 1)). destruct (GuiLoop.listen w l (n + 1) rest) as [l2 e2].
    cbn [fst snd] in *. destruct IH as [-> <-]. split; [reflexivity |].
    rewrite inner_app. destruct ((n + 1) mod 12 =? 0); [rewrite inner_gui_say |]; reflexivity.
  - cbn [GuiLoop.listen datagrams flat_map app].
    change (flat_map _ rest) with (datagrams rest).
    specialize (IH l n). destruct (GuiLoop.listen w l n rest) as [l2 e2].
    cbn [fst snd] in *. destruct IH as [-> <-]. split; [reflexivity |].
    rewrite inner_app, inner_gui_say. reflexivity.
Qed.

(** X15. [start_listening] handles the datagrams it receives in order
    and nothing else touches the listener: time-outs and socket errors
    between them change neither its state nor what [process_packet]
    does for the datagrams.  When the socket cannot be set up, no
    datagram is handled.  Both versions. *)
Theorem start_listening_runs_datagrams (w : World) (received : list Received) :
  (forall cfg l,
      let r := NoGuiLoop.start_listening w cfg l true received in
      r.1 = (NoGui.run w cfg l (datagrams received)).1
      /\ inner r.2 = (NoGui.run w cfg l (datagrams received)).2)
  /\ (forall l,
      let r := GuiLoop.start_listening w l true received in
      r.1 = (Gui.run w l (datagrams received)).1
      /\ inner r.2 = (Gui.run w l (datagrams received)).2)
  /\ (forall cfg l,
      let r := NoGuiLoop.start_listening w cfg l false received in
      r.1 = l /\ inner r.2 = [])
  /\ (forall l,
      let r := GuiLoop.start_listening w l false received in
      r.1 = l /\ inner r.2 = []).
Proof.
  split; [| split; [| split]].
  - intros cfg l. cbv zeta. unfold NoGuiLoop.start_listening.
    pose proof (nogui_listen_run w cfg received l 0) as [H1 H2].
    destruct (NoGuiLoop.listen w cfg l 0 received) as [l1 e1]. cbn [fst snd] in *.
    split; [exact H1 |]. rewrite !inner_app, H2.
    destruct (NoGui.DEBUG_MODE cfg), (NoGui.SYNC_VIDEO_TO_SONG cfg); reflexivity.
  - intros l. cbv zeta. unfold GuiLoop.start_listening.
    pose proof (gui_listen_run w received l 0) as [H1 H2].
    destruct (GuiLoop.listen w l 0 received) as [l1 e1]. cbn [fst snd] in *.
    split; [exact H1 |]. rewrite inner_app, inner_gui_say, H2. reflexivity.
  - intros cfg l. split; reflexivity.
  - intros l. split; [reflexivity |]. apply inner_gui_say.
Qed.

Lemma heartbeat_step (period n : Z) :
  0 < period -> 0 <= n ->
  ((n + 1) mod period = 0 -> (n + 1) / period = n / period + 1
                             /\ n + 1 = period * (n / period + 1))
  /\ ((n + 1) mod period <> 0 -> (n + 1) / period = n / period).
Proof.
  intros Hp Hn.
  pose proof (Z.div_mod (n + 1) period ltac:(lia)) as H1.
  pose proof (Z.mod_pos_bound (n + 1) period Hp) as H2.
  pose proof (Z.div_mod n period ltac:(lia)) as H3.
  pose proof (Z.mod_pos_bound n period Hp) as H4.
  split; intros H.
  - assert ((n + 1) / period = n / period + 1) by nia. split; [assumption | nia].
  - nia.
Qed.

Lemma multiples_shift (period : Z) (a m : nat) :
  List.map (fun i => period * Z.of_nat i) (seq a (S m))
  = period * Z.of_nat a :: List.map (fun i => period * Z.of_nat i) (seq (S a) m).
Proof. reflexivity. Qed.

Lemma nogui_heartbeat (w : World) (cfg : NoGui.Config) (l : NoGui.RB3EventListener) (k : nat) :
  forall n, 0 <= n ->
    still_listening (NoGuiLoop.listen w cfg l n (replicate k Timeout)).2
    = List.map (fun i => 30 * Z.of_nat i)
        (seq (S (Z.to_nat (n / 6))) (Z.to_nat ((n + Z.of_nat k) / 6 - n / 6))).
Proof.
  induction k as [| k IH]; intros n Hn.
  - cbn [replicate NoGuiLoop.listen snd]. rewrite Z.add_0_r, Z.sub_diag. reflexivity.
  - cbn [replicate NoGuiLoop.listen].
    specialize (IH (n + 1) ltac:(lia)).
    destruct (NoGuiLoop.listen w cfg l (n + 1) (replicate k Timeout)) as [l1 e1].
    cbn [snd] in *. rewrite still_listening_app, IH.
    replace (n + Z.of_nat (S k)) with (n + 1 + Z.of_nat k) by lia.
    destruct (heartbeat_step 6 n ltac:(lia) Hn) as [Hz Hnz].
    assert (Hmono : (n + 1) / 6 <= (n + 1 + Z.of_nat k) / 6)
      by (apply Z.div_le_mono; lia).
    pose proof (Z.div_pos n 6 Hn ltac:(lia)) as Hpos.
    destruct ((n + 1) mod 6 =? 0) eqn:Hm.
    + apply Z.eqb_eq in Hm. destruct (Hz Hm) as [Hd Hv].
      replace (Z.to_nat ((n + 1 + Z.of_nat k) / 6 - n / 6))
        with (S (Z.to_nat ((n + 1 + Z.of_nat k) / 6 - (n + 1) / 6))) by lia.
      rewrite multiples_shift. cbn [still_listening flat_map app].
      f_equal; [lia |]. do 2 f_equal. lia.
    + apply Z.eqb_neq in Hm. rewrite (Hnz Hm). reflexivity.
Qed.

Lemma gui_heartbeat (w : World) (l : Gui.RB3EventListener) (k : nat) :
  Gui.gui_callback l = true ->
  forall n, 0 <= n ->
    still_listening (GuiLoop.listen w l n (replicate k Timeout)).2
    = List.map (fun i => 60 * Z.of_nat i)
        (seq (S (Z.to_nat (n / 12))) (Z.to_nat ((n + Z.of_nat k) / 12 - n / 12))).
Proof.
  intros Hcb. induction k as [| k IH]; intros n Hn.
  - cbn [replicate GuiLoop.listen snd]. rewrite Z.add_0_r, Z.sub_diag. reflexivity.
  - cbn [replicate GuiLoop.listen].
    specialize (IH (n + 1) ltac:(lia)).
    destruct (GuiLoop.listen w l (n + 1) (replicate k Timeout)) as [l1 e1].
    cbn [snd] in *. rewrite still_listening_app, IH, Hcb.
    replace (n + Z.of_nat (S k)) with (n + 1 + Z.of_nat k) by lia.
    destruct (heartbeat_step 12 n ltac:(lia) Hn) as [Hz Hnz].
    assert (Hmono : (n + 1) / 12 <= (n + 1 + Z.of_nat k) / 12)
      by (apply Z.div_le_mono; lia).
    pose proof (Z.div_pos n 12 Hn ltac:(lia)) as Hpos.
    destruct ((n + 1) mod 12 =? 0) eqn:Hm.
    + apply Z.eqb_eq in Hm. destruct (Hz Hm) as [Hd Hv].
      replace (Z.to_nat ((n + 1 + Z.of_nat k) / 12 - n / 12))
        with (S (Z.to_nat ((n + 1 + Z.of_nat k) / 12 - (n + 1) / 12))) by lia.
      rewrite multiples_shift. cbn [GuiLoop.say still_listening flat_map app].
      f_equal; [lia |]. do 2 f_equal. lia.
    + apply Z.eqb_neq in Hm. rewrite (Hnz Hm). reflexivity.
Qed.

(** X16. While nothing arrives, the console version prints its "still
    listening" line at every sixth time-out in a row and the GUI version
    (with a callback) at every twelfth: after [k] time-outs, [k / 6]
    lines showing 30, 60, ... seconds, or [k / 12] lines showing 60, 120,
    ... seconds. *)
Theorem still_listening_lines (w : World) (k : nat) :
  (forall cfg l,
      still_listening (NoGuiLoop.start_listening w cfg l true (replicate k Timeout)).2
      = multiples 30 (k / 6))
  /\ (forall l, Gui.gui_callback l = true ->
      still_listening (GuiLoop.start_listening w l true (replicate k Timeout)).2
      = multiples 60 (k / 12)).
Proof.
  split.
  - intros cfg l. unfold NoGuiLoop.start_listening.
    pose proof (nogui_heartbeat w cfg l k 0 ltac:(lia)) as H.
    destruct (NoGuiLoop.listen w cfg l 0 (replicate k Timeout)) as [l1 e1].
    cbn [snd] in *. rewrite !still_listening_app, H.
    replace (still_listening [Line LListening]) with (@nil Z) by reflexivity.
    replace (still_listening (if NoGui.DEBUG_MODE cfg then [Line LDebugMode] else []))
      with (@nil Z) by (destruct (NoGui.DEBUG_MODE cfg); reflexivity).
    replace (still_listening (if NoGui.SYNC_VIDEO_TO_SONG cfg then [Line LSyncEnabled] else []))
      with (@nil Z) by (destruct (NoGui.SYNC_VIDEO_TO_SONG cfg); reflexivity).
    cbn [app still_listening flat_map]. unfold multiples.
    change (0 / 6) with 0. rewrite Z.add_0_l, Z.sub_0_r. cbn [Z.to_nat].
    f_equal. f_equal. change 6 with (Z.of_nat 6). rewrite <- Nat2Z.inj_div. lia.
  - intros l Hcb. unfold GuiLoop.start_listening.
    pose proof (gui_heartbeat w l k Hcb 0 ltac:(lia)) as H.
    destruct (GuiLoop.listen w l 0 (replicate k Timeout)) as [l1 e1].
    cbn [snd] in *. rewrite still_listening_app, H, Hcb.
    cbn [GuiLoop.say app still_listening flat_map]. unfold multiples.
    change (0 / 12) with 0. rewrite Z.add_0_l, Z.sub_0_r. cbn [Z.to_nat].
    f_equal. f_equal. change 12 with (Z.of_nat 12). rewrite <- Nat2Z.inj_div. lia.
Qed.

Example start_listening_ex :
  (NoGuiLoop.start_listening sample_world NoGui.source_config
     (NoGui.new_listener sample_searcher sample_player) true
     (replicate 6 Timeout ++ [SocketError; Datagram alive_datagram] ++ replicate 5 Timeout)).2
  = [ Line LListening; Line LSyncEnabled; Line LStartPlaying;
      Line (LStillListening 30); Line LEnableEventsHint; Line LSocketError;
      Inner (Print (MConnected [])) ].
Proof. vm_compute. reflexivity. Qed.

(** ** From the song events to the start of the video *)

Lemma truthy_some (s : str) : s <> [] -> truthy (Some s) = true.
Proof. destruct s; [contradiction | reflexivity]. Qed.

(** X17. Console version.  When the search finds a video for the two
    slots and its stream resolves, [prepare_video] in the menus stores
    the video as pending and starts nothing; the State packet "1" that
    follows then starts exactly that video, for the artist and song of
    the slots as they were, and empties the pending slot.  When the game
    was already in a song, [prepare_video] starts the video at once and
    leaves nothing pending. *)
Theorem nogui_prepared_video_starts_with_song (w : World) (cfg : NoGui.Config)
    (l : NoGui.RB3EventListener) (id url : str) (ys' : YouTubeSearcher) (e : list Effect) :
  NoGui.SYNC_VIDEO_TO_SONG cfg = true ->
  NoGui.search_video w (NoGui.youtube_searcher l) (NoGui.current_artist l) (NoGui.current_song l)
  = (Some id, ys', e) ->
  id <> [] -> get_stream_url w id = Some url -> url <> [] ->
  let r := NoGui.prepare_video w cfg l in
  let play := NoGui.play_video w cfg (NoGui.vlc_player l) url id
                (NoGui.current_artist l) (NoGui.current_song l) in
  resolved r.2 = [id]
  /\ (NoGui.game_state l = 0 ->
      NoGui.pending_video r.1 = Some (url, id, NoGui.current_artist l, NoGui.current_song l)
      /\ NoGui.vlc_player r.1 = NoGui.vlc_player l
      /\ started r.2 = []
      /\ let r2 := NoGui.handle_state_change w cfg r.1 (lit "1") in
         NoGui.pending_video r2.1 = None
         /\ NoGui.game_state r2.1 = 1
         /\ NoGui.vlc_player r2.1 = play.1
         /\ started r2.2 = started play.2)
  /\ (NoGui.game_state l = 1 ->
      NoGui.pending_video r.1 = None
      /\ NoGui.vlc_player r.1 = play.1
      /\ started r.2 = started play.2).
Proof.
  intros Hsync Hsearch Hid Hurl Hne. cbv zeta.
  pose proof (NoGuiCalls.nogui_search_video_calls w (NoGui.youtube_searcher l)
                (NoGui.current_artist l) (NoGui.current_song l)) as (_ & Hres & Hst).
  rewrite Hsearch in Hres, Hst. cbn [snd] in Hres, Hst.
  assert (Hres0 : resolved e = []) by (destruct (resolved e); [reflexivity | simpl in Hres; lia]).
  assert (Hst0 : started e = []) by (destruct (started e); [reflexivity | simpl in Hst; lia]).
  pose proof (NoGuiCalls.nogui_play_video_calls w cfg (NoGui.vlc_player l) url id
                (NoGui.current_artist l) (NoGui.current_song l)) as (_ & Hplay & _).
  unfold NoGui.prepare_video. rewrite Hsearch.
  rewrite (truthy_some id Hid). cbn [default from_option Datatypes.id].
  rewrite Hurl, (truthy_some url Hne).
  cbn [NoGui.game_state NoGui.set_pending_video NoGui.set_youtube_searcher
       NoGui.current_artist NoGui.current_song default from_option Datatypes.id].
  destruct (NoGui.game_state l =? 1) eqn:Hg.
  - apply Z.eqb_eq in Hg.
    unfold NoGui.start_pending_video.
    cbn [NoGui.pending_video NoGui.set_pending_video NoGui.vlc_player NoGui.set_youtube_searcher].
    destruct (NoGui.play_video w cfg (NoGui.vlc_player l) url id
                (NoGui.current_artist l) (NoGui.current_song l)) as [p1 e1].
    cbn [fst snd NoGui.clear_slots NoGui.set_current_artist NoGui.set_current_song
         NoGui.pending_video NoGui.vlc_player NoGui.set_vlc_player NoGui.set_pending_video].
    cbn [snd] in Hplay.
    assert (He1 : resolved e1 = [])
      by (destruct (resolved e1); [reflexivity | simpl in Hplay; lia]).
    split; [split_ifs; autorewrite with calls; rewrite Hres0, He1; reflexivity |].
    split; [intros H0; lia |]. intros _.
    split; [reflexivity |]. split; [reflexivity |].
    split_ifs; autorewrite with calls; rewrite Hst0; reflexivity.
  - apply Z.eqb_neq in Hg.
    cbn [fst snd NoGui.clear_slots NoGui.set_current_artist NoGui.set_current_song
         NoGui.pending_video NoGui.vlc_player NoGui.set_vlc_player NoGui.set_pending_video].
    split; [autorewrite with calls; rewrite Hres0; reflexivity |].
    split; [| intros H1; contradiction].
    intros H0. split; [reflexivity |]. split; [reflexivity |].
    split; [autorewrite with calls; rewrite Hst0; reflexivity |].
    unfold NoGui.handle_state_change.
    change (decode_state (lit "1")) with (Some 1).
    cbn [NoGui.game_state NoGui.set_game_state NoGui.pending_video NoGui.set_pending_video
         NoGui.set_youtube_searcher NoGui.set_current_artist NoGui.set_current_song
         NoGui.clear_slots].
    rewrite H0, Hsync. change (0 =? 0) with true. change (1 =? 1) with true.
    rewrite bool_decide_eq_true_2 by (eexists; reflexivity). cbn [andb].
    unfold NoGui.start_pending_video.
    cbn [NoGui.pending_video NoGui.set_pending_video NoGui.vlc_player NoGui.set_youtube_searcher
         NoGui.set_current_artist NoGui.set_current_song NoGui.clear_slots].
    destruct (NoGui.play_video w cfg (NoGui.vlc_player l) url id
                (NoGui.current_artist l) (NoGui.current_song l)) as [p1 e1].
    cbn [fst snd NoGui.pending_video NoGui.vlc_player NoGui.set_vlc_player
         NoGui.set_pending_video NoGui.set_game_state NoGui.game_state].
    split_ifs; cbn [fst snd NoGui.pending_video NoGui.vlc_player NoGui.set_vlc_player
                    NoGui.set_pending_video NoGui.set_game_state NoGui.game_state];
      (split; [reflexivity |]); (split; [reflexivity |]); (split; [reflexivity |]);
      autorewrite with calls; reflexivity.
Qed.

Lemma nogui_prepared_video_starts_with_song_witness :
  let l := NoGui.set_current_song
             (NoGui.set_current_artist (NoGui.new_listener sample_searcher sample_player)
                (lit "Foo")) (lit "Song") in
  let r := NoGui.prepare_video sample_world NoGui.source_config l in
  NoGui.pending_video r.1 = Some (lit "https://stream/vid2", lit "vid2", lit "Foo", lit "Song")
  /\ started r.2 = []
  /\ started (NoGui.handle_state_change sample_world NoGui.source_config r.1 (lit "1")).2
     = [NoGui.vlc_cmd NoGui.source_config (lit "vlc") (lit "https://stream/vid2")
          (lit "Foo") (lit "Song")].
Proof.
  cbv zeta.
  edestruct (nogui_prepared_video_starts_with_song sample_world NoGui.source_config
               (NoGui.set_current_song
                  (NoGui.set_current_artist (NoGui.new_listener sample_searcher sample_player)
                     (lit "Foo")) (lit "Song"))
               (lit "vid2") (lit "https://stream/vid2")) as (_ & H & _);
    [reflexivity | vm_compute; reflexivity | discriminate | reflexivity | discriminate |].
  destruct (H eq_refl) as (Hp & _ & Hs & _ & _ & _ & Hs2).
  split; [exact Hp |]. split; [exact Hs |]. rewrite Hs2. vm_compute. reflexivity.
Defined.

(** X18. GUI version of the same: with the setting
    [sync_video_to_song] on (or absent), a video found and resolved in
    the menus is stored as pending and nothing is started; the State
    packet "1" that follows hands exactly that video to [play_video],
    with the settings of the listener, and empties the pending slot.  In
    a song, [prepare_video] hands it to [play_video] at once. *)
Theorem gui_prepared_video_starts_with_song (w : World) (l : Gui.RB3EventListener)
    (id url : str) (ys' : YouTubeSearcher) (e : list Effect) :
  Gui.sync_video_to_song l = true ->
  Gui.search_video w (Gui.youtube_searcher l) (Gui.current_artist l) (Gui.current_song l)
  = (inr (Some id), ys', e) ->
  id <> [] -> get_stream_url w id = Some url -> url <> [] ->
  let r := Gui.prepare_video w l in
  let play := Gui.play_video w (Gui.vlc_player l) url id
                (Gui.current_artist l) (Gui.current_song l) (Gui.settings l) in
  resolved r.2 = [id]
  /\ (Gui.game_state l = 0 ->
      Gui.pending_video r.1 = Some (url, id, Gui.current_artist l, Gui.current_song l)
      /\ Gui.vlc_player r.1 = Gui.vlc_player l
      /\ started r.2 = []
      /\ let r2 := Gui.handle_state_change w r.1 (lit "1") in
         Gui.pending_video r2.1 = None
         /\ Gui.game_state r2.1 = 1
         /\ Gui.vlc_player r2.1 = play.1
         /\ started r2.2 = started play.2)
  /\ (Gui.game_state l = 1 ->
      Gui.pending_video r.1 = None
      /\ Gui.vlc_player r.1 = play.1
      /\ started r.2 = started play.2).
Proof.
  intros Hsync Hsearch Hid Hurl Hne. cbv zeta.
  pose proof (GuiCalls.gui_search_video_calls w (Gui.youtube_searcher l)
                (Gui.current_artist l) (Gui.current_song l)) as (_ & Hres & Hst).
  rewrite Hsearch in Hres, Hst. cbn [snd] in Hres, Hst.
  assert (Hres0 : resolved e = []) by (destruct (resolved e); [reflexivity | simpl in Hres; lia]).
  assert (Hst0 : started e = []) by (destruct (started e); [reflexivity | simpl in Hst; lia]).
  pose proof (GuiCalls.gui_play_video_calls w (Gui.vlc_player l) url id
                (Gui.current_artist l) (Gui.current_song l) (Gui.settings l)) as (_ & Hplay & _).
  unfold Gui.prepare_video. rewrite Hsearch.
  rewrite (truthy_some id Hid). cbn [default from_option Datatypes.id].
  rewrite Hurl, (truthy_some url Hne).
  cbn [Gui.game_state Gui.set_pending_video Gui.set_youtube_searcher
       Gui.current_artist Gui.current_song Gui.gui_callback default from_option Datatypes.id].
  destruct (Gui.game_state l =? 1) eqn:Hg.
  - apply Z.eqb_eq in Hg.
    unfold Gui.start_pending_video.
    cbn [Gui.pending_video Gui.set_pending_video Gui.vlc_player Gui.set_youtube_searcher
         Gui.settings Gui.gui_callback].
    destruct (Gui.play_video w (Gui.vlc_player l) url id
                (Gui.current_artist l) (Gui.current_song l) (Gui.settings l)) as [p1 e1].
    cbn [fst snd Gui.clear_slots Gui.set_current_artist Gui.set_current_song
         Gui.pending_video Gui.vlc_player Gui.set_vlc_player Gui.set_pending_video].
    cbn [snd] in Hplay.
    assert (He1 : resolved e1 = [])
      by (destruct (resolved e1); [reflexivity | simpl in Hplay; lia]).
    split; [split_ifs; autorewrite with calls; rewrite Hres0, He1; reflexivity |].
    split; [intros H0; lia |]. intros _.
    split; [reflexivity |]. split; [reflexivity |].
    split_ifs; autorewrite with calls; rewrite Hst0; reflexivity.
  - apply Z.eqb_neq in Hg.
    cbn [fst snd Gui.clear_slots Gui.set_current_artist Gui.set_current_song
         Gui.pending_video Gui.vlc_player Gui.set_vlc_player Gui.set_pending_video].
    split; [autorewrite with calls; rewrite Hres0; reflexivity |].
    split; [| intros H1; contradiction].
    intros H0. split; [reflexivity |]. split; [reflexivity |].
    split; [autorewrite with calls; rewrite Hst0; reflexivity |].
    unfold Gui.handle_state_change.
    change (decode_state (lit "1")) with (Some 1).
    unfold Gui.sync_video_to_song in *.
    cbn [Gui.game_state Gui.set_game_state Gui.pending_video Gui.set_pending_video
         Gui.set_youtube_searcher Gui.set_current_artist Gui.set_current_song
         Gui.clear_slots Gui.settings Gui.gui_callback].
    rewrite H0, Hsync. change (0 =? 0) with true. change (1 =? 1) with true.
    rewrite bool_decide_eq_true_2 by (eexists; reflexivity). cbn [andb].
    unfold Gui.start_pending_video.
    cbn [Gui.pending_video Gui.set_pending_video Gui.vlc_player Gui.set_youtube_searcher
         Gui.set_current_artist Gui.set_current_song Gui.clear_slots Gui.settings
         Gui.gui_callback].
    destruct (Gui.play_video w (Gui.vlc_player l) url id
                (Gui.current_artist l) (Gui.current_song l) (Gui.settings l)) as [p1 e1].
    split_ifs; cbn [fst snd Gui.pending_video Gui.vlc_player Gui.set_vlc_player
                    Gui.set_pending_video Gui.set_game_state Gui.game_state];
      (split; [reflexivity |]); (split; [reflexivity |]); (split; [reflexivity |]);
      autorewrite with calls; reflexivity.
Qed.

Lemma gui_prepared_video_starts_with_song_witness :
  let l := Gui.set_current_song gui_listener_queen (lit "Song") in
  let r := Gui.prepare_video sample_world l in
  Gui.pending_video r.1 = Some (lit "https://stream/vid1", lit "vid1", lit "Queen", lit "Song")
  /\ started r.2 = [].
Proof.
  cbv zeta.
  edestruct (gui_prepared_video_starts_with_song sample_world
               (Gui.set_current_song gui_listener_queen (lit "Song"))
               (lit "vid1") (lit "https://stream/vid1")) as (_ & H & _);
    [reflexivity | vm_compute; reflexivity | discriminate | reflexivity | discriminate |].
  destruct (H eq_refl) as (Hp & _ & Hs & _).
  split; [exact Hp | exact Hs].
Defined.

(** ** The normalized terms *)

Lemma sub_aux_sublist (m : str -> option nat) (s : str) :
  forall skip, sub_aux m skip s `sublist_of` s.
Proof.
  induction s as [| c s IH]; intros skip; [constructor |].
  cbn [sub_aux]. destruct skip as [| k]; [| apply sublist_cons, IH].
  destruct (m (c :: s)) as [[| k] |]; [apply sublist_skip | apply sublist_cons | apply sublist_skip];
    apply IH.
Qed.

Lemma occurs_in_sublist (p s : str) : occurs_in p s -> p `sublist_of` s.
Proof.
  intros (pre & post & ->). apply sublist_inserts_l. apply sublist_inserts_r. reflexivity.
Qed.

(** X19. The normalized terms never start or end with white space,
    so that stripping them again changes nothing.  The normalized
    artist is one piece of the artist as given; the normalized song
    keeps characters of the song in their order and adds none. *)
Theorem clean_search_terms_trimmed (artist song : str) :
  let r := clean_search_terms artist song in
  no_space_at_start r.1 /\ no_space_at_end r.1
  /\ no_space_at_start r.2 /\ no_space_at_end r.2
  /\ occurs_in r.1 artist
  /\ r.2 `sublist_of` song
  /\ strip r.1 = r.1 /\ strip r.2 = r.2.
Proof.
  cbv zeta. unfold clean_search_terms. cbn [fst snd].
  set (a := re_split_first match_featuring artist).
  set (s := re_sub_delete match_modifier (re_sub_delete match_parens song)).
  destruct (strip_trimmed a) as (Ha1 & Ha2 & pre & post & Ha3).
  destruct (strip_trimmed s) as (Hs1 & Hs2 & Hs3).
  split; [exact Ha1 |]. split; [exact Ha2 |]. split; [exact Hs1 |]. split; [exact Hs2 |].
  split; [| split; [| split]].
  - destruct (re_split_first_prefix match_featuring artist) as (rest & Hrest & _).
    exists pre, (post ++ rest). fold a in Hrest. rewrite Hrest, Ha3 at 1.
    rewrite <- !app_assoc. reflexivity.
  - transitivity s; [apply occurs_in_sublist, Hs3 |].
    unfold s, re_sub_delete.
    transitivity (sub_aux match_parens 0 song); apply sub_aux_sublist.
  - apply strip_id; assumption.
  - apply strip_id; assumption.
Qed.

(** ** The settings of the GUI *)

Lemma gui_vlc_cmd_reads (s1 s2 : gmap string Gui.Value) (path url a s : str) :
  reads s1 = reads s2 -> Gui.vlc_cmd s1 path url a s = Gui.vlc_cmd s2 path url a s.
Proof.
  unfold reads. intros [= _ _ _ H4 H5 H6]. unfold Gui.vlc_cmd. rewrite H4, H5, H6. reflexivity.
Qed.

Lemma gui_play_video_reads (w : World) (p : Gui.VLCPlayer) (url id a s : str)
    (s1 s2 : gmap string Gui.Value) :
  reads s1 = reads s2 -> Gui.play_video w p url id a s s1 = Gui.play_video w p url id a s s2.
Proof.
  intros R. unfold Gui.play_video. cbv zeta.
  rewrite (gui_vlc_cmd_reads s1 s2 _ url a s R). reflexivity.
Qed.

Module GuiSettings.
Import Gui.

Ltac fields :=
  cbn [update_settings youtube_searcher vlc_player gui_callback current_song current_artist
       game_state pending_video settings set_youtube_searcher set_vlc_player set_current_song
       set_current_artist set_game_state set_pending_video clear_slots].

Section Reads.
Variables (w : World) (s1 s2 : gmap string Value).
Hypothesis R : reads s1 = reads s2.

Lemma gui_start_pending_video_reads (l : RB3EventListener) :
  settings l = s2 ->
  start_pending_video w (update_settings l s1)
  = (update_settings (start_pending_video w l).1 s1, (start_pending_video w l).2)
  /\ settings (start_pending_video w l).1 = s2.
Proof.
  intros Hs. unfold start_pending_video. fields.
  destruct (pending_video l) as [[[[url id] a] s] |]; [| split; [reflexivity | exact Hs]].
  rewrite Hs. pose proof R as [= _ _ H3 _ _ _]. rewrite H3.
  rewrite (gui_play_video_reads w (vlc_player l) url id a s s1 s2 R).
  destruct (play_video w (vlc_player l) url id a s s2) as [p e].
  split; [reflexivity | exact Hs].
Qed.

Lemma gui_handle_state_change_reads (l : RB3EventListener) (packet_data : str) :
  settings l = s2 ->
  handle_state_change w (update_settings l s1) packet_data
  = (update_settings (handle_state_change w l packet_data).1 s1,
     (handle_state_change w l packet_data).2)
  /\ settings (handle_state_change w l packet_data).1 = s2.
Proof.
  intros Hs. unfold handle_state_change, sync_video_to_song, auto_quit_on_menu. fields.
  destruct (decode_state packet_data) as [v |]; [| split; [reflexivity | exact Hs]].
  rewrite Hs. pose proof R as [= H1 H2 _ _ _ _]. rewrite H1, H2.
  destruct ((game_state l =? 0) && (v =? 1)).
  - destruct (bool_decide (is_Some (pending_video l))
              && truth (get s2 "sync_video_to_song" (VBool true)));
      [| split; [reflexivity | exact Hs]].
    destruct (gui_start_pending_video_reads l Hs) as [-> Hs'].
    destruct (start_pending_video w l) as [l1 e1]. split; [reflexivity | exact Hs'].
  - destruct ((game_state l =? 1) && (v =? 0)); [| split; [reflexivity | exact Hs]].
    destruct (if truth (get s2 "auto_quit_on_menu" (VBool true))
              then stop_current_video w (vlc_player l) else (vlc_player l, [])) as [p e].
    split; [reflexivity | exact Hs].
Qed.

Lemma gui_prepare_video_reads (l : RB3EventListener) :
  settings l = s2 ->
  prepare_video w (update_settings l s1)
  = (update_settings (prepare_video w l).1 s1, (prepare_video w l).2)
  /\ settings (prepare_video w l).1 = s2.
Proof.
  intros Hs. unfold prepare_video. fields.
  destruct (search_video w (youtube_searcher l) (current_artist l) (current_song l))
    as [[[err | video_id] ys] e_search]; [split; [reflexivity | exact Hs] |].
  destruct (truthy video_id); [| split; [reflexivity | exact Hs]].
  destruct (truthy (get_stream_url w (default [] video_id))); [| split; [reflexivity | exact Hs]].
  destruct (game_state l =? 1); [| split; [reflexivity | exact Hs]].
  match goal with
  | |- context [start_pending_video w (set_pending_video (set_youtube_searcher l ?y) ?v)] =>
    destruct (gui_start_pending_video_reads (set_pending_video (set_youtube_searcher l y) v) Hs)
      as [E Hs'];
    change (start_pending_video w
              (set_pending_video (set_youtube_searcher (update_settings l s1) y) v))
      with (start_pending_video w
              (update_settings (set_pending_video (set_youtube_searcher l y) v) s1));
    rewrite E;
    destruct (start_pending_video w (set_pending_video (set_youtube_searcher l y) v))
      as [l1 e1]
  end.
  split; [reflexivity | exact Hs'].
Qed.

Lemma gui_play_current_song_reads (l : RB3EventListener) :
  settings l = s2 ->
  play_current_song w (update_settings l s1)
  = (update_settings (play_current_song w l).1 s1, (play_current_song w l).2)
  /\ settings (play_current_song w l).1 = s2.
Proof.
  intros Hs. unfold play_current_song. fields.
  destruct (search_video w (youtube_searcher l) (current_artist l) (current_song l))
    as [[[err | video_id] ys] e_search]; [split; [reflexivity | exact Hs] |].
  destruct (truthy video_id); [| split; [reflexivity | exact Hs]].
  destruct (truthy (get_stream_url w (default [] video_id))); [| split; [reflexivity | exact Hs]].
  rewrite Hs.
  rewrite (gui_play_video_reads w (vlc_player l) _ _ (current_artist l) (current_song l) s1 s2 R).
  destruct (play_video w (vlc_player l) _ _ (current_artist l) (current_song l) s2) as [p e].
  split; [reflexivity | exact Hs].
Qed.

Lemma gui_trigger_reads (l : RB3EventListener) :
  settings l = s2 ->
  trigger w (update_settings l s1)
  = (update_settings (trigger w l).1 s1, (trigger w l).2)
  /\ settings (trigger w l).1 = s2.
Proof.
  intros Hs. unfold trigger, sync_video_to_song.
  change (both_known (update_settings l s1)) with (both_known l). fields.
  destruct (both_known l); [| split; [reflexivity | exact Hs]].
  rewrite Hs. pose proof R as [= H1 _ _ _ _ _]. rewrite H1.
  destruct (truth (get s2 "sync_video_to_song" (VBool true))).
  - apply gui_prepare_video_reads, Hs.
  - apply gui_play_current_song_reads, Hs.
Qed.

Lemma gui_process_packet_reads (l : RB3EventListener) (data : bytes) :
  settings l = s2 ->
  process_packet w (update_settings l s1) data
  = (update_settings (process_packet w l data).1 s1, (process_packet w l data).2)
  /\ settings (process_packet w l data).1 = s2.
Proof.
  intros Hs. unfold process_packet.
  destruct (decode_packet data) as [m | p]; [split; [reflexivity | exact Hs] |].
  assert (He : handle_event w (update_settings l s1) (event_of p)
               = (update_settings (handle_event w l (event_of p)).1 s1,
                  (handle_event w l (event_of p)).2)
               /\ settings (handle_event w l (event_of p)).1 = s2).
  { destruct (event_of p); cbn [handle_event]; try (split; [reflexivity | exact Hs]).
    apply gui_handle_state_change_reads, Hs. }
  destruct He as [-> Hs1]. destruct (handle_event w l (event_of p)) as [l1 e1].
  cbn [fst snd] in *.
  destruct (gui_trigger_reads l1 Hs1) as [-> Hs2].
  destruct (trigger w l1) as [l2 e2]. split; [reflexivity | exact Hs2].
Qed.

Lemma gui_run_reads (datagrams : list bytes) :
  forall l, settings l = s2 ->
    run w (update_settings l s1) datagrams
    = (update_settings (run w l datagrams).1 s1, (run w l datagrams).2).
Proof.
  induction datagrams as [| data rest IH]; intros l Hs; [reflexivity |].
  cbn [run]. destruct (gui_process_packet_reads l data Hs) as [-> Hs1].
  destruct (process_packet w l data) as [l1 e1]. cbn [fst snd] in *.
  rewrite (IH l1 Hs1). destruct (run w l1 rest) as [l2 e2]. reflexivity.
Qed.

End Reads.
End GuiSettings.

(** X20. The GUI listener depends on its settings only through the
    six values it reads with [get]: two settings dicts that give the
    same six values lead, for every run, to the same effects and to the
    same listener but for the dict it holds.  So an empty dict, a dict
    without some of the keys, and the defaults of [load_settings] behave
    alike. *)
Theorem gui_settings_only_reads (w : World) (l : Gui.RB3EventListener)
    (s1 s2 : gmap string Gui.Value) (datagrams : list bytes) :
  reads s1 = reads s2 ->
  let r1 := Gui.run w (Gui.update_settings l s1) datagrams in
  let r2 := Gui.run w (Gui.update_settings l s2) datagrams in
  r1.2 = r2.2 /\ r1.1 = Gui.update_settings r2.1 s1.
Proof.
  intros R. cbv zeta.
  pose proof (GuiSettings.gui_run_reads w s1 s2 R datagrams (Gui.update_settings l s2) eq_refl)
    as H.
  change (Gui.update_settings (Gui.update_settings l s2) s1)
    with (Gui.update_settings l s1) in H.
  rewrite H. split; reflexivity.
Qed.

Lemma gui_settings_only_reads_witness :
  let r1 := Gui.run sample_world (Gui.update_settings gui_listener_queen ∅)
              [song_datagram; state_1_datagram] in
  let r2 := Gui.run sample_world (Gui.update_settings gui_listener_queen default_settings)
              [song_datagram; state_1_datagram] in
  r1.2 = r2.2 /\ r1.1 = Gui.update_settings r2.1 ∅.
Proof.
  assert (R : reads (∅ : gmap string Gui.Value) = reads default_settings)
    by (vm_compute; reflexivity).
  exact (gui_settings_only_reads sample_world gui_listener_queen ∅ default_settings
           [song_datagram; state_1_datagram] R).
Defined.

(** ** The played set of a listener *)

Module NoGuiPlayed.
Import NoGui.

Lemma nogui_stop_played (w : World) (p : VLCPlayer) :
  played_videos (stop_current_video w p).1 = played_videos p.
Proof.
  unfold stop_current_video. destruct (current_process p); [| reflexivity].
  destruct (still_running w _); [| reflexivity]. destruct (terminate_result w _); reflexivity.
Qed.

Lemma nogui_start_pending_video_played (w : World) (cfg : Config) (l : RB3EventListener) :
  (size (nogui_played l) <= 10)%nat ->
  (size (nogui_played (start_pending_video w cfg l).1) <= 10)%nat.
Proof.
  intros H. unfold start_pending_video.
  destruct (pending_video l) as [[[[url id] a] s] |]; [| exact H].
  pose proof (nogui_play_video_size w cfg (vlc_player l) url id a s H) as Hp.
  destruct (play_video w cfg (vlc_player l) url id a s) as [p e]. exact Hp.
Qed.

Lemma nogui_handle_state_change_played (w : World) (cfg : Config) (l : RB3EventListener)
    (packet_data : str) :
  (size (nogui_played l) <= 10)%nat ->
  (size (nogui_played (handle_state_change w cfg l packet_data).1) <= 10)%nat.
Proof.
  intros H. unfold handle_state_change.
  destruct (decode_state packet_data) as [v |]; [| exact H].
  destruct ((game_state l =? 0) && (v =? 1)).
  - destruct (bool_decide (is_Some (pending_video l)) && SYNC_VIDEO_TO_SONG cfg); [| exact H].
    pose proof (nogui_start_pending_video_played w cfg l H) as Hs.
    destruct (start_pending_video w cfg l) as [l1 e1]. exact Hs.
  - destruct ((game_state l =? 1) && (v =? 0)); [| exact H].
    destruct (AUTO_QUIT_ON_MENU cfg); [| exact H].
    pose proof (nogui_stop_played w (vlc_player l)) as Hs.
    destruct (stop_current_video w (vlc_player l)) as [p e].
    unfold nogui_played in *. cbn in *. rewrite Hs. exact H.
Qed.

Lemma nogui_trigger_played (w : World) (cfg : Config) (l : RB3EventListener) :
  (size (nogui_played l) <= 10)%nat ->
  (size (nogui_played (trigger w cfg l).1) <= 10)%nat.
Proof.
  intros H. unfold trigger. destruct (both_known l); [| exact H].
  destruct (SYNC_VIDEO_TO_SONG cfg && PRELOAD_VIDEOS cfg).
  - unfold prepare_video.
    destruct (search_video w (youtube_searcher l) (current_artist l) (current_song l))
      as [[video_id ys] e_search].
    destruct (truthy video_id); [| exact H].
    destruct (truthy (get_stream_url w (default [] video_id))); [| exact H].
    cbn [game_state set_pending_video set_youtube_searcher].
    destruct (game_state l =? 1); [| exact H].
    match goal with
    | |- context [start_pending_video w cfg ?l0] =>
      pose proof (nogui_start_pending_video_played w cfg l0 H) as Hs;
      destruct (start_pending_video w cfg l0) as [l1 e1]
    end.
    exact Hs.
  - unfold play_current_song.
    destruct (search_video w (youtube_searcher l) (current_artist l) (current_song l))
      as [[video_id ys] e_search].
    destruct (truthy video_id); [| exact H].
    destruct (truthy (get_stream_url w (default [] video_id))); [| exact H].
    match goal with
    | |- context [play_video w cfg ?p ?u ?i ?a ?s] =>
      pose proof (nogui_play_video_size w cfg p u i a s H) as Hs;
      destruct (play_video w cfg p u i a s) as [p1 e1]
    end.
    exact Hs.
Qed.

Lemma nogui_process_packet_played (w : World) (cfg : Config) (l : RB3EventListener)
    (data : bytes) :
  (size (nogui_played l) <= 10)%nat ->
  (size (nogui_played (process_packet w cfg l data).1) <= 10)%nat.
Proof.
  intros H. unfold process_packet. destruct (decode_packet data) as [[] | p]; try exact H.
  assert (He : (size (nogui_played (handle_event w cfg l (event_of p)).1) <= 10)%nat).
  { destruct (event_of p); cbn [handle_event]; try exact H.
    apply nogui_handle_state_change_played, H. }
  destruct (handle_event w cfg l (event_of p)) as [l1 e1].
  pose proof (nogui_trigger_played w cfg l1 He) as Ht.
  destruct (trigger w cfg l1) as [l2 e2]. exact Ht.
Qed.

End NoGuiPlayed.

Module GuiPlayed.
Import Gui.

Lemma gui_start_pending_video_played (w : World) (l : RB3EventListener) :
  (size (gui_played l) <= 10)%nat ->
  (size (gui_played (start_pending_video w l).1) <= 10)%nat.
Proof.
  intros H. unfold start_pending_video.
  destruct (pending_video l) as [[[[url id] a] s] |]; [| exact H].
  pose proof (gui_play_video_size w (vlc_player l) url id a s (settings l) H) as Hp.
  destruct (play_video w (vlc_player l) url id a s (settings l)) as [p e]. exact Hp.
Qed.

Lemma gui_handle_state_change_played (w : World) (l : RB3EventListener) (packet_data : str) :
  (size (gui_played l) <= 10)%nat ->
  (size (gui_played (handle_state_change w l packet_data).1) <= 10)%nat.
Proof.
  intros H. unfold handle_state_change.
  destruct (decode_state packet_data) as [v |]; [| exact H].
  destruct ((game_state l =? 0) && (v =? 1)).
  - destruct (bool_decide (is_Some (pending_video l)) && sync_video_to_song l); [| exact H].
    pose proof (gui_start_pending_video_played w l H) as Hs.
    destruct (start_pending_video w l) as [l1 e1]. exact Hs.
  - destruct ((game_state l =? 1) && (v =? 0)); [| exact H].
    destruct (auto_quit_on_menu l); [| exact H].
    pose proof (gui_stop_keeps w (vlc_player l)) as (Hs & _).
    destruct (stop_current_video w (vlc_player l)) as [p e].
    unfold gui_played in *. cbn in *. rewrite Hs. exact H.
Qed.

Lemma gui_trigger_played (w : World) (l : RB3EventListener) :
  (size (gui_played l) <= 10)%nat ->
  (size (gui_played (trigger w l).1) <= 10)%nat.
Proof.
  intros H. unfold trigger. destruct (both_known l); [| exact H].
  destruct (sync_video_to_song l).
  - unfold prepare_video.
    destruct (search_video w (youtube_searcher l) (current_artist l) (current_song l))
      as [[[err | video_id] ys] e_search]; [exact H |].
    destruct (truthy video_id); [| exact H].
    destruct (truthy (get_stream_url w (default [] video_id))); [| exact H].
    cbn [game_state set_pending_video set_youtube_searcher].
    destruct (game_state l =? 1); [| exact H].
    match goal with
    | |- context [start_pending_video w ?l0] =>
      pose proof (gui_start_pending_video_played w l0 H) as Hs;
      destruct (start_pending_video w l0) as [l1 e1]
    end.
    exact Hs.
  - unfold play_current_song.
    destruct (search_video w (youtube_searcher l) (current_artist l) (current_song l))
      as [[[err | video_id] ys] e_search]; [exact H |].
    destruct (truthy video_id); [| exact H].
    destruct (truthy (get_stream_url w (default [] video_id))); [| exact H].
    match goal with
    | |- context [play_video w ?p ?u ?i ?a ?s ?st] =>
      pose proof (gui_play_video_size w p u i a s st H) as Hs;
      destruct (play_video w p u i a s st) as [p1 e1]
    end.
    exact Hs.
Qed.

Lemma gui_process_packet_played (w : World) (l : RB3EventListener) (data : bytes) :
  (size (gui_played l) <= 10)%nat ->
  (size (gui_played (process_packet w l data).1) <= 10)%nat.
Proof.
  intros H. unfold process_packet. destruct (decode_packet data) as [m | p]; [exact H |].
  assert (He : (size (gui_played (handle_event w l (event_of p)).1) <= 10)%nat).
  { destruct (event_of p); cbn [handle_event]; try exact H.
    apply gui_handle_state_change_played, H. }
  destruct (handle_event w l (event_of p)) as [l1 e1].
  pose proof (gui_trigger_played w l1 He) as Ht.
  destruct (trigger w l1) as [l2 e2]. exact Ht.
Qed.

End GuiPlayed.

(** X21. However many datagrams a listener handles, and whatever the
    search, the extractor and VLC do, the set of played ids of its
    player never holds more than ten ids, as long as it did not at the
    start (it is empty in a new player).  Both versions. *)
Theorem run_played_at_most_ten (w : World) (datagrams : list bytes) :
  (forall cfg l, (size (nogui_played l) <= 10)%nat ->
      (size (nogui_played (NoGui.run w cfg l datagrams).1) <= 10)%nat)
  /\ (forall l, (size (gui_played l) <= 10)%nat ->
      (size (gui_played (Gui.run w l datagrams).1) <= 10)%nat).
Proof.
  split.
  - intros cfg. induction datagrams as [| data rest IH]; intros l H; [exact H |].
    cbn [NoGui.run].
    pose proof (NoGuiPlayed.nogui_process_packet_played w cfg l data H) as H1.
    destruct (NoGui.process_packet w cfg l data) as [l1 e1].
    specialize (IH l1 H1). destruct (NoGui.run w cfg l1 rest) as [l2 e2]. exact IH.
  - induction datagrams as [| data rest IH]; intros l H; [exact H |].
    cbn [Gui.run].
    pose proof (GuiPlayed.gui_process_packet_played w l data H) as H1.
    destruct (Gui.process_packet w l data) as [l1 e1].
    specialize (IH l1 H1). destruct (Gui.run w l1 rest) as [l2 e2]. exact IH.
Qed.

(** ** Finding VLC *)

(** X22. [find_vlc] prefers the [vlc] of the PATH: it returns "vlc"
    whenever that program runs.  Otherwise it returns the first of the
    three installation paths that is a file, and [None] exactly when
    none of them is.  A path it returns is never empty, so a player
    built on it goes on to start VLC; a player built on [None] starts
    nothing and is left as it is by every [play_video].  Both
    versions. *)
Theorem find_vlc_spec (vlc_runs : bool) (expanduser : str -> str) (isfile : str -> bool) :
  isfile [] = false ->
  let found := find_vlc vlc_runs expanduser isfile in
  (vlc_runs = true -> found = Some (lit "vlc"))
  /\ (vlc_runs = false ->
      forall path, found = Some path ->
        exists pre post, possible_paths expanduser = pre ++ path :: post
                         /\ isfile path = true /\ Forall (fun p => isfile p = false) pre)
  /\ (found = None <->
      vlc_runs = false /\ Forall (fun p => isfile p = false) (possible_paths expanduser))
  /\ (forall path, found = Some path -> truthy found = true)
  /\ (found = None ->
      forall w cfg url id a s st cb,
        let p := (nogui_new_player found).1 in
        let g := gui_new_player found cb in
        (NoGui.play_video w cfg p url id a s).1 = p
        /\ started (NoGui.play_video w cfg p url id a s).2 = []
        /\ (Gui.play_video w g url id a s st).1 = g
        /\ started (Gui.play_video w g url id a s st).2 = []).
Proof.
  intros Hempty. cbv zeta. unfold find_vlc.
  split; [intros ->; reflexivity |].
  split.
  { intros -> path Hfind.
    induction (possible_paths expanduser) as [| q qs IH]; [discriminate |].
    cbn [List.find] in Hfind. destruct (isfile q) eqn:Hq.
    - injection Hfind as <-. exists [], qs. auto.
    - destruct (IH Hfind) as (pre & post & -> & Hp & Hpre).
      exists (q :: pre), post. split; [reflexivity |]. split; [exact Hp |].
      constructor; assumption. }
  split.
  { destruct vlc_runs.
    - split; [discriminate | intros [H _]; discriminate H].
    - split.
      + intros Hnone. split; [reflexivity |]. apply Forall_forall. intros q Hq.
        apply (find_none isfile _ Hnone q). apply list_elem_of_In, Hq.
      + intros [_ Hall]. induction Hall as [| q qs Hq _ IH]; [reflexivity |].
        cbn [List.find]. rewrite Hq. exact IH. }
  split.
  { intros path Hfound. rewrite Hfound. destruct path as [| c path]; [| reflexivity].
    destruct vlc_runs; [discriminate |].
    apply find_some in Hfound as [_ Hfile]. congruence. }
  intros -> w cfg url id a s st cb. cbv zeta.
  unfold NoGui.play_video, Gui.play_video. cbn.
  repeat split. destruct cb; reflexivity.
Qed.

Lemma find_vlc_spec_witness :
  find_vlc false (fun p => p) sample_isfile
  = Some (lit "C:\Program Files (x86)\VideoLAN\VLC\vlc.exe")
  /\ truthy (find_vlc false (fun p => p) sample_isfile) = true.
Proof.
  split; [vm_compute; reflexivity |].
  apply (proj1 (proj2 (proj2 (proj2
           (find_vlc_spec false (fun p => p) sample_isfile eq_refl))))
           (lit "C:\Program Files (x86)\VideoLAN\VLC\vlc.exe")).
  vm_compute. reflexivity.
Defined.

(** ** Where a result of the search comes from *)

Lemma pick_in (w : World) (a s : str) (items : list Item) (found : Item * bool) :
  pick w a s items = Some found -> found.1 ∈ items.
Proof.
  unfold pick. destruct (List.find (good_match w a s) items) as [item |] eqn:Hfind.
  - intros [= <-]. apply find_some in Hfind as [Hin _]. apply list_elem_of_In, Hin.
  - destruct items as [| item items]; [discriminate |]. intros [= <-]. left.
Qed.

Lemma last_cons_app {A} (x : A) (l : list A) (y : A) : last l = Some y -> last (x :: l) = Some y.
Proof. intros H. rewrite last_cons, H. reflexivity. Qed.

Lemma search_loop_provenance (w : World) (say : Msg -> list Effect) (a s : str) (qs : list str) :
  (forall m, searched (say m) = []) ->
  match (search_loop w say a s qs).1 with
  | inr (Some found) =>
    exists q items, q ∈ qs /\ youtube_search w q = inr items
                    /\ pick w a s items = Some found
                    /\ last (searched (search_loop w say a s qs).2) = Some q
  | inl err =>
    exists q, q ∈ qs /\ youtube_search w q = inl err
              /\ last (searched (search_loop w say a s qs).2) = Some q
  | inr None =>
    Forall (fun q => youtube_search w q = inr []) qs
    /\ searched (search_loop w say a s qs).2 = qs
  end.
Proof.
  intros Hsay. induction qs as [| q0 qs IH]; [split; [constructor | reflexivity] |].
  cbn [search_loop]. destruct (youtube_search w q0) as [err | items] eqn:Hq.
  - cbn [fst snd]. exists q0. split; [left |]. split; [exact Hq |].
    rewrite searched_app, Hsay. reflexivity.
  - destruct (pick w a s items) as [found |] eqn:Hpick.
    + cbn [fst snd]. exists q0, items. split; [left |]. split; [exact Hq |].
      split; [exact Hpick |]. rewrite !searched_app, !Hsay. reflexivity.
    + apply pick_none in Hpick. subst items.
      destruct (search_loop w say a s qs) as [r e]. cbn [fst snd] in *.
      rewrite !searched_app, Hsay. change (searched [ApiSearch q0]) with [q0]. cbn [app].
      destruct r as [err | [found |]].
      * destruct IH as (q & Hin & Hq' & Hlast). exists q.
        split; [right; exact Hin |]. split; [exact Hq' | apply last_cons_app, Hlast].
      * destruct IH as (q & items & Hin & Hq' & Hp & Hlast). exists q, items.
        split; [right; exact Hin |]. split; [exact Hq' |].
        split; [exact Hp | apply last_cons_app, Hlast].
      * destruct IH as [Hall He]. split; [constructor; assumption | f_equal; exact He].
Qed.

(** X23. An id that [search_video] returns was in the cache under the
    key of the pair, or is the id of an item of the response to the last
    query sent, a query of the plan; it is then stored under that key.
    An exception that the GUI version raises is the one of the last
    query sent.  Both versions. *)
Theorem search_video_provenance (w : World) (ys : YouTubeSearcher) (artist song : str) :
  let plan := search_queries (clean_search_terms artist song).1 (clean_search_terms artist song).2 in
  let key := key_of w artist song in
  let n := NoGui.search_video w ys artist song in
  let g := Gui.search_video w ys artist song in
  (forall id, n.1.1 = Some id ->
     (search_cache ys !! key = Some id /\ searched n.2 = [])
     \/ (search_cache ys !! key = None
         /\ search_cache n.1.2 !! key = Some id
         /\ exists q items item,
              q ∈ plan /\ youtube_search w q = inr items /\ item ∈ items
              /\ videoId item = id /\ last (searched n.2) = Some q))
  /\ (forall id, g.1.1 = inr (Some id) ->
     (search_cache ys !! key = Some id /\ searched g.2 = [])
     \/ (search_cache ys !! key = None
         /\ search_cache g.1.2 !! key = Some id
         /\ exists q items item,
              q ∈ plan /\ youtube_search w q = inr items /\ item ∈ items
              /\ videoId item = id /\ last (searched g.2) = Some q))
  /\ (forall err, g.1.1 = inl err ->
      exists q, q ∈ plan /\ youtube_search w q = inl err /\ last (searched g.2) = Some q).
Proof.
  cbv zeta. unfold NoGui.search_video, Gui.search_video, key_of.
  destruct (negb (youtube ys)); [repeat split; intros ? H; discriminate H |].
  destruct (clean_search_terms artist song) as [ca cs]. cbn [fst snd].
  destruct (search_cache ys !! search_key w ca cs) as [cached |] eqn:Hc.
  { split; [| split].
    - intros id [= <-]. left. split; reflexivity.
    - intros id [= <-]. left. split; reflexivity.
    - intros err H. discriminate H. }
  pose proof (search_loop_provenance w NoGui.say ca cs (search_queries ca cs)
                (fun _ => eq_refl)) as Hn.
  pose proof (search_loop_provenance w (fun _ => []) ca cs (search_queries ca cs)
                (fun _ => eq_refl)) as Hg.
  destruct (search_loop w NoGui.say ca cs (search_queries ca cs)) as [rn en].
  destruct (search_loop w (fun _ => []) ca cs (search_queries ca cs)) as [rg eg].
  cbn [fst snd] in Hn, Hg.
  split; [| split].
  - destruct rn as [[] | [found |]]; cbn [fst snd]; intros id H; try discriminate H.
    injection H as <-. right. split; [reflexivity |].
    split; [cbn; apply lookup_insert_eq |].
    destruct Hn as (q & items & Hin & Hq & Hp & Hlast).
    exists q, items, found.1. split; [exact Hin |]. split; [exact Hq |].
    split; [exact (pick_in _ _ _ _ _ Hp) |]. split; [reflexivity | exact Hlast].
  - destruct rg as [err | [found |]]; cbn [fst snd]; intros id H; try discriminate H.
    injection H as <-. right. split; [reflexivity |].
    split; [cbn; apply lookup_insert_eq |].
    destruct Hg as (q & items & Hin & Hq & Hp & Hlast).
    exists q, items, found.1. split; [exact Hin |]. split; [exact Hq |].
    split; [exact (pick_in _ _ _ _ _ Hp) |]. split; [reflexivity | exact Hlast].
  - destruct rg as [err' | [found |]]; cbn [fst snd]; intros err H; try discriminate H.
    injection H as <-. exact Hg.
Qed.

(** ** State values written in digits *)

Lemma rstrip_nul_id (data : bytes) :
  Forall (fun b => is_nul b = false) data -> rstrip_nul data = data.
Proof.
  induction 1 as [| b data Hb _ IH]; [reflexivity |].
  unfold rstrip_nul in *. cbn [fold_right]. rewrite IH, Hb. reflexivity.
Qed.

(** X24. A State packet whose payload is a non-empty run of ASCII
    digits, all within the declared length, has as its state value the
    number the digits write in base ten, leading zeros allowed: "1" and
    "01" are the state of a song being played, "0" and "00" the menus,
    and "10" is neither. *)
Theorem state_of_digits (digits : bytes) (size : byte) :
  digits <> [] ->
  Forall (fun b => is_ascii_digit (u8 b) = true) digits ->
  Z.of_nat (length digits) <= u8 size ->
  state_datagram (datagram x01 size digits) (decimal_value (List.map u8 digits)).
Proof.
  intros Hne Hdigits Hsize.
  unfold state_datagram, datagram. cbn [app].
  rewrite decode_packet_header.
  change (negb (be_uint [x52; x42; x33; x45] =? 1380070213)) with false.
  change (negb (u8 x00 =? 0)) with false. cbv iota.
  eexists _, _. split; [reflexivity |]. split; [reflexivity |].
  cbn [packet_data]. unfold payload_of, slice.
  replace (8 + Z.to_nat (u8 size) - 8)%nat with (Z.to_nat (u8 size)) by lia.
  cbn [drop]. rewrite drop_0, take_ge by lia.
  rewrite rstrip_nul_id.
  2:{ eapply Forall_impl; [exact Hdigits |]. intros b Hb. unfold is_nul.
      unfold is_ascii_digit, in_range in Hb. apply andb_true_iff in Hb as [Hb _].
      apply Z.leb_le in Hb. apply Z.eqb_neq. lia. }
  rewrite utf8_decode_ascii.
  2:{ eapply Forall_impl; [exact Hdigits |]. intros b Hb. cbv beta.
      unfold is_ascii_digit, in_range in Hb. apply andb_true_iff in Hb as [_ Hb].
      apply Z.leb_le in Hb. lia. }
  apply decode_state_ascii_digits.
  - destruct digits; [contradiction | discriminate].
  - apply forallb_forall. intros c Hc. apply in_map_iff in Hc as (b & <- & Hb).
    rewrite Forall_forall in Hdigits. apply Hdigits. apply list_elem_of_In, Hb.
Qed.

Lemma state_of_digits_witness :
  state_datagram (datagram x01 x02 [x31; x30]) 10.
Proof.
  exact (state_of_digits [x31; x30] x02 ltac:(discriminate) ltac:(repeat constructor)
           ltac:(vm_compute; discriminate)).
Defined.

(** ** The state machine *)

Lemma terminated_app (a b : list Effect) : terminated (a ++ b) = terminated a ++ terminated b.
Proof. apply flat_map_app. Qed.

Lemma terminated_debug (cfg : NoGui.Config) (d : list DebugMsg) :
  terminated (NoGui.debug cfg d) = [].
Proof. unfold NoGui.debug. destruct (NoGui.DEBUG_MODE cfg); [| reflexivity]. induction d; auto. Qed.

Lemma terminated_gui_say (cb : bool) (m : Msg) : terminated (Gui.say cb m) = [].
Proof. destruct cb; reflexivity. Qed.

#[local] Hint Rewrite terminated_app terminated_debug terminated_gui_say : calls.

Lemma empty_of_length {A} (l : list A) : (length l <= 0)%nat -> l = [].
Proof. destruct l; [reflexivity | simpl; lia]. Qed.

(** The command line of both versions starts with the program and the
    URL, and carries the title. *)
Lemma nogui_vlc_cmd_shape (cfg : NoGui.Config) (path url artist song : str) :
  exists opts, NoGui.vlc_cmd cfg path url artist song = path :: url :: opts
               /\ In (meta_title artist song) opts.
Proof.
  unfold NoGui.vlc_cmd. cbn [app]. eexists. split; [reflexivity |].
  unfold meta_title. simpl. tauto.
Qed.

Lemma gui_vlc_cmd_shape (st : gmap string Gui.Value) (path url artist song : str) :
  exists opts, Gui.vlc_cmd st path url artist song = path :: url :: opts
               /\ In (meta_title artist song) opts.
Proof.
  unfold Gui.vlc_cmd. cbn [app]. eexists. split; [reflexivity |].
  unfold meta_title. simpl. tauto.
Qed.

(** What [play_video] starts, given a VLC path: the full command line,
    and the short one after it when VLC exited at once. *)
Lemma nogui_play_video_starts (w : World) (cfg : NoGui.Config) (p : NoGui.VLCPlayer)
    (path url id artist song : str) :
  NoGui.vlc_path p = Some path -> path <> [] ->
  let cmd := NoGui.vlc_cmd cfg path url artist song in
  started (NoGui.play_video w cfg p url id artist song).2
  = cmd :: (if negb (popen_fails w cmd) && exits_at_once w cmd then [[path; url]] else []).
Proof.
  intros Hpath Hne. cbv zeta. unfold NoGui.play_video. rewrite Hpath.
  destruct path as [| c path]; [contradiction |].
  cbn [truthy negb default from_option Datatypes.id].
  pose proof (NoGuiCalls.nogui_stop_current_video_calls w p) as (_ & _ & Hs).
  apply empty_of_length in Hs.
  destruct (NoGui.stop_current_video w p) as [p1 e1]. cbn [snd] in Hs.
  destruct (popen_fails w (NoGui.vlc_cmd cfg (c :: path) url artist song)).
  { cbn [snd negb andb]. autorewrite with calls. rewrite Hs. reflexivity. }
  destruct (exits_at_once w (NoGui.vlc_cmd cfg (c :: path) url artist song));
    [destruct (popen_fails w _) |];
    cbn [snd negb andb]; autorewrite with calls; rewrite Hs; reflexivity.
Qed.

Lemma gui_play_video_starts (w : World) (p : Gui.VLCPlayer)
    (path url id artist song : str) (st : gmap string Gui.Value) :
  Gui.vlc_path p = Some path -> path <> [] -> id ∉ Gui.played_videos p ->
  let cmd := Gui.vlc_cmd st path url artist song in
  started (Gui.play_video w p url id artist song st).2
  = cmd :: (if negb (popen_fails w cmd) && exits_at_once w cmd then [[path; url]] else []).
Proof.
  intros Hpath Hne Hout. cbv zeta. unfold Gui.play_video. rewrite Hpath.
  destruct path as [| c path]; [contradiction |].
  cbn [truthy negb default from_option Datatypes.id].
  rewrite bool_decide_eq_false_2 by exact Hout.
  pose proof (GuiCalls.gui_stop_current_video_calls w p) as (_ & _ & Hs).
  apply empty_of_length in Hs.
  destruct (Gui.stop_current_video w p) as [p1 e1]. cbn [snd] in Hs.
  destruct (popen_fails w (Gui.vlc_cmd st (c :: path) url artist song)).
  { cbn [snd negb andb]. autorewrite with calls. rewrite Hs. reflexivity. }
  destruct (exits_at_once w (Gui.vlc_cmd st (c :: path) url artist song));
    [destruct (popen_fails w _) |];
    cbn [snd negb andb]; autorewrite with calls; rewrite Hs; reflexivity.
Qed.

(** Without a VLC path, and in the GUI version for a video already
    played, [play_video] leaves the player alone and starts nothing. *)
Lemma nogui_play_video_no_path (w : World) (cfg : NoGui.Config) (p : NoGui.VLCPlayer)
    (url id artist song : str) :
  NoGui.vlc_path p = None ->
  (NoGui.play_video w cfg p url id artist song).1 = p
  /\ started (NoGui.play_video w cfg p url id artist song).2 = []
  /\ terminated (NoGui.play_video w cfg p url id artist song).2 = [].
Proof. intros H. unfold NoGui.play_video. rewrite H. repeat split. Qed.

Lemma gui_play_video_skips (w : World) (p : Gui.VLCPlayer)
    (url id artist song : str) (st : gmap string Gui.Value) :
  Gui.vlc_path p = None \/ id ∈ Gui.played_videos p ->
  (Gui.play_video w p url id artist song st).1 = p
  /\ started (Gui.play_video w p url id artist song st).2 = []
  /\ terminated (Gui.play_video w p url id artist song st).2 = [].
Proof.
  intros H. unfold Gui.play_video.
  destruct (negb (truthy (Gui.vlc_path p))) eqn:Hp.
  - cbn [fst snd]. autorewrite with calls. repeat split.
  - destruct H as [H | H]; [rewrite H in Hp; discriminate |].
    rewrite bool_decide_eq_true_2 by exact H.
    cbn [fst snd]. autorewrite with calls. repeat split.
Qed.

(** What [stop_current_video] does to a running process, and to none. *)
Lemma nogui_stop_running (w : World) (p : NoGui.VLCPlayer) (proc : Proc) :
  NoGui.current_process p = Some proc -> still_running w proc = true ->
  terminated (NoGui.stop_current_video w p).2 = [proc]
  /\ NoGui.current_process (NoGui.stop_current_video w p).1 = None.
Proof.
  intros Hc Hr. unfold NoGui.stop_current_video. rewrite Hc, Hr.
  destruct (terminate_result w proc); split; reflexivity.
Qed.

Lemma gui_stop_running (w : World) (p : Gui.VLCPlayer) (proc : Proc) :
  Gui.current_process p = Some proc -> still_running w proc = true ->
  terminated (Gui.stop_current_video w p).2 = [proc]
  /\ Gui.current_process (Gui.stop_current_video w p).1 = None.
Proof.
  intros Hc Hr. unfold Gui.stop_current_video. rewrite Hc, Hr.
  destruct (terminate_result w proc); cbn [fst snd]; autorewrite with calls; split; reflexivity.
Qed.

Lemma nogui_stop_frame (w : World) (p : NoGui.VLCPlayer) :
  NoGui.vlc_path (NoGui.stop_current_video w p).1 = NoGui.vlc_path p
  /\ NoGui.played_videos (NoGui.stop_current_video w p).1 = NoGui.played_videos p
  /\ started (NoGui.stop_current_video w p).2 = []
  /\ (NoGui.current_process p = None -> NoGui.stop_current_video w p = (p, [])).
Proof.
  unfold NoGui.stop_current_video. destruct (NoGui.current_process p) as [proc |].
  - destruct (still_running w proc); [| repeat split; discriminate].
    destruct (terminate_result w proc); repeat split; discriminate.
  - repeat split.
Qed.

Lemma gui_stop_frame (w : World) (p : Gui.VLCPlayer) :
  Gui.vlc_path (Gui.stop_current_video w p).1 = Gui.vlc_path p
  /\ Gui.played_videos (Gui.stop_current_video w p).1 = Gui.played_videos p
  /\ started (Gui.stop_current_video w p).2 = []
  /\ (Gui.current_process p = None -> Gui.stop_current_video w p = (p, [])).
Proof.
  unfold Gui.stop_current_video. destruct (Gui.current_process p) as [proc |].
  - destruct (still_running w proc); [| repeat split; discriminate].
    destruct (terminate_result w proc); cbn [fst snd]; autorewrite with calls;
      repeat split; discriminate.
  - repeat split.
Qed.

Lemma gui_handle_state_change_slots (w : World) (l : Gui.RB3EventListener) (packet_data : str) :
  let r := Gui.handle_state_change w l packet_data in
  Gui.current_song r.1 = Gui.current_song l
  /\ Gui.current_artist r.1 = Gui.current_artist l
  /\ Gui.youtube_searcher r.1 = Gui.youtube_searcher l.
Proof.
  unfold Gui.handle_state_change.
  destruct (decode_state packet_data) as [v |]; [| repeat split].
  destruct ((Gui.game_state l =? 0) && (v =? 1)).
  - destruct (bool_decide (is_Some (Gui.pending_video l)) && Gui.sync_video_to_song l);
      [| repeat split].
    unfold Gui.start_pending_video.
    destruct (Gui.pending_video l) as [[[[url id] a] s] |]; [| repeat split].
    destruct (Gui.play_video w (Gui.vlc_player l) url id a s (Gui.settings l)). repeat split.
  - destruct ((Gui.game_state l =? 1) && (v =? 0)); [| repeat split].
    destruct (if Gui.auto_quit_on_menu l then _ else _) as [p e]. repeat split.
Qed.

(** C1. A State event whose payload decodes to the value v, in both
    versions; what is observed is the listener afterwards and the
    effects.  In every case v is stored, the two slots and the searcher
    are kept, and nothing is searched or resolved.

    Stored 0 and v = 1: "song starting" is announced.  If a video is
    pending and sync-to-start is on, it is started now: the pending slot
    is empty afterwards and, when the player has a VLC path (and, in the
    GUI version, has not played the video before), VLC is started on the
    URL of the pending video with its artist and song as title, once, or
    twice when it exits at once.  Without a pending video, or with sync
    off, the pending slot and the player are kept and no process is
    started or stopped.

    Stored 1 and v = 0: "returned to menu" is announced, the pending
    slot is empty afterwards whatever it held, and no process is
    started.  A running VLC process is asked to stop, and forgotten,
    exactly when auto-stop is on; with auto-stop off the player is kept
    as it is and nothing is asked to stop.

    Otherwise the pending slot and the player are kept and there is no
    effect (the console version prints its DEBUG_MODE line).

    Hence, from state 0, State(1), State(0), State(1) announce "song
    starting", "returned to menu", "song starting", in that order and
    nothing more.  Events of the other kinds neither change the state nor
    announce a transition.  (The GUI version announces through its log
    callback, when it has one.) *)
Theorem state_machine :
  (forall w cfg l packet_data v,
      decode_state packet_data = Some v ->
      let r := NoGui.handle_state_change w cfg l packet_data in
      let player := NoGui.vlc_player l in
      (NoGui.game_state r.1 = v
       /\ NoGui.current_song r.1 = NoGui.current_song l
       /\ NoGui.current_artist r.1 = NoGui.current_artist l
       /\ NoGui.youtube_searcher r.1 = NoGui.youtube_searcher l
       /\ searched r.2 = [] /\ resolved r.2 = [])
      /\ (NoGui.game_state l = 0 -> v = 1 ->
          transitions r.2 = [Print MSongStarting]
          /\ (forall url id artist song,
                NoGui.pending_video l = Some (url, id, artist, song) ->
                NoGui.SYNC_VIDEO_TO_SONG cfg = true ->
                NoGui.pending_video r.1 = None
                /\ In (Print (MStartingSynced artist song)) r.2
                /\ (forall path, NoGui.vlc_path player = Some path -> path <> [] ->
                      exists opts retry,
                        started r.2 = (path :: url :: opts) :: retry
                        /\ In (meta_title artist song) opts
                        /\ (retry = [] \/ retry = [[path; url]]))
                /\ (NoGui.vlc_path player = None ->
                      started r.2 = [] /\ NoGui.vlc_player r.1 = player))
          /\ (NoGui.pending_video l = None \/ NoGui.SYNC_VIDEO_TO_SONG cfg = false ->
              NoGui.pending_video r.1 = NoGui.pending_video l
              /\ NoGui.vlc_player r.1 = player
              /\ started r.2 = [] /\ terminated r.2 = []))
      /\ (NoGui.game_state l = 1 -> v = 0 ->
          transitions r.2 = [Print MReturnedToMenus]
          /\ NoGui.pending_video r.1 = None
          /\ started r.2 = []
          /\ NoGui.vlc_path (NoGui.vlc_player r.1) = NoGui.vlc_path player
          /\ NoGui.played_videos (NoGui.vlc_player r.1) = NoGui.played_videos player
          /\ (NoGui.AUTO_QUIT_ON_MENU cfg = true ->
              forall proc, NoGui.current_process player = Some proc ->
                still_running w proc = true ->
                terminated r.2 = [proc]
                /\ NoGui.current_process (NoGui.vlc_player r.1) = None)
          /\ (NoGui.AUTO_QUIT_ON_MENU cfg = false \/ NoGui.current_process player = None ->
              terminated r.2 = [] /\ NoGui.vlc_player r.1 = player))
      /\ (~ (NoGui.game_state l = 0 /\ v = 1) -> ~ (NoGui.game_state l = 1 /\ v = 0) ->
          NoGui.pending_video r.1 = NoGui.pending_video l
          /\ NoGui.vlc_player r.1 = player
          /\ r.2 = if NoGui.DEBUG_MODE cfg then [DebugPrint DGameState] else []))
  /\ (forall w l packet_data v,
      decode_state packet_data = Some v ->
      let r := Gui.handle_state_change w l packet_data in
      let player := Gui.vlc_player l in
      (Gui.game_state r.1 = v
       /\ Gui.current_song r.1 = Gui.current_song l
       /\ Gui.current_artist r.1 = Gui.current_artist l
       /\ Gui.youtube_searcher r.1 = Gui.youtube_searcher l
       /\ Gui.settings r.1 = Gui.settings l
       /\ searched r.2 = [] /\ resolved r.2 = [])
      /\ (Gui.game_state l = 0 -> v = 1 ->
          transitions r.2 = (if Gui.gui_callback l then [Print MSongStarting] else [])
          /\ (forall url id artist song,
                Gui.pending_video l = Some (url, id, artist, song) ->
                Gui.sync_video_to_song l = true ->
                Gui.pending_video r.1 = None
                /\ (forall path, Gui.vlc_path player = Some path -> path <> [] ->
                      id ∉ Gui.played_videos player ->
                      exists opts retry,
                        started r.2 = (path :: url :: opts) :: retry
                        /\ In (meta_title artist song) opts
                        /\ (retry = [] \/ retry = [[path; url]]))
                /\ (Gui.vlc_path player = None \/ id ∈ Gui.played_videos player ->
                      started r.2 = [] /\ Gui.vlc_player r.1 = player))
          /\ (Gui.pending_video l = None \/ Gui.sync_video_to_song l = false ->
              Gui.pending_video r.1 = Gui.pending_video l
              /\ Gui.vlc_player r.1 = player
              /\ started r.2 = [] /\ terminated r.2 = []))
      /\ (Gui.game_state l = 1 -> v = 0 ->
          transitions r.2 = (if Gui.gui_callback l then [Print MReturnedToMenus] else [])
          /\ Gui.pending_video r.1 = None
          /\ started r.2 = []
          /\ Gui.vlc_path (Gui.vlc_player r.1) = Gui.vlc_path player
          /\ Gui.played_videos (Gui.vlc_player r.1) = Gui.played_videos player
          /\ (Gui.auto_quit_on_menu l = true ->
              forall proc, Gui.current_process player = Some proc ->
                still_running w proc = true ->
                terminated r.2 = [proc]
                /\ Gui.current_process (Gui.vlc_player r.1) = None)
          /\ (Gui.auto_quit_on_menu l = false \/ Gui.current_process player = None ->
              terminated r.2 = [] /\ Gui.vlc_player r.1 = player))
      /\ (~ (Gui.game_state l = 0 /\ v = 1) -> ~ (Gui.game_state l = 1 /\ v = 0) ->
          Gui.pending_video r.1 = Gui.pending_video l
          /\ Gui.vlc_player r.1 = player
          /\ r.2 = []))
  /\ (forall w cfg l d1 d2 d3,
      state_datagram d1 1 -> state_datagram d2 0 -> state_datagram d3 1 ->
      NoGui.game_state l = 0 ->
      transitions (NoGui.run w cfg l [d1; d2; d3]).2
      = [Print MSongStarting; Print MReturnedToMenus; Print MSongStarting])
  /\ (forall w l d1 d2 d3,
      state_datagram d1 1 -> state_datagram d2 0 -> state_datagram d3 1 ->
      Gui.game_state l = 0 -> Gui.gui_callback l = true ->
      transitions (Gui.run w l [d1; d2; d3]).2
      = [Print MSongStarting; Print MReturnedToMenus; Print MSongStarting])
  /\ (forall w cfg l data p,
      decode_packet data = inr p -> (forall payload, event_of p <> State payload) ->
      NoGui.game_state (NoGui.process_packet w cfg l data).1 = NoGui.game_state l
      /\ transitions (NoGui.process_packet w cfg l data).2 = [])
  /\ (forall w l data p,
      decode_packet data = inr p -> (forall payload, event_of p <> State payload) ->
      Gui.game_state (Gui.process_packet w l data).1 = Gui.game_state l
      /\ transitions (Gui.process_packet w l data).2 = []).
Proof.
  split; [| split; [| split; [| split; [| split]]]].
  - (* console *)
    intros w cfg l pd v Hd. cbv zeta.
    pose proof (NoGuiFacts.nogui_handle_state_change_spec w cfg l pd v Hd) as (Hstate & Htrans).
    pose proof (nogui_handle_state_change_slots w cfg l pd) as (Hsong & Hartist & Hys).
    pose proof (NoGuiCalls.nogui_handle_state_change_calls w cfg l pd) as (Hsearched & Hresolved & _).
    apply empty_of_length in Hsearched, Hresolved.
    split; [repeat split; assumption |].
    split; [| split].
    + intros Hg ->. rewrite Hg in Htrans. split; [exact Htrans |].
      clear Htrans Hstate Hsong Hartist Hys Hsearched Hresolved.
      unfold NoGui.handle_state_change. rewrite Hd, Hg.
      change ((0 =? 0) && (1 =? 1)) with true. cbv iota.
      split.
      * intros url id artist song Hpend Hsync.
        rewrite Hpend, Hsync, bool_decide_eq_true_2 by (eexists; reflexivity). cbn [andb].
        unfold NoGui.start_pending_video. rewrite Hpend.
        pose proof (nogui_play_video_starts w cfg (NoGui.vlc_player l)) as Hstart.
        pose proof (nogui_play_video_no_path w cfg (NoGui.vlc_player l) url id artist song)
          as Hnone.
        destruct (NoGui.play_video w cfg (NoGui.vlc_player l) url id artist song) as [p e]
          eqn:Hplay.
        cbn [fst snd NoGui.pending_video NoGui.set_pending_video NoGui.set_game_state
             NoGui.vlc_player NoGui.set_vlc_player].
        split; [reflexivity |].
        split; [rewrite !in_app_iff; right; right; right; left; left; reflexivity |].
        split.
        -- intros path Hpath Hne.
           specialize (Hstart path url id artist song Hpath Hne). cbv zeta in Hstart.
           rewrite Hplay in Hstart. cbn [snd] in Hstart.
           destruct (nogui_vlc_cmd_shape cfg path url artist song) as (opts & Hcmd & Hmeta).
           exists opts,
             (if negb (popen_fails w (NoGui.vlc_cmd cfg path url artist song))
                 && exits_at_once w (NoGui.vlc_cmd cfg path url artist song)
              then [[path; url]] else []).
           split; [| split; [exact Hmeta |]].
           ++ transitivity (started e); [| rewrite Hstart, Hcmd; reflexivity].
              split_ifs; autorewrite with calls; cbn [started flat_map app]; reflexivity.
           ++ destruct (negb _ && _); [right | left]; reflexivity.
        -- intros Hpath. destruct (Hnone Hpath) as (Hp & Hs & _). cbn [fst snd] in Hp, Hs.
           split; [| exact Hp].
           split_ifs; autorewrite with calls; cbn [started flat_map app]; exact Hs.
      * intros Hno.
        assert (Hcond : bool_decide (is_Some (NoGui.pending_video l))
                        && NoGui.SYNC_VIDEO_TO_SONG cfg = false).
        { destruct Hno as [-> | ->]; [reflexivity | apply andb_false_r]. }
        rewrite Hcond. cbn [fst snd NoGui.pending_video NoGui.set_game_state NoGui.vlc_player].
        autorewrite with calls. repeat split.
    + intros Hg ->. rewrite Hg in Htrans. split; [exact Htrans |].
      clear Htrans Hstate Hsong Hartist Hys Hsearched Hresolved.
      unfold NoGui.handle_state_change. rewrite Hd, Hg.
      change ((1 =? 0) && (0 =? 1)) with false. change ((1 =? 1) && (0 =? 0)) with true.
      cbv iota.
      pose proof (nogui_stop_frame w (NoGui.vlc_player l)) as (Hpath & Hplayed & Hst & Hidle).
      pose proof (nogui_stop_running w (NoGui.vlc_player l)) as Hrun.
      destruct (NoGui.AUTO_QUIT_ON_MENU cfg).
      * destruct (NoGui.stop_current_video w (NoGui.vlc_player l)) as [p e] eqn:Hstop.
        cbn [fst snd NoGui.pending_video NoGui.set_pending_video NoGui.set_game_state
             NoGui.vlc_player NoGui.set_vlc_player] in *.
        split; [reflexivity |].
        split; [autorewrite with calls; rewrite Hst; reflexivity |].
        split; [exact Hpath |]. split; [exact Hplayed |].
        split.
        -- intros _ proc Hproc Hrunning. destruct (Hrun proc Hproc Hrunning) as [Ht Hc].
           split; [autorewrite with calls; rewrite Ht; reflexivity | exact Hc].
        -- intros [Hoff | Hnoproc]; [discriminate |].
           specialize (Hidle Hnoproc). injection Hidle as -> ->. split; [| reflexivity].
           autorewrite with calls. reflexivity.
      * cbn [fst snd NoGui.pending_video NoGui.set_pending_video NoGui.set_game_state
             NoGui.vlc_player NoGui.set_vlc_player].
        split; [reflexivity |].
        split; [autorewrite with calls; reflexivity |].
        split; [reflexivity |]. split; [reflexivity |].
        split; [intros H; discriminate H |].
        intros _. split; [autorewrite with calls; reflexivity | reflexivity].
    + intros H1 H2. clear Htrans Hstate Hsong Hartist Hys Hsearched Hresolved.
      unfold NoGui.handle_state_change. rewrite Hd.
      destruct ((NoGui.game_state l =? 0) && (v =? 1)) eqn:E1.
      { exfalso. apply H1. apply andb_true_iff in E1 as [Ha Hb]. lia. }
      destruct ((NoGui.game_state l =? 1) && (v =? 0)) eqn:E2.
      { exfalso. apply H2. apply andb_true_iff in E2 as [Ha Hb]. lia. }
      cbn [fst snd NoGui.pending_video NoGui.set_game_state NoGui.vlc_player].
      split; [reflexivity |]. split; [reflexivity |].
      unfold NoGui.debug. destruct (NoGui.DEBUG_MODE cfg); reflexivity.
  - (* GUI *)
    intros w l pd v Hd. cbv zeta.
    pose proof (GuiFacts.gui_handle_state_change_spec w l pd v Hd) as (Hstate & _ & Htrans).
    pose proof (gui_handle_state_change_slots w l pd) as (Hsong & Hartist & Hys).
    pose proof (GuiSettings.gui_handle_state_change_reads w (Gui.settings l) (Gui.settings l)
                  eq_refl l pd eq_refl) as [_ Hsettings].
    pose proof (GuiCalls.gui_handle_state_change_calls w l pd) as (Hsearched & Hresolved & _).
    apply empty_of_length in Hsearched, Hresolved.
    split; [repeat split; assumption |].
    split; [| split].
    + intros Hg ->. rewrite Hg in Htrans.
      split; [rewrite Htrans; destruct (Gui.gui_callback l); reflexivity |].
      clear Htrans Hstate Hsong Hartist Hys Hsearched Hresolved Hsettings.
      unfold Gui.handle_state_change. rewrite Hd, Hg.
      change ((0 =? 0) && (1 =? 1)) with true. cbv iota.
      split.
      * intros url id artist song Hpend Hsync.
        rewrite Hpend, Hsync, bool_decide_eq_true_2 by (eexists; reflexivity). cbn [andb].
        unfold Gui.start_pending_video. rewrite Hpend.
        pose proof (gui_play_video_starts w (Gui.vlc_player l)) as Hstart.
        pose proof (gui_play_video_skips w (Gui.vlc_player l) url id artist song (Gui.settings l))
          as Hnone.
        destruct (Gui.play_video w (Gui.vlc_player l) url id artist song (Gui.settings l))
          as [p e] eqn:Hplay.
        cbn [fst snd Gui.pending_video Gui.set_pending_video Gui.set_game_state
             Gui.vlc_player Gui.set_vlc_player].
        split; [reflexivity |].
        split.
        -- intros path Hpath Hne Hout.
           specialize (Hstart path url id artist song (Gui.settings l) Hpath Hne Hout).
           cbv zeta in Hstart. rewrite Hplay in Hstart. cbn [snd] in Hstart.
           destruct (gui_vlc_cmd_shape (Gui.settings l) path url artist song)
             as (opts & Hcmd & Hmeta).
           exists opts,
             (if negb (popen_fails w (Gui.vlc_cmd (Gui.settings l) path url artist song))
                 && exits_at_once w (Gui.vlc_cmd (Gui.settings l) path url artist song)
              then [[path; url]] else []).
           split; [| split; [exact Hmeta |]].
           ++ transitivity (started e); [| rewrite Hstart, Hcmd; reflexivity].
              split_ifs; autorewrite with calls; cbn [started flat_map app]; reflexivity.
           ++ destruct (negb _ && _); [right | left]; reflexivity.
        -- intros Hskip. destruct (Hnone Hskip) as (Hp & Hs & _). cbn [fst snd] in Hp, Hs.
           split; [| exact Hp].
           split_ifs; autorewrite with calls; cbn [started flat_map app]; exact Hs.
      * intros Hno.
        assert (Hcond : bool_decide (is_Some (Gui.pending_video l))
                        && Gui.sync_video_to_song l = false).
        { destruct Hno as [-> | ->]; [reflexivity | apply andb_false_r]. }
        rewrite Hcond. cbn [fst snd Gui.pending_video Gui.set_game_state Gui.vlc_player].
        autorewrite with calls. repeat split.
    + intros Hg ->. rewrite Hg in Htrans.
      split; [rewrite Htrans; destruct (Gui.gui_callback l); reflexivity |].
      clear Htrans Hstate Hsong Hartist Hys Hsearched Hresolved Hsettings.
      unfold Gui.handle_state_change. rewrite Hd, Hg.
      change ((1 =? 0) && (0 =? 1)) with false. change ((1 =? 1) && (0 =? 0)) with true.
      cbv iota.
      pose proof (gui_stop_frame w (Gui.vlc_player l)) as (Hpath & Hplayed & Hst & Hidle).
      pose proof (gui_stop_running w (Gui.vlc_player l)) as Hrun.
      destruct (Gui.auto_quit_on_menu l).
      * destruct (Gui.stop_current_video w (Gui.vlc_player l)) as [p e] eqn:Hstop.
        cbn [fst snd Gui.pending_video Gui.set_pending_video Gui.set_game_state
             Gui.vlc_player Gui.set_vlc_player] in *.
        split; [reflexivity |].
        split; [autorewrite with calls; rewrite Hst; reflexivity |].
        split; [exact Hpath |]. split; [exact Hplayed |].
        split.
        -- intros _ proc Hproc Hrunning. destruct (Hrun proc Hproc Hrunning) as [Ht Hc].
           split; [autorewrite with calls; rewrite Ht; reflexivity | exact Hc].
        -- intros [Hoff | Hnoproc]; [discriminate |].
           specialize (Hidle Hnoproc). injection Hidle as -> ->. split; [| reflexivity].
           autorewrite with calls. reflexivity.
      * cbn [fst snd Gui.pending_video Gui.set_pending_video Gui.set_game_state
             Gui.vlc_player Gui.set_vlc_player].
        split; [reflexivity |].
        split; [autorewrite with calls; reflexivity |].
        split; [reflexivity |]. split; [reflexivity |].
        split; [intros H; discriminate H |].
        intros _. split; [autorewrite with calls; reflexivity | reflexivity].
    + intros H1 H2. clear Htrans Hstate Hsong Hartist Hys Hsearched Hresolved Hsettings.
      unfold Gui.handle_state_change. rewrite Hd.
      destruct ((Gui.game_state l =? 0) && (v =? 1)) eqn:E1.
      { exfalso. apply H1. apply andb_true_iff in E1 as [Ha Hb]. lia. }
      destruct ((Gui.game_state l =? 1) && (v =? 0)) eqn:E2.
      { exfalso. apply H2. apply andb_true_iff in E2 as [Ha Hb]. lia. }
      repeat split.
  - intros. apply nogui_three_states; assumption.
  - intros. apply gui_three_states; assumption.
  - intros w cfg l data p. apply nogui_other_packet.
  - intros w l data p. apply gui_other_packet.
Qed.

(** In the menus with a video pending, State "1" empties the pending
    slot and starts VLC on the URL of the video; in a song with a video
    pending and VLC running, State "0" empties the pending slot and asks
    VLC to stop. *)
Lemma state_machine_witness :
  let r := NoGui.handle_state_change sample_world NoGui.source_config
             nogui_listener_pending (lit "1") in
  let r' := NoGui.handle_state_change sample_world NoGui.source_config
              nogui_listener_in_song (lit "0") in
  (NoGui.game_state r.1 = 1
   /\ NoGui.pending_video r.1 = None
   /\ exists opts retry,
        started r.2 = (lit "vlc" :: lit "https://stream/vid1" :: opts) :: retry
        /\ In (meta_title (lit "Foo") (lit "Song")) opts
        /\ (retry = [] \/ retry = [[lit "vlc"; lit "https://stream/vid1"]]))
  /\ (NoGui.game_state r'.1 = 0
      /\ NoGui.pending_video r'.1 = None
      /\ terminated r'.2 = [[lit "vlc"; lit "https://stream/vid0"]]
      /\ NoGui.current_process (NoGui.vlc_player r'.1) = None).
Proof.
  cbv zeta. split.
  - destruct (proj1 state_machine sample_world NoGui.source_config nogui_listener_pending
                (lit "1") 1 eq_refl) as ((Hs & _) & Hstart & _).
    destruct (Hstart eq_refl eq_refl) as (_ & Hpend & _).
    destruct (Hpend _ _ _ _ eq_refl eq_refl) as (Hnone & _ & Hpopen & _).
    split; [exact Hs |]. split; [exact Hnone |].
    exact (Hpopen (lit "vlc") eq_refl ltac:(discriminate)).
  - destruct (proj1 state_machine sample_world NoGui.source_config nogui_listener_in_song
                (lit "0") 0 eq_refl) as ((Hs & _) & _ & Hmenu & _).
    destruct (Hmenu eq_refl eq_refl) as (_ & Hnone & _ & _ & _ & Hstop & _).
    destruct (Hstop eq_refl _ eq_refl eq_refl) as [Ht Hc].
    split; [exact Hs |]. split; [exact Hnone |]. split; [exact Ht | exact Hc].
Defined.
